(** * Code-view: a shallow embedding of the static structure analyser

    The development follows [src/Code-view.py]:

    - [PyStr], [PyList], [PyExn]: the Python strings, lists, sets and
      exceptions the program relies on ([str.join], [str.split],
      [str.replace], negative list indices, [defaultdict(set)],
      [try] / [except]);
    - [Ast]: the part of Python's [ast] node universe the visitor
      distinguishes, every other node kind being a generic node with its
      ordered children;
    - [Extractor]: the structure model and [CodeStructureExtractor], a
      state-passing visitor that may raise;
    - [Graph]: the graph of [generate_graph_visualization], as the
      sequence of [attr] / [node] / [edge] calls made on the [Digraph];
    - [Api]: [parse_python_file] and [generate_graph_visualization] over
      an explicit file system, parser and renderer;
    - [Lexical]: the traversal as the specification words it, with the
      enclosing names handed down instead of a mutable stack;
    - [Samples], [MoreSamples]: small programs used as instances;
    - [Text]: [format_structure_text];
    - [Outline], [Drawing]: what a tree and a graph hold, as the
      statements need it;
    - [Gui]: the handlers of [CodeVisualizerApp] over the state of the
      window;
    - [Game]: the two input loops of [src/a2.py];
    - [PyStrFacts], [GraphFacts], [ExtractorFacts], [ApiFacts]: lemmas;
    - [ExtractorClaims], [GraphClaims], [ApiClaims]: the claims C1 to
      C10;
    - [ExtractorMore], [TextMore], [GraphMore], [ApiMore], [GameMore],
      [GuiMore]: the further properties X1 to X24. *)

From stdpp Require Import base list strings gmap sorting.
From Stdlib Require Import ZArith Lia Ascii.

Open Scope string_scope.
Open Scope list_scope.

#[local] Set Warnings "-register-all".

(* ================================================================== *)
(** ** Python strings *)
(* ================================================================== *)

Module PyStr.

(** [sep.join(l)] *)
Definition join (sep : string) (l : list string) : string :=
  String.concat sep l.

(** [s.split(sep)] for a one-character separator. *)
Fixpoint split (sep : ascii) (s : string) : list string :=
  match s with
  | EmptyString => [""]
  | String c r =>
      if Ascii.eqb c sep then "" :: split sep r
      else match split sep r with
           | h :: t => String c h :: t
           | [] => [String c ""]
           end
  end.

(** [s.replace(old, new)] for a non-empty [old]: occurrences are matched
    left to right and do not overlap; [skip] counts the characters of a
    matched occurrence that are still to be dropped. *)
Fixpoint replace_from (old new : string) (skip : nat) (s : string) : string :=
  match s with
  | EmptyString => ""
  | String c r =>
      match skip with
      | S k => replace_from old new k r
      | O =>
          if String.prefix old s
          then new +:+ replace_from old new (String.length old - 1) r
          else String c (replace_from old new 0 r)
      end
  end.

Definition replace (old new s : string) : string := replace_from old new 0 s.

(** [os.path.basename] (POSIX): what follows the last slash. *)
Definition basename (p : string) : string :=
  List.last (split "/" p) "".

(** [needle in haystack] as a proposition. *)
Definition contains (haystack needle : string) : Prop :=
  exists pre post, haystack = pre +:+ needle +:+ post.

(** the string has no ['.'] in it *)
Fixpoint dotfree (s : string) : bool :=
  match s with
  | EmptyString => true
  | String c r => negb (Ascii.eqb c ".") && dotfree r
  end.

(** [str(x)] of a value that is a string or [None] (as an f-string
    renders it). *)
Definition str_of (o : option string) : string :=
  match o with Some s => s | None => "None" end.

End PyStr.

(* ================================================================== *)
(** ** Python lists, sets and [defaultdict(set)] *)
(* ================================================================== *)

Module PyList.

(** The position a Python index denotes in a list of length [len]:
    negative indices count from the end, anything else out of range
    raises [IndexError] (here [None]). *)
Definition index (len : nat) (i : Z) : option nat :=
  if (0 <=? i)%Z then
    if (i <? Z.of_nat len)%Z then Some (Z.to_nat i) else None
  else
    if (- Z.of_nat len <=? i)%Z then Some (Z.to_nat (Z.of_nat len + i)) else None.

(** [l[i] += x] on a list of strings. *)
Definition iadd (l : list string) (i : Z) (x : string) : option (list string) :=
  match index (length l) i with
  | Some k =>
      match l !! k with
      | Some old => Some (<[k := old +:+ x]> l)
      | None => None
      end
  | None => None
  end.

(** [enumerate(l)] *)
Definition enumerate {A} (l : list A) : list (Z * A) :=
  imap (fun i x => (Z.of_nat i, x)) l.

(** [x in l] *)
Definition mem (x : string) (l : list string) : bool :=
  bool_decide (x ∈ l).

(** [s.add(x)] on a set kept as a duplicate-free list. The list keeps
    the order of insertion; Python iterates a set in an order of its own
    (that of the hashes), so only what is in the list, not where, is
    meant of the program. *)
Definition set_add (x : string) (s : list string) : list string :=
  if mem x s then s else s ++ [x].

(** [d[k].add(v)] on a [defaultdict(set)]: the dictionary keeps its keys
    in insertion order. *)
Fixpoint dict_add {K} `{EqDecision K} (k : K) (v : string)
    (d : list (K * list string)) : list (K * list string) :=
  match d with
  | [] => [(k, [v])]
  | (k', s) :: r =>
      if decide (k = k') then (k', set_add v s) :: r
      else (k', s) :: dict_add k v r
  end.

End PyList.

(* ================================================================== *)
(** ** Syntax trees *)
(* ================================================================== *)

Module Ast.

(** Expressions. [Name], [Attribute] and [Call] are the node classes the
    program tests for; a node of any other expression class
    ([Constant], [BinOp], [Subscript], [Lambda], [keyword], ...) is an
    [OtherExpr] holding its child expressions in field order. *)
Inductive expr : Type :=
| Name (id : string)
| Attribute (value : expr) (attr : string)
| Call (func : expr) (args : list expr) (keywords : list expr)
| OtherExpr (children : list expr).

(** [ast.arg] and [ast.arguments] *)
Record arg : Type := mk_arg {
  arg_name : string;
  annotation : option expr
}.

Record arguments : Type := mk_arguments {
  posonlyargs : list arg;
  args : list arg;
  vararg : option arg;
  kwonlyargs : list arg;
  kw_defaults : list (option expr);
  kwarg : option arg;
  defaults : list expr
}.

(** Statements. The constructors with a name of their own are the node
    classes [CodeStructureExtractor] has a [visit_] method for; a node of
    any other class ([Expr], [Return], [With], [Try], [ExceptHandler],
    [AsyncFunctionDef], [Pass], ...) is an [OtherNode] holding its
    children, expressions or statements, in field order. *)
Inductive stmt : Type :=
| ClassDef (name : string) (bases : list expr) (keywords : list expr)
    (body : list stmt) (decorator_list : list expr)
| FunctionDef (name : string) (fargs : arguments) (body : list stmt)
    (decorator_list : list expr) (returns : option expr)
| Assign (targets : list expr) (value : expr)
| AnnAssign (target : expr) (ann : expr) (value : option expr)
| Import (names : list string)
| ImportFrom (module : option string) (names : list string)
| If (test : expr) (body : list stmt) (orelse : list stmt)
| For (target : expr) (iter : expr) (body : list stmt) (orelse : list stmt)
| While (test : expr) (body : list stmt) (orelse : list stmt)
| OtherNode (children : list (expr + stmt)).

(** [ast.Module] *)
Inductive mod_ : Type :=
| Module (body : list stmt).

(** Induction over expressions with the nested lists unfolded. *)
Section expr_rect.
Variable P : expr -> Prop.
Hypothesis HName : forall id, P (Name id).
Hypothesis HAttribute : forall value attr, P value -> P (Attribute value attr).
Hypothesis HCall : forall func args_ keywords,
  P func -> Forall P args_ -> Forall P keywords -> P (Call func args_ keywords).
Hypothesis HOtherExpr : forall children,
  Forall P children -> P (OtherExpr children).

Fixpoint expr_ind' (e : expr) : P e :=
  let fix go (l : list expr) : Forall P l :=
    match l with
    | [] => List.Forall_nil P
    | x :: r => List.Forall_cons _ x r (expr_ind' x) (go r)
    end in
  match e with
  | Name id => HName id
  | Attribute v a => HAttribute v a (expr_ind' v)
  | Call f a k => HCall f a k (expr_ind' f) (go a) (go k)
  | OtherExpr cs => HOtherExpr cs (go cs)
  end.
End expr_rect.

(** Induction over statements with the nested lists unfolded. *)
Section stmt_rect.
Variable P : stmt -> Prop.
Hypothesis HClassDef : forall name bases keywords body decorator_list,
  Forall P body -> P (ClassDef name bases keywords body decorator_list).
Hypothesis HFunctionDef : forall name fargs body decorator_list returns,
  Forall P body -> P (FunctionDef name fargs body decorator_list returns).
Hypothesis HAssign : forall targets value, P (Assign targets value).
Hypothesis HAnnAssign : forall target ann value, P (AnnAssign target ann value).
Hypothesis HImport : forall names, P (Import names).
Hypothesis HImportFrom : forall module names, P (ImportFrom module names).
Hypothesis HIf : forall test body orelse,
  Forall P body -> Forall P orelse -> P (If test body orelse).
Hypothesis HFor : forall target iter body orelse,
  Forall P body -> Forall P orelse -> P (For target iter body orelse).
Hypothesis HWhile : forall test body orelse,
  Forall P body -> Forall P orelse -> P (While test body orelse).
Hypothesis HOtherNode : forall children,
  Forall (fun c => match c with inl _ => True | inr s => P s end) children ->
  P (OtherNode children).

Fixpoint stmt_ind' (s : stmt) : P s :=
  let fix go (l : list stmt) : Forall P l :=
    match l with
    | [] => List.Forall_nil P
    | x :: r => List.Forall_cons _ x r (stmt_ind' x) (go r)
    end in
  match s with
  | ClassDef n b k body d => HClassDef n b k body d (go body)
  | FunctionDef n a body d r => HFunctionDef n a body d r (go body)
  | Assign t v => HAssign t v
  | AnnAssign t a v => HAnnAssign t a v
  | Import ns => HImport ns
  | ImportFrom m ns => HImportFrom m ns
  | If t b o => HIf t b o (go b) (go o)
  | For t i b o => HFor t i b o (go b) (go o)
  | While t b o => HWhile t b o (go b) (go o)
  | OtherNode cs =>
      HOtherNode cs
        ((fix goc (l : list (expr + stmt)) :
            Forall (fun c => match c with inl _ => True | inr s => P s end) l :=
            match l with
            | [] => List.Forall_nil _
            | inl e :: r => List.Forall_cons _ (inl e) r I (goc r)
            | inr x :: r => List.Forall_cons _ (inr x) r (stmt_ind' x) (goc r)
            end) cs)
  end.
End stmt_rect.

End Ast.

(* ================================================================== *)
(** ** Exceptions *)
(* ================================================================== *)

Module PyExn.

(** The exceptions in play, all of them subclasses of [Exception]; each
    carries the text [str(e)] gives. *)
Inductive exn : Type :=
| SyntaxError (msg : string)
| IndexError (msg : string)
| AttributeError (msg : string)
| ExecutableNotFound (msg : string)
| OtherException (msg : string).

Definition str (e : exn) : string :=
  match e with
  | SyntaxError m | IndexError m | AttributeError m
  | ExecutableNotFound m | OtherException m => m
  end.

(** The outcome of running a piece of code: a value, or a raised
    exception on its way up. *)
Inductive result (A : Type) : Type :=
| Ok (a : A)
| Raise (e : exn).
Arguments Ok {A} a.
Arguments Raise {A} e.

#[export] Instance result_ret : MRet result := fun A a => Ok a.
#[export] Instance result_bind : MBind result := fun A B f m =>
  match m with
  | Ok a => f a
  | Raise e => Raise e
  end.

(** [option] as a result: [None] raises [e]. *)
Definition or_raise {A} (e : exn) (o : option A) : result A :=
  match o with
  | Some a => Ok a
  | None => Raise e
  end.

(** a monadic left fold: a [for] loop whose body may raise *)
Fixpoint foldM {A B} (f : A -> B -> result A) (l : list B) (a : A) : result A :=
  match l with
  | [] => Ok a
  | x :: r => a' ← f a x; foldM f r a'
  end.

End PyExn.

(* ================================================================== *)
(** ** The structure model and [CodeStructureExtractor] *)
(* ================================================================== *)

Module Extractor.
Import Ast PyExn.

(** [{"name", "value"}] for a plain assignment, [{"name", "annotation",
    "value"}] for an annotated one: [var_annotation] is [None] when the
    key is absent, [var_value] is [None] for Python's [None]. *)
Record var_info : Type := mk_var_info {
  var_name : string;
  var_annotation : option string;
  var_value : option string
}.

Record func_info : Type := mk_func_info {
  func_name : string;
  func_args : list string;
  func_docstring : option string;
  return_annotation : string;
  func_decorators : list string;
  calls_made : list string
}.

Record class_info : Type := mk_class_info {
  class_name : string;
  methods : list func_info;
  bases : list string;
  class_docstring : option string;
  attributes : list var_info;
  class_decorators : list string
}.

(** [self.structure]; [calls] is the [defaultdict(set)], its keys in
    insertion order. A key is whatever [_get_current_scope_id] returned,
    a string or [None]. *)
Record Structure : Type := mk_Structure {
  module_name : option string;
  global_variables : list var_info;
  classes : list class_info;
  functions : list func_info;
  imports_direct : list string;
  imports_from : list string;
  calls : list (option string * list string)
}.

Record CodeStructureExtractor : Type := mk_extractor {
  structure : Structure;
  current_scope : list string
}.

(** [__init__] *)
Definition init : CodeStructureExtractor :=
  {| structure :=
       {| module_name := None; global_variables := []; classes := [];
          functions := []; imports_direct := []; imports_from := [];
          calls := [] |};
     current_scope := [] |}.

(** *** Field updates *)

Definition set_module_name (m : option string) (s : Structure) : Structure :=
  mk_Structure m (global_variables s) (classes s) (functions s)
    (imports_direct s) (imports_from s) (calls s).
Definition set_global_variables (g : list var_info) (s : Structure) : Structure :=
  mk_Structure (module_name s) g (classes s) (functions s)
    (imports_direct s) (imports_from s) (calls s).
Definition set_classes (c : list class_info) (s : Structure) : Structure :=
  mk_Structure (module_name s) (global_variables s) c (functions s)
    (imports_direct s) (imports_from s) (calls s).
Definition set_functions (f : list func_info) (s : Structure) : Structure :=
  mk_Structure (module_name s) (global_variables s) (classes s) f
    (imports_direct s) (imports_from s) (calls s).
Definition set_imports_direct (i : list string) (s : Structure) : Structure :=
  mk_Structure (module_name s) (global_variables s) (classes s) (functions s)
    i (imports_from s) (calls s).
Definition set_imports_from (i : list string) (s : Structure) : Structure :=
  mk_Structure (module_name s) (global_variables s) (classes s) (functions s)
    (imports_direct s) i (calls s).
Definition set_calls (c : list (option string * list string)) (s : Structure)
    : Structure :=
  mk_Structure (module_name s) (global_variables s) (classes s) (functions s)
    (imports_direct s) (imports_from s) c.

Definition on_structure (f : Structure -> Structure)
    (ex : CodeStructureExtractor) : CodeStructureExtractor :=
  mk_extractor (f (structure ex)) (current_scope ex).

Definition add_method (f : func_info) (c : class_info) : class_info :=
  mk_class_info (class_name c) (methods c ++ [f]) (bases c)
    (class_docstring c) (attributes c) (class_decorators c).
Definition add_attribute (v : var_info) (c : class_info) : class_info :=
  mk_class_info (class_name c) (methods c) (bases c)
    (class_docstring c) (attributes c ++ [v]) (class_decorators c).

(** [for cls in classes: if cls["name"] == name: <update cls>; break] *)
Fixpoint update_first (name : string) (f : class_info -> class_info)
    (l : list class_info) : list class_info :=
  match l with
  | [] => []
  | c :: r =>
      if decide (class_name c = name) then f c :: r
      else c :: update_first name f r
  end.

(** *** The name resolver *)

Fixpoint _get_full_name (node : expr) : string :=
  match node with
  | Name id => id
  | Attribute value attr => _get_full_name value +:+ "." +:+ attr
  | Call func _ _ => _get_full_name func +:+ "(...)"
  | OtherExpr _ => "<?>"
  end.

(** [isinstance(node, (ast.Name, ast.Attribute))] *)
Definition is_name_or_attribute (node : expr) : bool :=
  match node with
  | Name _ | Attribute _ _ => true
  | _ => false
  end.

(** [isinstance(node, (ast.Name, ast.Attribute, ast.Call))] *)
Definition is_name_attribute_or_call (node : expr) : bool :=
  match node with
  | Name _ | Attribute _ _ | Call _ _ _ => true
  | OtherExpr _ => false
  end.

(** *** Scope and calls *)

(** the scope id of a stack of enclosing names in a module *)
Definition scope_id (stack : list string) (m : option string) : option string :=
  match stack with
  | [] => m
  | _ => Some (PyStr.join "." stack)
  end.

Definition _get_current_scope_id (ex : CodeStructureExtractor) : option string :=
  scope_id (current_scope ex) (module_name (structure ex)).

Definition add_call (caller_id : option string) (callee_id : string)
    (s : Structure) : Structure :=
  set_calls (PyList.dict_add caller_id callee_id (calls s)) s.

Definition _add_call (caller_id : option string) (callee_id : string)
    (ex : CodeStructureExtractor) : CodeStructureExtractor :=
  on_structure (add_call caller_id callee_id) ex.

(** [self.current_scope.append(name)] *)
Definition push (name : string) (ex : CodeStructureExtractor)
    : CodeStructureExtractor :=
  mk_extractor (structure ex) (current_scope ex ++ [name]).

(** [self.current_scope.pop()] *)
Definition pop (ex : CodeStructureExtractor) : result CodeStructureExtractor :=
  match current_scope ex with
  | [] => Raise (IndexError "pop from empty list")
  | _ => Ok (mk_extractor (structure ex) (removelast (current_scope ex)))
  end.

(** [self.current_scope[-1]], when the stack is not empty *)
Definition top (stack : list string) : option string := last stack.

(** *** What each handler records *)

(** the [class_info] dictionary of [visit_ClassDef]: no method and no
    attribute yet *)
Definition new_class (name : string) (bases_ : list string)
    (docstring : option string) (decorators : list string) : class_info :=
  {| class_name := name;
     methods := [];
     bases := bases_;
     class_docstring := docstring;
     attributes := [];
     class_decorators := decorators |}.

Definition class_bases (bases_ : list expr) : list string :=
  map _get_full_name (filter (fun b => is_name_or_attribute b = true) bases_).

Definition class_record (docstring : option string) (name : string)
    (bases_ : list expr) (decorator_list : list expr) : class_info :=
  new_class name (class_bases bases_) docstring
    (map _get_full_name decorator_list).

Definition register_class (c : class_info) (s : Structure) : Structure :=
  set_classes (classes s ++ [c]) s.

(** ["name[: annotation]"] for one parameter *)
Definition format_arg (a : arg) : string :=
  arg_name a +:+
  match annotation a with
  | Some e => ": " +:+ _get_full_name e
  | None => ""
  end.

(** [for i, default in enumerate(node.args.defaults[::-1]):
       args_list[len(args_list) - 1 - i] += f"={...}"] *)
Definition bind_defaults (ds : list expr) (args_list : list string)
    : result (list string) :=
  foldM (fun args_list '(i, default) =>
           or_raise (IndexError "list index out of range")
             (PyList.iadd args_list (Z.of_nat (length args_list) - 1 - i)
                ("=" +:+ _get_full_name default)))
        (PyList.enumerate (reverse ds)) args_list.

(** [if node.args.kwonlyargs:
       for i, default in enumerate(node.args.kw_defaults[::-1]):
         if default:
           args_list[len(args_list) - len(node.args.kwonlyargs) - 1 - i] += f"={...}"] *)
Definition bind_kw_defaults (kwonly : list arg) (kds : list (option expr))
    (args_list : list string) : result (list string) :=
  match kwonly with
  | [] => Ok args_list
  | _ =>
      foldM (fun args_list '(i, default) =>
               match default with
               | Some d =>
                   or_raise (IndexError "list index out of range")
                     (PyList.iadd args_list
                        (Z.of_nat (length args_list) - Z.of_nat (length kwonly) - 1 - i)
                        ("=" +:+ _get_full_name d))
               | None => Ok args_list
               end)
            (PyList.enumerate (reverse kds)) args_list
  end.

(** the [args_list] of [visit_FunctionDef] *)
Definition function_args (a : arguments) : result (list string) :=
  let args_list := map format_arg (posonlyargs a ++ args a ++ kwonlyargs a) in
  args_list ← bind_defaults (defaults a) args_list;
  bind_kw_defaults (kwonlyargs a) (kw_defaults a) args_list.

Definition function_record (docstring : option string) (name : string)
    (args_list : list string) (decorator_list : list expr)
    (returns : option expr) : func_info :=
  {| func_name := name;
     func_args := args_list;
     func_docstring := docstring;
     return_annotation :=
       match returns with
       | Some r => " -> " +:+ _get_full_name r
       | None => ""
       end;
     func_decorators := map _get_full_name decorator_list;
     calls_made := [] |}.

(** [visit_FunctionDef]: method of the first class named like the top of
    the stack when such a class is registered, global function
    otherwise. *)
Definition register_function (stack : list string) (f : func_info)
    (s : Structure) : Structure :=
  match top stack with
  | Some t =>
      if bool_decide (t ∈ map class_name (classes s))
      then set_classes (update_first t (add_method f) (classes s)) s
      else set_functions (functions s ++ [f]) s
  | None => set_functions (functions s ++ [f]) s
  end.

(** [visit_Assign] / [visit_AnnAssign]: attribute of the first class
    named like the top of the stack (dropped when there is none), global
    variable when the stack is empty. *)
Definition register_variable (stack : list string) (v : var_info)
    (s : Structure) : Structure :=
  match top stack with
  | Some t => set_classes (update_first t (add_attribute v) (classes s)) s
  | None => set_global_variables (global_variables s ++ [v]) s
  end.

Definition assign_record (target : string) (value : expr) : var_info :=
  {| var_name := target; var_annotation := None;
     var_value := Some (_get_full_name value) |}.

Definition annassign_record (target : string) (ann : expr)
    (value : option expr) : var_info :=
  {| var_name := target; var_annotation := Some (_get_full_name ann);
     var_value := _get_full_name <$> value |}.

Definition import_from_name (module : option string) (name : string) : string :=
  match module with
  | Some m => if decide (m = "") then name else m +:+ "." +:+ name
  | None => name
  end.

(** *** The traversal *)

(** The traversal is written by recursion on the tree. The interpreter
    bounds the depth of its own recursion: on a tree nested deeper than
    that bound the Python visitor raises [RecursionError], which
    [parse_python_file] reports as an unknown error. The bound is not
    part of the embedding: what follows is the visitor on the trees it
    gets through. *)

(** Expressions: only [visit_Call] has something to do. *)
Fixpoint visit_expr (node : expr) (ex : CodeStructureExtractor)
    : CodeStructureExtractor :=
  match node with
  | Name _ => ex
  | Attribute value _ => visit_expr value ex
  | Call func args_ keywords =>
      let caller_id := _get_current_scope_id ex in
      let callee_id := _get_full_name func in
      let ex := _add_call caller_id callee_id ex in
      let ex := visit_expr func ex in
      let ex := fold_left (fun ex e => visit_expr e ex) args_ ex in
      fold_left (fun ex e => visit_expr e ex) keywords ex
  | OtherExpr children =>
      fold_left (fun ex e => visit_expr e ex) children ex
  end.

Definition visit_exprs (l : list expr) (ex : CodeStructureExtractor)
    : CodeStructureExtractor :=
  fold_left (fun ex e => visit_expr e ex) l ex.

Definition visit_opt_expr (o : option expr) (ex : CodeStructureExtractor)
    : CodeStructureExtractor :=
  match o with
  | Some e => visit_expr e ex
  | None => ex
  end.

(** [generic_visit] of an [ast.arg] and of an [ast.arguments] *)
Definition visit_arg (a : arg) (ex : CodeStructureExtractor)
    : CodeStructureExtractor :=
  visit_opt_expr (annotation a) ex.

Definition visit_args (l : list arg) (ex : CodeStructureExtractor)
    : CodeStructureExtractor :=
  fold_left (fun ex a => visit_arg a ex) l ex.

Definition visit_arguments (a : arguments) (ex : CodeStructureExtractor)
    : CodeStructureExtractor :=
  let ex := visit_args (posonlyargs a) ex in
  let ex := visit_args (args a) ex in
  let ex := match vararg a with Some v => visit_arg v ex | None => ex end in
  let ex := visit_args (kwonlyargs a) ex in
  let ex := fold_left (fun ex o => visit_opt_expr o ex) (kw_defaults a) ex in
  let ex := match kwarg a with Some v => visit_arg v ex | None => ex end in
  visit_exprs (defaults a) ex.

(** the recording part of [visit_Assign] *)
Definition record_assign (targets : list expr) (value : expr)
    (ex : CodeStructureExtractor) : CodeStructureExtractor :=
  fold_left
    (fun ex target =>
       match target with
       | Name id =>
           on_structure
             (register_variable (current_scope ex) (assign_record id value)) ex
       | _ => ex
       end)
    targets ex.

(** the recording part of [visit_AnnAssign] *)
Definition record_annassign (target ann : expr) (value : option expr)
    (ex : CodeStructureExtractor) : CodeStructureExtractor :=
  match target with
  | Name id =>
      on_structure
        (register_variable (current_scope ex) (annassign_record id ann value)) ex
  | _ => ex
  end.

Section visitor.
(** [ast.get_docstring] of a class or function body, a function of the
    standard library. *)
Variable get_docstring : list stmt -> option string.

Fixpoint visit (node : stmt) (ex : CodeStructureExtractor) {struct node}
    : result CodeStructureExtractor :=
  let fix visit_body (l : list stmt) (ex : CodeStructureExtractor)
      : result CodeStructureExtractor :=
    match l with
    | [] => Ok ex
    | x :: r => ex ← visit x ex; visit_body r ex
    end in
  match node with
  | ClassDef name bases_ keywords body decorator_list =>
      let class_info_ :=
        class_record (get_docstring body) name bases_ decorator_list in
      let ex := on_structure (register_class class_info_) ex in
      let ex := push name ex in
      let ex := visit_exprs bases_ ex in
      let ex := visit_exprs keywords ex in
      ex ← visit_body body ex;
      let ex := visit_exprs decorator_list ex in
      pop ex
  | FunctionDef name fargs body decorator_list returns =>
      args_list ← function_args fargs;
      let func_info_ :=
        function_record (get_docstring body) name args_list
          decorator_list returns in
      let ex :=
        on_structure (register_function (current_scope ex) func_info_) ex in
      let ex := push name ex in
      let ex := visit_arguments fargs ex in
      ex ← visit_body body ex;
      let ex := visit_exprs decorator_list ex in
      let ex := visit_opt_expr returns ex in
      pop ex
  | Assign targets value =>
      let ex := record_assign targets value ex in
      let ex := visit_exprs targets ex in
      Ok (visit_expr value ex)
  | AnnAssign target ann value =>
      let ex := record_annassign target ann value ex in
      let ex := visit_expr target ex in
      let ex := visit_expr ann ex in
      Ok (visit_opt_expr value ex)
  | Import names =>
      Ok (on_structure
            (fun s => set_imports_direct (imports_direct s ++ names) s) ex)
  | ImportFrom module names =>
      Ok (on_structure
            (fun s => set_imports_from
                        (imports_from s ++ map (import_from_name module) names) s)
            ex)
  | If test body orelse =>
      let caller_id := _get_current_scope_id ex in
      let ex := _add_call caller_id ("Condition: " +:+ _get_full_name test) ex in
      let ex := visit_expr test ex in
      ex ← visit_body body ex;
      visit_body orelse ex
  | For target iter body orelse =>
      let caller_id := _get_current_scope_id ex in
      let ex := _add_call caller_id ("For Loop: " +:+ _get_full_name iter) ex in
      let ex := visit_expr target ex in
      let ex := visit_expr iter ex in
      ex ← visit_body body ex;
      visit_body orelse ex
  | While test body orelse =>
      let caller_id := _get_current_scope_id ex in
      let ex := _add_call caller_id ("While Loop: " +:+ _get_full_name test) ex in
      let ex := visit_expr test ex in
      ex ← visit_body body ex;
      visit_body orelse ex
  | OtherNode children =>
      (fix visit_children (l : list (expr + stmt)) (ex : CodeStructureExtractor)
         : result CodeStructureExtractor :=
         match l with
         | [] => Ok ex
         | inl e :: r => visit_children r (visit_expr e ex)
         | inr x :: r => ex ← visit x ex; visit_children r ex
         end) children ex
  end.

(** [generic_visit] over a list of statements, and over the children of
    a node without a handler *)
Fixpoint visit_body (l : list stmt) (ex : CodeStructureExtractor)
    : result CodeStructureExtractor :=
  match l with
  | [] => Ok ex
  | x :: r => ex ← visit x ex; visit_body r ex
  end.

Fixpoint visit_children (l : list (expr + stmt)) (ex : CodeStructureExtractor)
    : result CodeStructureExtractor :=
  match l with
  | [] => Ok ex
  | inl e :: r => visit_children r (visit_expr e ex)
  | inr x :: r => ex ← visit x ex; visit_children r ex
  end.

(** [visit_Module] *)
Definition visit_Module (node : mod_) (ex : CodeStructureExtractor)
    : result CodeStructureExtractor :=
  match node with
  | Module body =>
      let ex := on_structure (set_module_name (Some "Module")) ex in
      visit_body body ex
  end.

End visitor.

End Extractor.

(* ================================================================== *)
(** ** The graph [generate_graph_visualization] builds *)
(* ================================================================== *)

Module Graph.
Import PyExn Extractor.

(** One call on the [graphviz.Digraph] (or on a cluster subgraph of it,
    named by [cluster]): [attr(label=..., **attrs)],
    [node(name, label, **attrs)] or [edge(tail, head, label=..., **attrs)],
    in the order the program issues them. *)
Inductive dot_stmt : Type :=
| DotAttr (cluster : option string) (label : string)
    (attrs : list (string * string))
| DotNode (cluster : option string) (name label : string)
    (attrs : list (string * string))
| DotEdge (cluster : option string) (tail head label : string)
    (attrs : list (string * string)).

(** the [Digraph] under construction and the [all_nodes] set *)
Record builder : Type := mk_builder {
  dot : list dot_stmt;
  all_nodes : gset string
}.

Definition emit (c : dot_stmt) (b : builder) : builder :=
  mk_builder (dot b ++ [c]) (all_nodes b).

(** [all_nodes.add(id)] *)
Definition add (id : string) (b : builder) : builder :=
  mk_builder (dot b) ({[ id ]} ∪ all_nodes b).

(** [id in all_nodes] *)
Definition known (id : string) (b : builder) : bool :=
  bool_decide (id ∈ all_nodes b).

Definition nl : string := String (ascii_of_nat 10) "".

(** [s] is a non-empty string ([if s:]) *)
Definition truthy (s : string) : bool :=
  match s with
  | EmptyString => false
  | _ => true
  end.

Section identities.
Variable s : Structure.

Definition module_label : string := PyStr.str_of (module_name s).

(** [f"module_{structure['module_name']}"] *)
Definition module_id : string := "module_" +:+ module_label.

Definition globals_id : string := module_id +:+ "_globals".
Definition function_id (name : string) : string := module_id +:+ "." +:+ name.
Definition class_id (name : string) : string := module_id +:+ "." +:+ name.
Definition member_id (cls name : string) : string :=
  class_id cls +:+ "." +:+ name.

Definition decorated (prefix : string) (decorators : list string)
    (label : string) : string :=
  match decorators with
  | [] => label
  | _ => prefix +:+ PyStr.join ", " decorators +:+ nl +:+ label
  end.

Definition function_label (kind : string) (f : func_info) : string :=
  decorated "Decorators: " (func_decorators f)
    (kind +:+ func_name f +:+ "(" +:+ nl +:+ PyStr.join ", " (func_args f)
     +:+ ")" +:+ return_annotation f).

Definition bases_str (c : class_info) : string :=
  match bases c with
  | [] => ""
  | _ => "(" +:+ PyStr.join ", " (bases c) +:+ ")"
  end.

Definition attribute_label (a : var_info) : string :=
  "Attribute: " +:+ var_name a +:+
  match var_annotation a with
  | Some t => if truthy t then ": " +:+ t else ""
  | None => ""
  end +:+
  match var_value a with
  | Some v => " = " +:+ v
  | None => ""
  end.

(** *** Declared entities *)

Definition module_cluster : option string :=
  Some ("cluster_module_" +:+ module_label).

Definition add_module (b : builder) : builder :=
  let b := emit (DotAttr module_cluster ("Module: " +:+ module_label)
                   [("color", "blue"); ("style", "rounded,filled");
                    ("fillcolor", "#E0FFFF")]) b in
  add module_id
    (emit (DotNode module_cluster module_id ("Module: " +:+ module_label)
             [("shape", "folder"); ("style", "filled"); ("fillcolor", "#ADD8E6")])
       b).

Definition add_globals (b : builder) : builder :=
  match global_variables s with
  | [] => b
  | _ =>
      add globals_id
        (emit (DotEdge module_cluster module_id globals_id "defines" [])
           (emit (DotNode module_cluster globals_id "Global Variables"
                    [("shape", "note"); ("style", "filled");
                     ("fillcolor", "grey"); ("fontcolor", "white")])
              b))
  end.

Definition add_function (b : builder) (f : func_info) : builder :=
  let func_id := function_id (func_name f) in
  add func_id
    (emit (DotEdge module_cluster module_id func_id "contains" [])
       (emit (DotNode module_cluster func_id (function_label "Function: " f)
                [("shape", "ellipse"); ("style", "filled"); ("fillcolor", "#90EE90")])
          b)).

Definition add_attribute_node (c : class_info) (b : builder) (a : var_info)
    : builder :=
  let cluster := Some ("cluster_class_" +:+ class_name c) in
  let attr_id := member_id (class_name c) (var_name a) in
  add attr_id
    (emit (DotEdge cluster (class_id (class_name c)) attr_id "has attribute" [])
       (emit (DotNode cluster attr_id (attribute_label a)
                [("shape", "rectangle"); ("style", "filled"); ("fillcolor", "#D3D3D3")])
          b)).

Definition add_method_node (c : class_info) (b : builder) (m : func_info)
    : builder :=
  let cluster := Some ("cluster_class_" +:+ class_name c) in
  let method_id := member_id (class_name c) (func_name m) in
  add method_id
    (emit (DotEdge cluster (class_id (class_name c)) method_id "contains method" [])
       (emit (DotNode cluster method_id (function_label "Method: " m)
                [("shape", "octagon"); ("style", "filled"); ("fillcolor", "#FFB6C1")])
          b)).

Definition add_class (b : builder) (c : class_info) : builder :=
  let cluster := Some ("cluster_class_" +:+ class_name c) in
  let cid := class_id (class_name c) in
  let b := emit (DotAttr cluster
                   (decorated "Decorators: " (class_decorators c)
                      ("Class: " +:+ class_name c +:+ bases_str c))
                   [("color", "darkgreen"); ("style", "rounded,filled");
                    ("fillcolor", "#FFFACD")]) b in
  let b := emit (DotNode cluster cid
                   ("Class: " +:+ class_name c +:+ bases_str c)
                   [("shape", "component"); ("style", "filled"); ("fillcolor", "#FFD700")])
             b in
  let b := add cid b in
  let b := emit (DotEdge None module_id cid "contains" []) b in
  let b := fold_left (add_attribute_node c) (attributes c) b in
  fold_left (add_method_node c) (methods c) b.

(** everything up to and including the "Classes Subgraphs" loop *)
Definition declare (b : builder) : builder :=
  let b := add_module b in
  let b := add_globals b in
  let b := fold_left add_function (functions s) b in
  fold_left add_class (classes s) b.

(** *** Placeholders for call targets *)

Definition add_callee_placeholder (b : builder) (callee : string) : builder :=
  if known callee b then b
  else add callee
         (emit (DotNode None callee callee
                  [("shape", "box"); ("style", "dashed");
                   ("color", "gray"); ("fillcolor", "white")])
            b).

Definition add_callee_placeholders (b : builder) : builder :=
  fold_left (fun b '(_, callees) => fold_left add_callee_placeholder callees b)
    (calls s) b.

(** *** Call edges *)

(** the [if len(caller_parts) == 1: ... elif ... == 3:] chain *)
Definition caller_node_id (caller_parts : list string) : string :=
  match caller_parts with
  | [p0] =>
      if decide (Some p0 = module_name s) then module_id
      else module_id +:+ "." +:+ p0
  | [p0; p1] => module_id +:+ "." +:+ p0 +:+ "." +:+ p1
  | [p0; p1; p2] => module_id +:+ "." +:+ p0 +:+ "." +:+ p1 +:+ "." +:+ p2
  | _ => ""
  end.

(** [if caller_id not in all_nodes: ...] *)
Definition resolve_caller (caller_raw : string) (caller_id : string)
    (b : builder) : string * builder :=
  if known caller_id b then (caller_id, b)
  else if bool_decide (Some caller_raw = module_name s) && known module_id b
  then (module_id, b)
  else (caller_id,
        add caller_id
          (emit (DotNode None caller_id caller_raw
                   [("shape", "box"); ("style", "dashed");
                    ("color", "red"); ("fillcolor", "white")])
             b)).

(** [for cls in structure["classes"]: if ... in all_nodes: ...; break] *)
Fixpoint resolve_method (callee : string) (cls : list class_info)
    (b : builder) : string :=
  match cls with
  | [] => callee
  | c :: r =>
      if known (member_id (class_name c) callee) b
      then member_id (class_name c) callee
      else resolve_method callee r b
  end.

Definition resolve_callee (callee : string) (b : builder) : string :=
  if known (module_id +:+ "." +:+ callee) b
  then module_id +:+ "." +:+ callee
  else resolve_method callee (classes s) b.

Definition add_call_edge (caller_id : string) (b : builder) (callee : string)
    : builder :=
  let callee_id := resolve_callee callee b in
  if truthy caller_id && truthy callee_id
     && negb (bool_decide (caller_id = callee_id))
  then emit (DotEdge None caller_id callee_id "calls" [("color", "purple")]) b
  else b.

Definition add_calls_of (b : builder) (entry : option string * list string)
    : result builder :=
  let '(caller_raw, callees_raw) := entry in
  caller_raw ← or_raise
    (AttributeError "'NoneType' object has no attribute 'split'") caller_raw;
  let caller_parts := PyStr.split "." caller_raw in
  let caller_id := caller_node_id caller_parts in
  let '(caller_id, b) := resolve_caller caller_raw caller_id b in
  Ok (fold_left (add_call_edge caller_id) callees_raw b).

Definition add_call_edges (b : builder) : result builder :=
  foldM add_calls_of (calls s) b.

(** *** Inheritance edges *)

Definition add_base (c : class_info) (b : builder) (base : string) : builder :=
  let base_id := module_id +:+ "." +:+ base in
  let b :=
    if known base_id b then b
    else add base_id
           (emit (DotNode None base_id base
                    [("shape", "box"); ("style", "dashed");
                     ("color", "grey"); ("fillcolor", "white")])
              b) in
  emit (DotEdge None base_id (class_id (class_name c)) "inherits"
          [("style", "dashed"); ("arrowhead", "empty")])
    b.

Definition add_inheritance (b : builder) : builder :=
  fold_left (fun b c => fold_left (add_base c) (bases c) b) (classes s) b.

(** *** The whole graph *)

Definition build : result builder :=
  let b := mk_builder [] ∅ in
  let b := declare b in
  let b := add_callee_placeholders b in
  b ← add_call_edges b;
  Ok (add_inheritance b).

End identities.

(** every key of the calls mapping is a string *)
Definition str_keys (s : Structure) : Prop :=
  Forall (fun entry : option string * list string => is_Some entry.1) (calls s).

(** *** Reading a graph *)

Definition edge_label (c : dot_stmt) : option string :=
  match c with DotEdge _ _ _ l _ => Some l | _ => None end.

Definition self_loop (c : dot_stmt) : Prop :=
  match c with DotEdge _ t h _ _ => t = h | _ => False end.

(** a self-loop is an ["inherits"] edge *)
Definition loops_inherit (c : dot_stmt) : Prop :=
  self_loop c -> edge_label c = Some "inherits".

Definition loop_safe (b : builder) : Prop := Forall loops_inherit (dot b).

(** the names of the nodes a sequence of calls declares, in order *)
Definition node_names (l : list dot_stmt) : list string :=
  omap (fun c => match c with DotNode _ n _ _ => Some n | _ => None end) l.

(** the (tail, head) pairs of the edges with a given label *)
Definition edges_labelled (label : string) (l : list dot_stmt)
    : list (string * string) :=
  omap (fun c => match c with
                 | DotEdge _ t h l' _ =>
                     if decide (l' = label) then Some (t, h) else None
                 | _ => None
                 end) l.

(** *** Declarations by qualified name *)

(** What a declaration is called: the module itself, its group of global
    variables, a function or class by its name, a class attribute or
    method by the name of its class and its own. *)
Inductive qname : Type :=
| QModule
| QGlobals
| QTop (name : string)
| QMember (cls name : string).

Definition qname_id (s : Structure) (q : qname) : string :=
  match q with
  | QModule => module_id s
  | QGlobals => globals_id s
  | QTop name => class_id s name
  | QMember cls name => member_id s cls name
  end.

(** what [qname_id] puts after the id of the module *)
Definition qname_suffix (q : qname) : string :=
  match q with
  | QModule => ""
  | QGlobals => "_globals"
  | QTop name => "." +:+ name
  | QMember cls name => "." +:+ cls +:+ "." +:+ name
  end.

Definition qname_dotfree (q : qname) : bool :=
  match q with
  | QTop name => PyStr.dotfree name
  | QMember cls name => PyStr.dotfree cls && PyStr.dotfree name
  | _ => true
  end.

Definition class_qnames (c : class_info) : list qname :=
  QTop (class_name c)
    :: map (fun a => QMember (class_name c) (var_name a)) (attributes c)
    ++ map (fun m => QMember (class_name c) (func_name m)) (methods c).

(** the declarations of a structure, in the order their nodes are made *)
Definition declared_qnames (s : Structure) : list qname :=
  QModule
    :: match global_variables s with [] => [] | _ => [QGlobals] end
    ++ map (fun f => QTop (func_name f)) (functions s)
    ++ concat (map class_qnames (classes s)).

(** the node ids given to the declarations, one per declaration, in the
    same order *)
Definition declared_ids (s : Structure) : list string :=
  node_names (dot (declare s (mk_builder [] ∅))).

End Graph.

(* ================================================================== *)
(** ** The two public operations *)
(* ================================================================== *)

Module Api.
Import Ast PyExn Extractor.

(** What the program asks of its environment. Paths are strings, so
    [os.path.exists] answers with a boolean; the other operations may
    raise. *)
Record World : Type := mk_World {
  os_path_exists : string -> bool;
  read_text : string -> result string;
  ast_parse : string -> result mod_;
  ast_get_docstring : list stmt -> option string;
  os_path_splitext : string -> string * string;
  dot_render : list Graph.dot_stmt -> string -> string -> result string
}.

(** the requests made to the environment, in order *)
Inductive io_event : Type :=
| EvExists (path : string)
| EvOpenRead (path : string)
| EvParse (source : string)
| EvRender (stem : string) (format : string).

(** A computation that talks to the environment: the requests it made
    and how it ended. *)
Definition IO (A : Type) : Type := list io_event * result A.

#[export] Instance IO_ret : MRet IO := fun A a => ([], Ok a).
#[export] Instance IO_bind : MBind IO := fun A B f m =>
  match m with
  | (t, Ok a) => let '(t', r) := f a in (t ++ t', r)
  | (t, Raise e) => (t, Raise e)
  end.

(** a computation that makes no request *)
Definition lift {A} (r : result A) : IO A := ([], r).

(** [try: body / except ...] around a computation that talks to the
    environment; [handler e] is [None] when no clause matches [e] *)
Definition try_except_io {A} (body : IO A) (handler : exn -> option (IO A))
    : IO A :=
  match body with
  | (t, Ok a) => (t, Ok a)
  | (t, Raise e) =>
      match handler e with
      | Some (t', r) => (t ++ t', r)
      | None => (t, Raise e)
      end
  end.

Section world.
Variable w : World.

Definition exists_ (path : string) : IO bool :=
  ([EvExists path], Ok (os_path_exists w path)).
Definition open_read (path : string) : IO string :=
  ([EvOpenRead path], read_text w path).
Definition parse (source : string) : IO mod_ :=
  ([EvParse source], ast_parse w source).
Definition render (dot : list Graph.dot_stmt) (stem format : string)
    : IO string :=
  ([EvRender stem format], dot_render w dot stem format).

(** The second [try] block of [parse_python_file]. *)
Definition parse_and_extract (filepath source_code : string)
    : IO (option Structure * option string) :=
  try_except_io
    (tree ← parse source_code;
     let extractor := init in
     let extractor :=
       on_structure
         (set_module_name
            (Some (PyStr.replace ".py" "" (PyStr.basename filepath))))
         extractor in
     extractor ← lift (visit_Module (ast_get_docstring w) tree extractor);
     mret (Some (structure extractor), None))
    (fun e =>
       match e with
       | SyntaxError _ =>
           Some (mret (None,
                       Some ("Parsing error: File '" +:+ filepath
                             +:+ "' contains syntax error: " +:+ str e)))
       | _ =>
           Some (mret (None,
                       Some ("An unknown error occurred during parsing: "
                             +:+ str e)))
       end).

(** [parse_python_file]; the first [try] block either yields the
    source text ([inl]) or makes the function return ([inr]). *)
Definition parse_python_file (filepath : string)
    : IO (option Structure * option string) :=
  found ← exists_ filepath;
  if negb found then
    mret (None, Some ("Error: File does not exist '" +:+ filepath +:+ "'"))
  else
    r ← try_except_io
          (source_code ← open_read filepath; mret (inl source_code))
          (fun e =>
             Some (mret (inr (None,
                              Some ("Error: Could not read file '" +:+ filepath
                                    +:+ "': " +:+ str e)))));
    match r with
    | inl source_code => parse_and_extract filepath source_code
    | inr returned => mret returned
    end.

(** [generate_graph_visualization]; the graph is built outside the
    [try] block, only the render step is inside. *)
Definition generate_graph_visualization (structure : option Structure)
    (output_filepath format : string) : IO (option string * option string) :=
  match structure with
  | None => mret (None, Some "No graph can be generated.")
  | Some s =>
      b ← lift (Graph.build s);
      try_except_io
        (full_output_path ←
           render (Graph.dot b) (os_path_splitext w output_filepath).1 format;
         mret (Some full_output_path,
               Some ("Visualization graph saved to: " +:+ full_output_path)))
        (fun e =>
           match e with
           | ExecutableNotFound _ =>
               Some (mret (None,
                           Some "Error: Graphviz executable (dot) not found. Please ensure Graphviz is installed and added to your system's PATH."))
           | _ =>
               Some (mret (None, Some ("Error generating graph: " +:+ str e)))
           end)
  end.

End world.
End Api.

(* ================================================================== *)
(** ** The lexical reading of a tree *)
(* ================================================================== *)

(** What the specification says the traversal records, written without a
    mutable stack: the chain of enclosing class and function names is an
    argument handed down the tree, and the outcome is the list of things
    to record, in source order. The theorems below compare the visitor
    with this reading. *)
Module Lexical.
Import Ast PyExn Extractor.

Inductive event : Type :=
| ECall (scope : list string) (callee : string)
| EClass (name : string) (bases_ : list string) (docstring : option string)
    (decorators : list string)
| EFunction (scope : list string) (f : func_info)
| EVariable (scope : list string) (v : var_info)
| EImport (names : list string)
| EImportFrom (names : list string).

Fixpoint expr_events (scope : list string) (e : expr) : list event :=
  match e with
  | Name _ => []
  | Attribute value _ => expr_events scope value
  | Call func args_ keywords =>
      ECall scope (_get_full_name func)
        :: expr_events scope func
        ++ concat (map (expr_events scope) args_)
        ++ concat (map (expr_events scope) keywords)
  | OtherExpr children => concat (map (expr_events scope) children)
  end.

Definition exprs_events (scope : list string) (l : list expr) : list event :=
  concat (map (expr_events scope) l).

Definition opt_expr_events (scope : list string) (o : option expr) : list event :=
  match o with
  | Some e => expr_events scope e
  | None => []
  end.

Definition arg_events (scope : list string) (a : arg) : list event :=
  opt_expr_events scope (annotation a).

Definition arguments_events (scope : list string) (a : arguments) : list event :=
  concat (map (arg_events scope) (posonlyargs a))
  ++ concat (map (arg_events scope) (args a))
  ++ match vararg a with Some v => arg_events scope v | None => [] end
  ++ concat (map (arg_events scope) (kwonlyargs a))
  ++ concat (map (opt_expr_events scope) (kw_defaults a))
  ++ match kwarg a with Some v => arg_events scope v | None => [] end
  ++ exprs_events scope (defaults a).

Definition assign_events (scope : list string) (targets : list expr)
    (value : expr) : list event :=
  omap (fun target =>
          match target with
          | Name id => Some (EVariable scope (assign_record id value))
          | _ => None
          end) targets.

Definition annassign_events (scope : list string) (target ann : expr)
    (value : option expr) : list event :=
  match target with
  | Name id => [EVariable scope (annassign_record id ann value)]
  | _ => []
  end.

Section events.
Variable get_docstring : list stmt -> option string.

(** The events of a statement met under the enclosing names [scope].
    A class or function body is read under [scope ++ [name]]; nothing
    is ever taken off [scope]. *)
Fixpoint events (scope : list string) (node : stmt) {struct node} : list event :=
  let fix body_events (scope : list string) (l : list stmt) : list event :=
    match l with
    | [] => []
    | x :: r => events scope x ++ body_events scope r
    end in
  match node with
  | ClassDef name bases_ keywords body decorator_list =>
      let inner := scope ++ [name] in
      EClass name (class_bases bases_) (get_docstring body)
        (map _get_full_name decorator_list)
        :: exprs_events inner bases_
        ++ exprs_events inner keywords
        ++ body_events inner body
        ++ exprs_events inner decorator_list
  | FunctionDef name fargs body decorator_list returns =>
      let inner := scope ++ [name] in
      match function_args fargs with
      | Ok args_list =>
          EFunction scope
            (function_record (get_docstring body) name args_list
               decorator_list returns)
            :: arguments_events inner fargs
            ++ body_events inner body
            ++ exprs_events inner decorator_list
            ++ opt_expr_events inner returns
      | Raise _ => []
      end
  | Assign targets value =>
      assign_events scope targets value
      ++ exprs_events scope targets
      ++ expr_events scope value
  | AnnAssign target ann value =>
      annassign_events scope target ann value
      ++ expr_events scope target
      ++ expr_events scope ann
      ++ opt_expr_events scope value
  | Import names => [EImport names]
  | ImportFrom module names =>
      [EImportFrom (map (import_from_name module) names)]
  | If test body orelse =>
      ECall scope ("Condition: " +:+ _get_full_name test)
        :: expr_events scope test
        ++ body_events scope body
        ++ body_events scope orelse
  | For target iter body orelse =>
      ECall scope ("For Loop: " +:+ _get_full_name iter)
        :: expr_events scope target
        ++ expr_events scope iter
        ++ body_events scope body
        ++ body_events scope orelse
  | While test body orelse =>
      ECall scope ("While Loop: " +:+ _get_full_name test)
        :: expr_events scope test
        ++ body_events scope body
        ++ body_events scope orelse
  | OtherNode children =>
      (fix children_events (scope : list string) (l : list (expr + stmt))
         : list event :=
         match l with
         | [] => []
         | inl e :: r => expr_events scope e ++ children_events scope r
         | inr x :: r => events scope x ++ children_events scope r
         end) scope children
  end.

Fixpoint body_events (scope : list string) (l : list stmt) : list event :=
  match l with
  | [] => []
  | x :: r => events scope x ++ body_events scope r
  end.

Fixpoint children_events (scope : list string) (l : list (expr + stmt))
    : list event :=
  match l with
  | [] => []
  | inl e :: r => expr_events scope e ++ children_events scope r
  | inr x :: r => events scope x ++ children_events scope r
  end.
End events.

(** Recording one event in a structure. *)
Definition apply_event (s : Structure) (ev : event) : Structure :=
  match ev with
  | ECall scope callee => add_call (scope_id scope (module_name s)) callee s
  | EClass name bases_ docstring decorators =>
      register_class (new_class name bases_ docstring decorators) s
  | EFunction scope f => register_function scope f s
  | EVariable scope v => register_variable scope v s
  | EImport names => set_imports_direct (imports_direct s ++ names) s
  | EImportFrom names => set_imports_from (imports_from s ++ names) s
  end.

Definition replay (evs : list event) (s : Structure) : Structure :=
  fold_left apply_event evs s.

(** the visitor, seen as a relation between the state before and the
    state after, agrees with the lexical reading *)
Definition refines (get_docstring : list stmt -> option string)
    (node : stmt) : Prop :=
  forall s sc ex',
    visit get_docstring node (mk_extractor s sc) = Ok ex' ->
    ex' = mk_extractor (replay (events get_docstring sc node) s) sc.

(** *** Well-formed trees *)

(** What Python's parser guarantees of an [ast.arguments]: defaults belong
    to positional parameters, and [kw_defaults] has one entry per
    keyword-only parameter. *)
Definition wf_arguments (a : arguments) : Prop :=
  length (defaults a) <= length (posonlyargs a ++ args a)
  /\ length (kw_defaults a) = length (kwonlyargs a).

Fixpoint wf_stmt (node : stmt) : Prop :=
  let fix wf_body (l : list stmt) : Prop :=
    match l with
    | [] => True
    | x :: r => wf_stmt x /\ wf_body r
    end in
  match node with
  | ClassDef _ _ _ body _ => wf_body body
  | FunctionDef _ fargs body _ _ => wf_arguments fargs /\ wf_body body
  | If _ body orelse | For _ _ body orelse | While _ body orelse =>
      wf_body body /\ wf_body orelse
  | OtherNode children =>
      (fix wf_children (l : list (expr + stmt)) : Prop :=
         match l with
         | [] => True
         | inl _ :: r => wf_children r
         | inr x :: r => wf_stmt x /\ wf_children r
         end) children
  | _ => True
  end.

Fixpoint wf_body (l : list stmt) : Prop :=
  match l with
  | [] => True
  | x :: r => wf_stmt x /\ wf_body r
  end.

Fixpoint wf_children (l : list (expr + stmt)) : Prop :=
  match l with
  | [] => True
  | inl _ :: r => wf_children r
  | inr x :: r => wf_stmt x /\ wf_children r
  end.

Definition returns_ (get_docstring : list stmt -> option string)
    (node : stmt) : Prop :=
  wf_stmt node -> forall ex, exists ex', visit get_docstring node ex = Ok ex'.

(** *** Function definition sites *)

(** A function definition as the traversal meets it: the chain of names
    enclosing it, the names of the classes registered so far, and its
    record. *)
Record site : Type := mk_site {
  site_scope : list string;
  site_registered : list string;
  site_record : func_info
}.

(** the sites of a list of events, in order, [registered] being the class
    names registered before the first of them *)
Fixpoint sites (registered : list string) (evs : list event) : list site :=
  match evs with
  | [] => []
  | EClass name _ _ _ :: r => sites (registered ++ [name]) r
  | EFunction scope f :: r => mk_site scope registered f :: sites registered r
  | _ :: r => sites registered r
  end.

(** the innermost enclosing name of the site is [name], a class already
    registered *)
Definition method_site (name : string) (x : site) : bool :=
  bool_decide (top (site_scope x) = Some name)
  && bool_decide (name ∈ site_registered x).

(** the site is at module level, or its innermost enclosing name is not
    that of a class registered so far *)
Definition global_site (x : site) : bool :=
  match top (site_scope x) with
  | Some t => negb (bool_decide (t ∈ site_registered x))
  | None => true
  end.

(** the innermost enclosing name of the site is [name], whatever has
    been registered *)
Definition enclosed_by (name : string) (x : site) : bool :=
  bool_decide (top (site_scope x) = Some name).

End Lexical.

(* ================================================================== *)
(** ** Sample programs *)
(* ================================================================== *)

Module Samples.
Import Ast PyExn Extractor Api.

Definition no_docstring : list stmt -> option string := fun _ => None.

Definition plain (name : string) : arg := mk_arg name None.

Definition no_arguments : arguments := mk_arguments [] [] None [] [] None [].

Definition only_self : arguments :=
  mk_arguments [] [plain "self"] None [] [] None [].

(** [pass] *)
Definition pass : stmt := OtherNode [].

(** the parameters of [def f(a, b=x, *, c, d=y)] *)
Definition mixed_defaults : arguments :=
  mk_arguments [] [plain "a"; plain "b"] None [plain "c"; plain "d"]
    [None; Some (Name "y")] None [Name "x"].

(** the parameters of [def foo(a, b=2)] *)
Definition one_default : arguments :=
  mk_arguments [] [plain "a"; plain "b"] None [] [] None [OtherExpr []].

(** the parameters of a function whose only parameters are the
    keyword-only [c=x] and [d=y] *)
Definition keyword_only_defaults : arguments :=
  mk_arguments [] [] None [plain "c"; plain "d"]
    [Some (Name "x"); Some (Name "y")] None [].

(** [def foo(a, b=2): return bar()] *)
Definition foo_calls_bar : mod_ :=
  Module [FunctionDef "foo" one_default
            [OtherNode [inl (Call (Name "bar") [] [])]] [] None].

(** [x = 1] *)
Definition one_assignment : mod_ :=
  Module [Assign [Name "x"] (OtherExpr [])].

(** [class A(A): pass] *)
Definition self_based : mod_ :=
  Module [ClassDef "A" [Name "A"] [] [pass] []].

(** [def f(): pass], twice *)
Definition twice_f : mod_ :=
  Module [FunctionDef "f" no_arguments [pass] [] None;
          FunctionDef "f" no_arguments [pass] [] None].

(** [class A:] / [def m(self):] / [def inner():] / [def deep():] /
    [print()], each nested in the one before *)
Definition deep_call : mod_ :=
  Module
    [ClassDef "A" [] []
       [FunctionDef "m" only_self
          [FunctionDef "inner" no_arguments
             [FunctionDef "deep" no_arguments
                [OtherNode [inl (Call (Name "print") [] [])]] [] None]
             [] None]
          [] None]
       []].

(** [class A:] with the one method [def m(self): pass] *)
Definition class_with_method : stmt :=
  ClassDef "A" [] [] [FunctionDef "m" only_self [pass] [] None] [].

(** [def A():] with a nested [def inner(): pass], then [class A:] with
    [def m(self): pass], then [class A:] again with [def n(self): pass] *)
Definition shadowed_body : list stmt :=
  [FunctionDef "A" no_arguments
     [FunctionDef "inner" no_arguments [pass] [] None] [] None;
   ClassDef "A" [] [] [FunctionDef "m" only_self [pass] [] None] [];
   ClassDef "A" [] [] [FunctionDef "n" only_self [pass] [] None] []].

(** the structure the extractor builds of a module (the empty one should
    the visit raise) *)
Definition structure_of (m : mod_) : Structure :=
  match visit_Module no_docstring m init with
  | Ok ex => structure ex
  | Raise _ => structure init
  end.

(** A file system with the one file [/p/foo.py], which holds [x = 1], a
    parser that knows this text, and a renderer that always succeeds. *)
Definition foo_world : World :=
  {| os_path_exists := fun p => bool_decide (p = "/p/foo.py");
     read_text := fun p =>
       if bool_decide (p = "/p/foo.py") then Ok "x = 1"
       else Raise (OtherException "[Errno 2] No such file or directory");
     ast_parse := fun source =>
       if bool_decide (source = "x = 1") then Ok one_assignment
       else Raise (SyntaxError "invalid syntax");
     ast_get_docstring := no_docstring;
     os_path_splitext := fun p => (p, "");
     dot_render := fun _ stem format => Ok (stem +:+ "." +:+ format) |}.

End Samples.

(* ================================================================== *)
(** ** The text report *)
(* ================================================================== *)

Module Text.
Import PyExn Extractor.

(** [key in d] and [d[key]] on the calls dictionary: the set under the
    key, if the key is there *)
Fixpoint dict_get (k : option string) (d : list (option string * list string))
    : option (list string) :=
  match d with
  | [] => None
  | (k', v) :: r => if decide (k = k') then Some v else dict_get k r
  end.

(** [sorted(list(x))]: by code points, which for the strings of this
    development (bytes of UTF-8 text) is the order of [String.le] *)
Definition sorted (l : list string) : list string :=
  merge_sort String.le l.

(** [sorted(list(set(l)))] *)
Definition sorted_set (l : list string) : list string :=
  sorted (remove_dups l).

(** [s.split('.', 1)]: [inl s] for the one-element list when there is
    no dot, [inr (before, after)] for the two parts around the first
    dot *)
Fixpoint split_first_dot (s : string) : string + string * string :=
  match s with
  | EmptyString => inl ""
  | String c r =>
      if Ascii.eqb c "." then inr ("", r)
      else match split_first_dot r with
           | inl whole => inl (String c whole)
           | inr (before, after) => inr (String c before, after)
           end
  end.

(** a double quote, and three of them *)
Definition dq : string := String (ascii_of_nat 34) "".
Definition dq3 : string := dq +:+ dq +:+ dq.

(** the lines of [output] for the direct imports *)
Definition import_lines (direct : list string) : list string :=
  map (fun imp => "  - import " +:+ imp) (sorted_set direct).

(** the body of the loop over the from-imports *)
Definition from_import_line (imp_from : string) : string :=
  match split_first_dot imp_from with
  | inr (module, name) => "  - from " +:+ module +:+ " import " +:+ name
  | inl name => "  - from . import " +:+ name
  end.

Definition from_import_lines (from : list string) : list string :=
  map from_import_line (sorted_set from).

Definition imports_section (s : Structure) : list string :=
  match imports_direct s, imports_from s with
  | [], [] => []
  | _, _ =>
      (Graph.nl +:+ "--- Imports ---")
        :: import_lines (imports_direct s) ++ from_import_lines (imports_from s)
  end.

(** [f"{indent}- {name}[: annotation][ = value]"] *)
Definition variable_line (indent : string) (v : var_info) : string :=
  indent +:+ "- " +:+ var_name v +:+
  match var_annotation v with
  | Some t => if Graph.truthy t then ": " +:+ t else ""
  | None => ""
  end +:+
  match var_value v with
  | Some x => " = " +:+ x
  | None => ""
  end.

Definition globals_section (s : Structure) : list string :=
  match global_variables s with
  | [] => []
  | vars =>
      (Graph.nl +:+ "--- Global Variables ---") :: map (variable_line "  ") vars
  end.

(** [if key in structure["calls"] and structure["calls"][key]:] the
    header and one line per callee, sorted *)
Definition calls_block (header item : string) (key : option string)
    (s : Structure) : list string :=
  match dict_get key (calls s) with
  | Some (c :: cs) => header :: map (fun callee => item +:+ callee) (sorted (c :: cs))
  | _ => []
  end.

(** [f"{decorators_str}{indent}def name(args)return_annotation"] *)
Definition def_line (indent : string) (f : func_info) : string :=
  String.concat ""
    (map (fun d => indent +:+ "@" +:+ d +:+ Graph.nl) (func_decorators f))
  +:+ indent +:+ "def " +:+ func_name f +:+ "("
  +:+ PyStr.join ", " (func_args f) +:+ ")" +:+ return_annotation f.

Definition class_line (c : class_info) : string :=
  String.concat ""
    (map (fun d => "  @" +:+ d +:+ Graph.nl) (class_decorators c))
  +:+ "  class " +:+ class_name c +:+ Graph.bases_str c +:+ ":".

(** a monadic [flat_map]: the lines of a loop whose body may raise *)
Fixpoint flat_mapM {A} (f : A -> result (list string)) (l : list A)
    : result (list string) :=
  match l with
  | [] => Ok []
  | x :: r => lines ← f x; rest ← flat_mapM f r; Ok (lines ++ rest)
  end.

Section text.
(** [str.strip] and [str.splitlines], methods of Python's strings *)
Variable str_strip : string -> string.
Variable str_splitlines : string -> list string.

(** [if x['docstring']: output.append(f"{indent}Doc: ...")], where
    [docstring.strip().splitlines()[0]] raises when there is no
    line *)
Definition doc_line (indent : string) (docstring : option string)
    : result (list string) :=
  match docstring with
  | Some d =>
      if Graph.truthy d then
        first ← or_raise (IndexError "list index out of range")
                  (head (str_splitlines (str_strip d)));
        Ok [indent +:+ "Doc: " +:+ dq3 +:+ first +:+ dq3]
      else Ok []
  | None => Ok []
  end.

Definition function_lines (s : Structure) (f : func_info)
    : result (list string) :=
  doc ← doc_line "    " (func_docstring f);
  let func_id := PyStr.str_of (module_name s) +:+ "." +:+ func_name f in
  Ok (def_line "  " f :: doc
      ++ calls_block "    Calls:" "      - " (Some func_id) s).

Definition functions_section (s : Structure) : result (list string) :=
  match functions s with
  | [] => Ok []
  | funcs =>
      lines ← flat_mapM (function_lines s) funcs;
      Ok ((Graph.nl +:+ "--- Global Functions ---") :: lines)
  end.

Definition method_lines (s : Structure) (c : class_info) (m : func_info)
    : result (list string) :=
  doc ← doc_line "        " (func_docstring m);
  let method_id :=
    PyStr.str_of (module_name s) +:+ "." +:+ class_name c
    +:+ "." +:+ func_name m in
  Ok (def_line "      " m :: doc
      ++ calls_block "        Calls:" "          - " (Some method_id) s).

Definition attributes_lines (c : class_info) : list string :=
  match attributes c with
  | [] => []
  | attrs => "    --- Class Attributes ---" :: map (variable_line "    ") attrs
  end.

Definition methods_lines (s : Structure) (c : class_info)
    : result (list string) :=
  match methods c with
  | [] => Ok []
  | ms =>
      lines ← flat_mapM (method_lines s c) ms;
      Ok ("    --- Methods ---" :: lines)
  end.

Definition class_lines (s : Structure) (c : class_info)
    : result (list string) :=
  doc ← doc_line "    " (class_docstring c);
  ms ← methods_lines s c;
  Ok (class_line c :: doc ++ attributes_lines c ++ ms).

Definition classes_section (s : Structure) : result (list string) :=
  match classes s with
  | [] => Ok []
  | cs =>
      lines ← flat_mapM (class_lines s) cs;
      Ok ((Graph.nl +:+ "--- Classes ---") :: lines)
  end.

Definition module_calls_section (s : Structure) : list string :=
  calls_block (Graph.nl +:+ "--- Module-Level Calls ---") "  - "
    (module_name s) s.

(** the list [output] at the end of [format_structure_text] *)
Definition output_lines (s : Structure) : result (list string) :=
  funcs ← functions_section s;
  cls ← classes_section s;
  Ok (("--- Module: " +:+ PyStr.str_of (module_name s) +:+ " ---")
      :: imports_section s ++ globals_section s ++ funcs ++ cls
      ++ module_calls_section s).

Definition format_structure_text (structure : option Structure)
    : result string :=
  match structure with
  | None => Ok "No code structure to display."
  | Some s => lines ← output_lines s; Ok (PyStr.join Graph.nl lines)
  end.
End text.

End Text.

(* ================================================================== *)
(** ** What a tree holds, read off the lexical events *)
(* ================================================================== *)

Module Outline.
Import Ast PyExn Extractor Lexical.

(** the calls mapping as a proper dictionary of sets: every key once,
    every set non-empty and without duplicates *)
Definition dict_wf (d : list (option string * list string)) : Prop :=
  NoDup d.*1 /\ Forall (fun entry => NoDup entry.2 /\ entry.2 <> []) d.

(** [callee in calls[key]], the key being there *)
Definition recorded (key : option string) (callee : string)
    (d : list (option string * list string)) : Prop :=
  exists callees, Text.dict_get key d = Some callees /\ callee ∈ callees.

(** the simple-name assignments met outside every class and function *)
Definition module_variable_of (ev : event) : option var_info :=
  match ev with
  | EVariable [] v => Some v
  | _ => None
  end.

(** a class record as it is at registration *)
Definition class_of (ev : event) : option class_info :=
  match ev with
  | EClass name bases_ docstring decorators =>
      Some (new_class name bases_ docstring decorators)
  | _ => None
  end.

(** a class record without its methods and attributes *)
Definition header (c : class_info) : class_info :=
  new_class (class_name c) (bases c) (class_docstring c) (class_decorators c).

Definition is_function_event (ev : event) : bool :=
  match ev with
  | EFunction _ _ => true
  | _ => false
  end.

(** the parameters [visit_FunctionDef] lists, in order *)
Definition parameters (a : arguments) : list arg :=
  posonlyargs a ++ args a ++ kwonlyargs a.

Section outer.
Variable P : string -> Prop.

(** [P] holds of the name of every class and function definition of
    the tree that is not inside another class or function
    definition *)
Fixpoint outer_defs (node : stmt) : Prop :=
  let fix outer_defs_body (l : list stmt) : Prop :=
    match l with
    | [] => True
    | x :: r => outer_defs x /\ outer_defs_body r
    end in
  match node with
  | ClassDef name _ _ _ _ => P name
  | FunctionDef name _ _ _ _ => P name
  | If _ body orelse | For _ _ body orelse | While _ body orelse =>
      outer_defs_body body /\ outer_defs_body orelse
  | OtherNode children =>
      (fix outer_defs_children (l : list (expr + stmt)) : Prop :=
         match l with
         | [] => True
         | inl _ :: r => outer_defs_children r
         | inr x :: r => outer_defs x /\ outer_defs_children r
         end) children
  | _ => True
  end.

Fixpoint outer_defs_body (l : list stmt) : Prop :=
  match l with
  | [] => True
  | x :: r => outer_defs x /\ outer_defs_body r
  end.

Fixpoint outer_defs_children (l : list (expr + stmt)) : Prop :=
  match l with
  | [] => True
  | inl _ :: r => outer_defs_children r
  | inr x :: r => outer_defs x /\ outer_defs_children r
  end.
End outer.

(** the records of the simple-name targets of the [Assign] and
    [AnnAssign] statements of a tree that are in no [ClassDef] and no
    [FunctionDef] subtree, in source order *)
Fixpoint module_assignments (node : stmt) : list var_info :=
  let fix module_assignments_body (l : list stmt) : list var_info :=
    match l with
    | [] => []
    | x :: r => module_assignments x ++ module_assignments_body r
    end in
  match node with
  | Assign targets value =>
      omap (fun target =>
              match target with
              | Name id => Some (assign_record id value)
              | _ => None
              end) targets
  | AnnAssign (Name id) ann value => [annassign_record id ann value]
  | If _ body orelse | For _ _ body orelse | While _ body orelse =>
      module_assignments_body body ++ module_assignments_body orelse
  | OtherNode children =>
      (fix module_assignments_children (l : list (expr + stmt))
         : list var_info :=
         match l with
         | [] => []
         | inl _ :: r => module_assignments_children r
         | inr x :: r => module_assignments x ++ module_assignments_children r
         end) children
  | _ => []
  end.

Fixpoint module_assignments_body (l : list stmt) : list var_info :=
  match l with
  | [] => []
  | x :: r => module_assignments x ++ module_assignments_body r
  end.

Fixpoint module_assignments_children (l : list (expr + stmt))
    : list var_info :=
  match l with
  | [] => []
  | inl _ :: r => module_assignments_children r
  | inr x :: r => module_assignments x ++ module_assignments_children r
  end.

(** the number of [FunctionDef] nodes of a tree *)
Fixpoint count_defs (node : stmt) : nat :=
  let fix count_defs_body (l : list stmt) : nat :=
    match l with
    | [] => 0
    | x :: r => count_defs x + count_defs_body r
    end in
  match node with
  | ClassDef _ _ _ body _ => count_defs_body body
  | FunctionDef _ _ body _ _ => S (count_defs_body body)
  | If _ body orelse | For _ _ body orelse | While _ body orelse =>
      count_defs_body body + count_defs_body orelse
  | OtherNode children =>
      (fix count_defs_children (l : list (expr + stmt)) : nat :=
         match l with
         | [] => 0
         | inl _ :: r => count_defs_children r
         | inr x :: r => count_defs x + count_defs_children r
         end) children
  | _ => 0
  end.

Fixpoint count_defs_body (l : list stmt) : nat :=
  match l with
  | [] => 0
  | x :: r => count_defs x + count_defs_body r
  end.

Fixpoint count_defs_children (l : list (expr + stmt)) : nat :=
  match l with
  | [] => 0
  | inl _ :: r => count_defs_children r
  | inr x :: r => count_defs x + count_defs_children r
  end.

(** the chain of enclosing names an event was met under, for the events
    that keep it *)
Definition event_scope (ev : event) : option (list string) :=
  match ev with
  | ECall scope _ | EFunction scope _ | EVariable scope _ => Some scope
  | _ => None
  end.

(** the event was met under (at least) the enclosing names [scope] *)
Definition met_under (scope : list string) (ev : event) : Prop :=
  match event_scope ev with
  | Some sc => scope `prefix_of` sc
  | None => True
  end.

(** [P] holds of the outermost enclosing name of the event, if it has
    one *)
Definition outermost (P : string -> Prop) (ev : event) : Prop :=
  match event_scope ev with
  | Some (name :: _) => P name
  | _ => True
  end.

(** the docstrings the text report looks at: those of the global
    functions, of the classes and of their methods *)
Definition printed_docstrings (s : Structure) : list string :=
  omap func_docstring (functions s)
  ++ flat_map (fun c => option_list (class_docstring c)
                        ++ omap func_docstring (methods c))
       (classes s).

(** a name that is an identifier other than [Module]: it has no dot in
    it and is not the name [visit_Module] gives every module *)
Definition not_the_module (name : string) : Prop :=
  PyStr.dotfree name = true /\ name <> "Module".

End Outline.

(* ================================================================== *)
(** ** What a graph holds *)
(* ================================================================== *)

Module Drawing.
Import Extractor Graph.

(** the set [all_nodes] holds exactly the names of the nodes made so
    far *)
Definition tracked (b : builder) : Prop :=
  forall x, x ∈ all_nodes b <-> x ∈ node_names (dot b).

Definition edge_ends (c : dot_stmt) : list string :=
  match c with
  | DotEdge _ t h _ _ => [t; h]
  | _ => []
  end.

(** both ends of every edge are names of nodes *)
Definition closed (l : list dot_stmt) : Prop :=
  forall c x, c ∈ l -> x ∈ edge_ends c -> x ∈ node_names l.

(** the builder is consistent, and knows at least the ids [Q] *)
Definition sound_with (Q : string -> Prop) (b : builder) : Prop :=
  tracked b /\ closed (dot b) /\ forall x, Q x -> x ∈ all_nodes b.

(** after the nodes [base], every node is made once and under an id
    that [base] does not have *)
Definition fresh_over (base : list string) (l : list dot_stmt) : Prop :=
  exists extra,
    node_names l = base ++ extra
    /\ NoDup extra
    /\ forall x, x ∈ extra -> x ∉ base.

(** the ids a caller key can be drawn from: the id made of its parts,
    or that of the module when the key is the module's name *)
Definition caller_ids (s : Structure) (caller : string) : list string :=
  caller_node_id s (PyStr.split "." caller)
    :: (if decide (Some caller = module_name s) then [module_id s] else []).

(** the ids a callee text can be drawn to: the text itself, the id of a
    module-level definition of that name, the id of a member of that
    name of one of the classes *)
Definition callee_ids (s : Structure) (callee : string) : list string :=
  callee
    :: (module_id s +:+ "." +:+ callee)
    :: map (fun c => member_id s (class_name c) callee) (classes s).

(** the edge from [t] to [h] stands for a recorded call *)
Definition backed (s : Structure) (t h : string) : Prop :=
  t <> "" /\ h <> ""
  /\ exists caller callees callee,
       (Some caller, callees) ∈ calls s
       /\ callee ∈ callees
       /\ t ∈ caller_ids s caller
       /\ h ∈ callee_ids s callee.

(** a ["calls"] edge stands for a recorded call *)
Definition call_edge_backed (s : Structure) (c : dot_stmt) : Prop :=
  match c with
  | DotEdge _ t h l _ => l = "calls" -> backed s t h
  | _ => True
  end.

End Drawing.

(* ================================================================== *)
(** ** The window and its buttons *)
(* ================================================================== *)

(** The handlers of [CodeVisualizerApp] as functions of the state of the
    window. What the user answers in a file dialog is an argument of the
    handler; the arguments handed to the dialogs (title, directory,
    filter) are not kept. The theme (palette and stored setting) is not
    modelled: its handlers touch the status bar only. *)
Module Gui.
Import PyExn Extractor Api.

(** the two attributes of the window and the state of the widgets the
    handlers read or write *)
Record App : Type := mk_App {
  current_filepath : string;
  last_generated_graph_path : string;
  file_path_label : string;
  output_text_area : string;
  status_bar : string;
  graph_format_combo : string;
  open_graph_btn : bool
}.

(** what a handler does to the outside, in order *)
Inductive gui_event : Type :=
| Io (e : io_event)
| OpenFileName
| SaveFileName
| Warning (title text : string)
| Critical (title text : string)
| Information (title text : string)
| Started (path : string)
| Run (command : list string).

(** [self.update_status(message, color)]: the colour is not used *)
Definition update_status (message : string) (app : App) : App :=
  mk_App (current_filepath app) (last_generated_graph_path app)
    (file_path_label app) (output_text_area app) message
    (graph_format_combo app) (open_graph_btn app).

(** [self.log_output(message)] *)
Definition log_output (message : string) (app : App) : App :=
  mk_App (current_filepath app) (last_generated_graph_path app)
    (file_path_label app) message (status_bar app)
    (graph_format_combo app) (open_graph_btn app).

Definition set_open_graph_btn (enabled : bool) (app : App) : App :=
  mk_App (current_filepath app) (last_generated_graph_path app)
    (file_path_label app) (output_text_area app) (status_bar app)
    (graph_format_combo app) enabled.

Definition set_file (path label : string) (app : App) : App :=
  mk_App path (last_generated_graph_path app) label (output_text_area app)
    (status_bar app) (graph_format_combo app) (open_graph_btn app).

Definition set_last_generated_graph_path (path : string) (app : App) : App :=
  mk_App (current_filepath app) path (file_path_label app)
    (output_text_area app) (status_bar app) (graph_format_combo app)
    (open_graph_btn app).

Definition set_graph_format_combo (format : string) (app : App) : App :=
  mk_App (current_filepath app) (last_generated_graph_path app)
    (file_path_label app) (output_text_area app) (status_bar app)
    format (open_graph_btn app).

(** the window after [__init__]: [init_ui], then [load_settings] with
    the stored theme *)
Definition start (dark : bool) : App :=
  update_status (if dark then "Theme set to Dark." else "Theme set to Light.")
    (mk_App "" "" "No file selected" ""
       "Ready to visualize your Python code." "png" false).

(** a [str] argument of a Qt call: [None] is a [TypeError] *)
Definition qt_str (o : option string) : result string :=
  or_raise (OtherException "argument has unexpected type 'NoneType'") o.

Section handlers.
Variable w : World.
Variable str_strip : string -> string.
Variable str_splitlines : string -> list string.
Variable str_upper : string -> string.
Variable sys_platform : string.
Variable os_startfile : string -> result unit.
Variable subprocess_run : list string -> result unit.

(** [select_file], the dialog having answered [file_path] *)
Definition select_file (file_path : string) (app : App)
    : list gui_event * result App :=
  ([OpenFileName],
   Ok (if Graph.truthy file_path then
         let app :=
           set_file file_path
             ("File selected: " +:+ PyStr.basename file_path) app in
         let app := log_output "File selected. Click buttons to visualize." app in
         let app := update_status "File successfully selected." app in
         set_open_graph_btn false app
       else
         let app := set_file "" "No file selected" app in
         let app := log_output "No file selected." app in
         let app := update_status "File selection cancelled." app in
         set_open_graph_btn false app)).

(** [not path or not os.path.exists(path)], with the requests it
    makes *)
Definition unusable (path : string) : list gui_event * bool :=
  if Graph.truthy path
  then ([Io (EvExists path)], negb (os_path_exists w path))
  else ([], true).

Definition ios (t : list io_event) : list gui_event := map Io t.

(** [show_text_structure] *)
Definition show_text_structure (app : App) : list gui_event * result App :=
  let '(t0, bad) := unusable (current_filepath app) in
  if bad then
    (t0 ++ [Warning "Warning" "Please select a valid Python file first!"],
     Ok (update_status "Error: No file selected." app))
  else
    let app :=
      update_status
        ("Parsing '" +:+ PyStr.basename (current_filepath app) +:+ "'...") app in
    let '(t1, r) := parse_python_file w (current_filepath app) in
    match r with
    | Raise e => (t0 ++ ios t1, Raise e)
    | Ok (Some structure_data, _) =>
        match Text.format_structure_text str_strip str_splitlines
                (Some structure_data) with
        | Raise e => (t0 ++ ios t1, Raise e)
        | Ok text_output =>
            let app := log_output text_output app in
            (t0 ++ ios t1,
             Ok (update_status "Text structure displayed successfully." app))
        end
    | Ok (None, error_message) =>
        let app :=
          log_output ("Parsing failed: " +:+ PyStr.str_of error_message) app in
        match qt_str error_message with
        | Raise e => (t0 ++ ios t1, Raise e)
        | Ok text =>
            (t0 ++ ios t1 ++ [Critical "Parsing Error" text],
             Ok (update_status "Parsing failed." app))
        end
    end.

(** [generate_graph_visualization] (the method), the save dialog
    having answered [save_filepath] *)
Definition generate_graph (save_filepath : string) (app : App)
    : list gui_event * result App :=
  let '(t0, bad) := unusable (current_filepath app) in
  if bad then
    (t0 ++ [Warning "Warning" "Please select a valid Python file first!"],
     Ok (update_status "Error: No file selected." app))
  else
    let selected_format := graph_format_combo app in
    if negb (Graph.truthy save_filepath) then
      (t0 ++ [SaveFileName], Ok (update_status "Graph saving cancelled." app))
    else
      let app :=
        update_status
          ("Generating graph for '" +:+ PyStr.basename (current_filepath app)
           +:+ "' in " +:+ str_upper selected_format +:+ " format...") app in
      let '(t1, r) := parse_python_file w (current_filepath app) in
      match r with
      | Raise e => (t0 ++ SaveFileName :: ios t1, Raise e)
      | Ok (Some structure_data, _) =>
          let '(t2, r2) :=
            generate_graph_visualization w (Some structure_data)
              save_filepath selected_format in
          match r2 with
          | Raise e => (t0 ++ SaveFileName :: ios t1 ++ ios t2, Raise e)
          | Ok (full_path, graph_message) =>
              match qt_str graph_message with
              | Raise e => (t0 ++ SaveFileName :: ios t1 ++ ios t2, Raise e)
              | Ok message =>
                  match full_path with
                  | Some path =>
                      if Graph.truthy path then
                        let app := set_last_generated_graph_path path app in
                        let app := set_open_graph_btn true app in
                        let app := log_output message app in
                        (t0 ++ SaveFileName :: ios t1 ++ ios t2
                         ++ [Information "Success" message],
                         Ok (update_status
                               ("Graph generated successfully: "
                                +:+ PyStr.basename path) app))
                      else
                        let app := log_output message app in
                        let app := update_status "Graph generation failed." app in
                        (t0 ++ SaveFileName :: ios t1 ++ ios t2
                         ++ [Critical "Graph Generation Error" message],
                         Ok (set_open_graph_btn false app))
                  | None =>
                      let app := log_output message app in
                      let app := update_status "Graph generation failed." app in
                      (t0 ++ SaveFileName :: ios t1 ++ ios t2
                       ++ [Critical "Graph Generation Error" message],
                       Ok (set_open_graph_btn false app))
                  end
              end
          end
      | Ok (None, parse_error) =>
          let app :=
            log_output ("Parsing failed, cannot generate graph: "
                        +:+ PyStr.str_of parse_error) app in
          match qt_str parse_error with
          | Raise e => (t0 ++ SaveFileName :: ios t1, Raise e)
          | Ok text =>
              let app := update_status "Parsing failed." app in
              (t0 ++ SaveFileName :: ios t1 ++ [Critical "Parsing Error" text],
               Ok (set_open_graph_btn false app))
          end
      end.

(** the [try] block of [open_last_generated_graph] *)
Definition launch (path : string) : list gui_event * result unit :=
  if bool_decide (sys_platform = "win32") then
    ([Started path], os_startfile path)
  else if bool_decide (sys_platform = "darwin") then
    ([Run ["open"; path]], subprocess_run ["open"; path])
  else
    ([Run ["xdg-open"; path]], subprocess_run ["xdg-open"; path]).

(** [open_last_generated_graph] *)
Definition open_last_generated_graph (app : App)
    : list gui_event * result App :=
  let '(t0, bad) := unusable (last_generated_graph_path app) in
  if bad then
    (t0 ++ [Warning "Warning" "No graph has been generated or file not found."],
     Ok (update_status "Error: No generated graph to open." app))
  else
    let '(t1, r) := launch (last_generated_graph_path app) in
    match r with
    | Ok _ =>
        (t0 ++ t1,
         Ok (update_status
               ("Opening "
                +:+ PyStr.basename (last_generated_graph_path app) +:+ "...")
               app))
    | Raise e =>
        (t0 ++ t1 ++ [Critical "Error" ("Could not open file: " +:+ str e)],
         Ok (update_status ("Error opening graph: " +:+ str e) app))
    end.

(** *** Sessions *)

(** what the user does *)
Inductive action : Type :=
| SelectFile (file_path : string)
| ChooseFormat (format : string)
| ShowTextStructure
| GenerateGraph (save_filepath : string)
| OpenLastGeneratedGraph.

Definition handle (a : action) (app : App) : list gui_event * result App :=
  match a with
  | SelectFile file_path => select_file file_path app
  | ChooseFormat format => ([], Ok (set_graph_format_combo format app))
  | ShowTextStructure => show_text_structure app
  | GenerateGraph save_filepath => generate_graph save_filepath app
  | OpenLastGeneratedGraph => open_last_generated_graph app
  end.

(** a session: the actions in turn, until one raises *)
Fixpoint session (actions : list action) (app : App)
    : list gui_event * result App :=
  match actions with
  | [] => ([], Ok app)
  | a :: rest =>
      match handle a app with
      | (t, Ok app) => let '(t', r) := session rest app in (t ++ t', r)
      | (t, Raise e) => (t, Raise e)
      end
  end.
End handlers.

End Gui.

(* ================================================================== *)
(** ** The console dialogue of [a2.py] *)
(* ================================================================== *)

(** The two input loops at the start of [main] in [a2.py]. The rest of
    [main] runs on [space_map] and [ship], modules that are not part of
    the sources, and is not modelled. *)
Module Game.

(** what the program writes: the prompt of an [input] call, or a
    printed line *)
Inductive console_event : Type :=
| Prompt (text : string)
| Print (line : string).

Definition size_prompt : string := "Enter size of map (n >= 2): ".
Definition fuel_prompt : string := "Enter fuel (1-99): ".
Definition not_an_integer : string :=
  "Error: Invalid input. Please enter an integer.".

Section console.
(** [int(text)]: the integer the text denotes, [None] when [int]
    raises [ValueError] *)
Variable py_int : string -> option Z.

(** what the loop prints for a line that does not end it *)
Definition size_complaint (line : string) : string :=
  match py_int line with
  | Some _ => "Error: n too low"
  | None => not_an_integer
  end.

Definition fuel_complaint (line : string) : string :=
  match py_int line with
  | Some fuel =>
      if (fuel <? 1)%Z then "Error: fuel too low" else "Error: fuel too high"
  | None => not_an_integer
  end.

(** [while True: try: size = int(input(...)) ...] on the lines still
    to come from standard input. The loop ends with [size] and the
    lines left, or, when [input] finds no line, with the [EOFError]
    that [except ValueError] does not catch ([None]). *)
Fixpoint ask_size (stdin : list string)
    : list console_event * option (Z * list string) :=
  match stdin with
  | [] => ([Prompt size_prompt], None)
  | line :: rest =>
      match py_int line with
      | Some size =>
          if (2 <=? size)%Z then ([Prompt size_prompt], Some (size, rest))
          else
            let '(out, r) := ask_size rest in
            (Prompt size_prompt :: Print "Error: n too low" :: out, r)
      | None =>
          let '(out, r) := ask_size rest in
          (Prompt size_prompt :: Print not_an_integer :: out, r)
      end
  end.

(** [while True: try: fuel = int(input(...)) ...] *)
Fixpoint ask_fuel (stdin : list string)
    : list console_event * option (Z * list string) :=
  match stdin with
  | [] => ([Prompt fuel_prompt], None)
  | line :: rest =>
      match py_int line with
      | Some fuel =>
          if (1 <=? fuel)%Z && (fuel <=? 99)%Z
          then ([Prompt fuel_prompt], Some (fuel, rest))
          else if (fuel <? 1)%Z then
            let '(out, r) := ask_fuel rest in
            (Prompt fuel_prompt :: Print "Error: fuel too low" :: out, r)
          else
            let '(out, r) := ask_fuel rest in
            (Prompt fuel_prompt :: Print "Error: fuel too high" :: out, r)
      | None =>
          let '(out, r) := ask_fuel rest in
          (Prompt fuel_prompt :: Print not_an_integer :: out, r)
      end
  end.

(** a line the size loop does not accept *)
Definition bad_size (line : string) : Prop :=
  match py_int line with
  | Some size => (size < 2)%Z
  | None => True
  end.

(** a line the fuel loop does not accept *)
Definition bad_fuel (line : string) : Prop :=
  match py_int line with
  | Some fuel => (fuel < 1 \/ 99 < fuel)%Z
  | None => True
  end.

(** the prompt and the complaint for each line in turn, and the
    prompt that is answered last *)
Definition transcript (prompt : string) (complaint : string -> string)
    (rejected : list string) : list console_event :=
  flat_map (fun line => [Prompt prompt; Print (complaint line)]) rejected
  ++ [Prompt prompt].
End console.

End Game.

(* ================================================================== *)
(** ** More sample programs *)
(* ================================================================== *)

Module MoreSamples.
Import Ast PyExn Extractor Api Samples.

(** [from os.path import join] / [import sys, os] / [import os] /
    [from . import x] / [G = f()] / [@deco def foo(a, b=2) -> int:
    bar()] / [class Shape(B):] with [y: int] and [def area(self):
    zed(); abc()] *)
Definition demo_body : list stmt :=
  [ImportFrom (Some "os.path") ["join"];
   Import ["sys"; "os"];
   Import ["os"];
   ImportFrom None ["x"];
   Assign [Name "G"] (Call (Name "f") [] []);
   FunctionDef "foo" one_default
     [OtherNode [inl (Call (Name "bar") [] [])]] [Name "deco"] (Some (Name "int"));
   ClassDef "Shape" [Name "B"] []
     [AnnAssign (Name "y") (Name "int") None;
      FunctionDef "area" only_self
        [OtherNode [inl (Call (Name "zed") [] []);
                    inl (Call (Name "abc") [] [])]] [] None]
     []].

Definition demo : mod_ := Module demo_body.

(** [async def f(): x = 1; print()] / [@deco() def g(): y = 1]: the
    visitor has no method for [AsyncFunctionDef], which is a generic
    node here *)
Definition async_body : list stmt :=
  [OtherNode [inr (Assign [Name "x"] (OtherExpr []));
              inr (OtherNode [inl (Call (Name "print") [] [])])];
   FunctionDef "g" no_arguments [Assign [Name "y"] (OtherExpr [])]
     [Call (Name "deco") [] []] None].

(** a structure as an extractor leaves it that visited the statement
    [print()] without [visit_Module]: the call is filed under [None] *)
Definition stray_call : Structure :=
  structure (visit_expr (Call (Name "print") [] []) init).

(** a file system whose one file [/p/locked.py] exists but cannot be
    read, and whose [/p/bad.py] holds text that does not parse; no
    Graphviz executable *)
Definition harsh_world : World :=
  {| os_path_exists := fun p =>
       bool_decide (p = "/p/locked.py") || bool_decide (p = "/p/bad.py");
     read_text := fun p =>
       if bool_decide (p = "/p/bad.py") then Ok "def"
       else Raise (OtherException "[Errno 13] Permission denied");
     ast_parse := fun _ => Raise (SyntaxError "invalid syntax");
     ast_get_docstring := no_docstring;
     os_path_splitext := fun p => (p, "");
     dot_render := fun _ _ _ =>
       Raise (ExecutableNotFound "failed to execute 'dot'") |}.

(** [str.upper] on the names of the formats *)
Definition upper_format (text : string) : string :=
  if bool_decide (text = "png") then "PNG"
  else if bool_decide (text = "svg") then "SVG"
  else if bool_decide (text = "pdf") then "PDF"
  else if bool_decide (text = "dot") then "DOT"
  else text.

(** a Linux desktop: no [os.startfile], and [xdg-open] starts *)
Definition no_startfile : string -> result unit :=
  fun _ => Raise (AttributeError "module 'os' has no attribute 'startfile'").
Definition it_starts : list string -> result unit := fun _ => Ok tt.

(** select [/p/foo.py], then generate its graph as [/p/foo_structure.png] *)
Definition select_and_generate : list Gui.action :=
  [Gui.SelectFile "/p/foo.py"; Gui.GenerateGraph "/p/foo_structure.png"].

(** [str.strip] and [str.splitlines] on texts of one line without
    surrounding blanks *)
Definition strip_nothing : string -> string := fun s => s.
Definition one_line : string -> list string := fun s => [s].

End MoreSamples.

(* ================================================================== *)
(** ** Facts about strings *)
(* ================================================================== *)

Module PyStrFacts.
Import PyStr.

Lemma append_cons (x : ascii) (a b : string) :
  String x a +:+ b = String x (a +:+ b).
Proof. reflexivity. Qed.

Lemma append_nil_l (a : string) : "" +:+ a = a.
Proof. reflexivity. Qed.

Lemma append_assoc (a b c : string) : (a +:+ b) +:+ c = a +:+ (b +:+ c).
Proof.
  induction a as [|x a IH]; [done|]. rewrite !append_cons. by f_equal.
Qed.

Lemma append_nil_r (a : string) : a +:+ "" = a.
Proof.
  induction a as [|x a IH]; [done|]. rewrite append_cons. by f_equal.
Qed.

Lemma length_append (a b : string) :
  String.length (a +:+ b) = String.length a + String.length b.
Proof.
  induction a as [|x a IH]; [done|]. rewrite append_cons. simpl. by f_equal.
Qed.

(** appending something non-empty gives another string *)
Lemma append_neq (a b : string) : b <> "" -> a <> a +:+ b.
Proof.
  intros Hb Heq. apply (f_equal String.length) in Heq.
  rewrite length_append in Heq. destruct b; [done|simpl in Heq; lia].
Qed.

Lemma append_inj_l (a b c : string) : a +:+ b = a +:+ c -> b = c.
Proof. apply String.app_inj. Qed.

(** a dot-free string is the part before the first dot *)
Lemma dotfree_split (a b c d : string) :
  dotfree a = true -> dotfree c = true ->
  a +:+ "." +:+ b = c +:+ "." +:+ d -> a = c /\ b = d.
Proof.
  revert c. induction a as [|x a IH]; intros [|y c] Ha Hc Heq;
    rewrite ?append_cons, ?append_nil_l in Heq; simpl in Ha, Hc.
  - by inversion Heq.
  - inversion Heq; subst. by rewrite Ascii.eqb_refl in Hc.
  - inversion Heq; subst. by rewrite Ascii.eqb_refl in Ha.
  - inversion Heq; subst.
    apply andb_prop in Ha as [_ Ha]. apply andb_prop in Hc as [_ Hc].
    destruct (IH c Ha Hc) as [-> ->]; done.
Qed.

Lemma dotfree_no_dot (a b c : string) : dotfree a = true -> a <> b +:+ "." +:+ c.
Proof.
  revert a. induction b as [|y b IH]; intros [|x a] Ha Heq;
    rewrite ?append_cons, ?append_nil_l in Heq; simpl in Ha;
    try discriminate.
  - inversion Heq; subst. by rewrite Ascii.eqb_refl in Ha.
  - inversion Heq; subst. apply andb_prop in Ha as [_ Ha]. by eapply IH.
Qed.

End PyStrFacts.

(* ================================================================== *)
(** ** Facts about the graph builder *)
(* ================================================================== *)

Module GraphFacts.
Import PyExn Extractor Graph PyStrFacts.

(** *** Loops that keep a property of the builder *)

Lemma fold_left_preserves {A B} (P : A -> Prop) (f : A -> B -> A) (l : list B) :
  (forall a x, P a -> P (f a x)) -> forall a, P a -> P (fold_left f l a).
Proof.
  intros Hf. induction l as [|x l IH]; intros a Ha; simpl; [done|].
  apply IH. by apply Hf.
Qed.

Lemma fold_left_establishes {A B} (Q : A -> Prop) (f : A -> B -> A)
    (l : list B) (x : B) :
  x ∈ l -> (forall a, Q (f a x)) -> (forall a y, Q a -> Q (f a y)) ->
  forall a, Q (fold_left f l a).
Proof.
  intros Hx Hq Hf. induction l as [|y l IH]; intros a; simpl.
  - by apply elem_of_nil in Hx.
  - apply elem_of_cons in Hx as [<-|Hx].
    + apply fold_left_preserves; [done|apply Hq].
    + by apply IH.
Qed.

Lemma foldM_preserves {A B} (P : A -> Prop) (f : A -> B -> result A)
    (l : list B) :
  (forall a x a', P a -> f a x = Ok a' -> P a') ->
  forall a a', P a -> foldM f l a = Ok a' -> P a'.
Proof.
  intros Hf. induction l as [|x l IH]; intros a a' Ha Hfold; simpl in Hfold.
  - by inversion Hfold; subst.
  - destruct (f a x) as [a1|] eqn:E; [|discriminate].
    simpl in Hfold. eapply IH; [|done]. by eapply Hf.
Qed.

(** *** Self-loops *)

Section loops.
Variable s : Structure.

Lemma emit_safe c b : loops_inherit c -> loop_safe b -> loop_safe (emit c b).
Proof.
  intros Hc Hb. unfold loop_safe, emit; simpl. apply Forall_app. split; [done|].
  by apply Forall_singleton.
Qed.

Lemma node_safe cl n l a : loops_inherit (DotNode cl n l a).
Proof. by intros []. Qed.

Lemma attr_safe cl l a : loops_inherit (DotAttr cl l a).
Proof. by intros []. Qed.

Lemma edge_safe cl t h l a : t <> h -> loops_inherit (DotEdge cl t h l a).
Proof. intros Hne Heq. by destruct Hne. Qed.

Lemma inherits_safe cl t h a : loops_inherit (DotEdge cl t h "inherits" a).
Proof. by intros _. Qed.

Lemma add_module_safe b : loop_safe b -> loop_safe (add_module s b).
Proof.
  intros Hb. unfold loop_safe, add_module, add; simpl.
  apply Forall_app. split; [|apply Forall_singleton, node_safe].
  apply Forall_app. split; [done|apply Forall_singleton, attr_safe].
Qed.

Lemma add_globals_safe b : loop_safe b -> loop_safe (add_globals s b).
Proof.
  intros Hb. unfold add_globals. destruct (global_variables s); [done|].
  unfold loop_safe, add; simpl.
  apply Forall_app. split.
  - apply Forall_app. split; [done|apply Forall_singleton, node_safe].
  - apply Forall_singleton, edge_safe, append_neq. done.
Qed.

Lemma add_function_safe b f : loop_safe b -> loop_safe (add_function s b f).
Proof.
  intros Hb. unfold loop_safe, add_function, add; simpl.
  apply Forall_app. split.
  - apply Forall_app. split; [done|apply Forall_singleton, node_safe].
  - apply Forall_singleton, edge_safe, append_neq. done.
Qed.

Lemma add_attribute_node_safe c b a :
  loop_safe b -> loop_safe (add_attribute_node s c b a).
Proof.
  intros Hb. unfold loop_safe, add_attribute_node, add; simpl.
  apply Forall_app. split.
  - apply Forall_app. split; [done|apply Forall_singleton, node_safe].
  - apply Forall_singleton, edge_safe, append_neq. done.
Qed.

Lemma add_method_node_safe c b m :
  loop_safe b -> loop_safe (add_method_node s c b m).
Proof.
  intros Hb. unfold loop_safe, add_method_node, add; simpl.
  apply Forall_app. split.
  - apply Forall_app. split; [done|apply Forall_singleton, node_safe].
  - apply Forall_singleton, edge_safe, append_neq. done.
Qed.

Lemma add_class_safe b c : loop_safe b -> loop_safe (add_class s b c).
Proof.
  intros Hb. unfold add_class.
  apply fold_left_preserves; [intros; by apply add_method_node_safe|].
  apply fold_left_preserves; [intros; by apply add_attribute_node_safe|].
  apply emit_safe; [apply edge_safe, append_neq; done|].
  unfold loop_safe, add; simpl.
  apply Forall_app. split; [|apply Forall_singleton, node_safe].
  apply Forall_app. split; [done|apply Forall_singleton, attr_safe].
Qed.

Lemma declare_safe b : loop_safe b -> loop_safe (declare s b).
Proof.
  intros Hb. unfold declare.
  apply fold_left_preserves; [intros; by apply add_class_safe|].
  apply fold_left_preserves; [intros; by apply add_function_safe|].
  by apply add_globals_safe, add_module_safe.
Qed.

Lemma add_callee_placeholder_safe b callee :
  loop_safe b -> loop_safe (add_callee_placeholder b callee).
Proof.
  intros Hb. unfold add_callee_placeholder. destruct (known _ _); [done|].
  unfold loop_safe, add; simpl.
  apply Forall_app. split; [done|apply Forall_singleton, node_safe].
Qed.

Lemma add_callee_placeholders_safe b :
  loop_safe b -> loop_safe (add_callee_placeholders s b).
Proof.
  intros Hb. unfold add_callee_placeholders.
  apply fold_left_preserves; [|done]. intros b1 [caller callees] Hb1.
  apply fold_left_preserves; [|done].
  intros; by apply add_callee_placeholder_safe.
Qed.

Lemma resolve_caller_safe caller_raw caller_id b :
  loop_safe b -> loop_safe (resolve_caller s caller_raw caller_id b).2.
Proof.
  intros Hb. unfold resolve_caller.
  destruct (known caller_id b); [done|].
  destruct (_ && _); [done|]. unfold loop_safe, add; simpl.
  apply Forall_app. split; [done|apply Forall_singleton, node_safe].
Qed.

(** the guard of the call edges: no edge when both ends resolve to the
    same id *)
Lemma add_call_edge_safe caller_id b callee :
  loop_safe b -> loop_safe (add_call_edge s caller_id b callee).
Proof.
  intros Hb. unfold add_call_edge.
  destruct (_ && _) eqn:Hguard; [|done].
  apply emit_safe; [|done]. apply edge_safe.
  apply andb_prop in Hguard as [_ Hne].
  apply negb_true_iff, bool_decide_eq_false_1 in Hne. done.
Qed.

Lemma add_calls_of_safe b entry b' :
  loop_safe b -> add_calls_of s b entry = Ok b' -> loop_safe b'.
Proof.
  intros Hb. unfold add_calls_of. destruct entry as [[caller_raw|] callees_raw];
    simpl; [|discriminate].
  pose proof (resolve_caller_safe caller_raw
                (caller_node_id s (PyStr.split "." caller_raw)) b Hb) as Hr.
  destruct (resolve_caller _ _ _ _) as [caller_id b1]. simpl in Hr.
  intros [= <-].
  apply fold_left_preserves; [|done]. intros; by apply add_call_edge_safe.
Qed.

Lemma add_call_edges_safe b b' :
  loop_safe b -> add_call_edges s b = Ok b' -> loop_safe b'.
Proof.
  unfold add_call_edges. apply (foldM_preserves loop_safe).
  intros b1 entry b2. apply add_calls_of_safe.
Qed.

Lemma add_base_safe c b base : loop_safe b -> loop_safe (add_base s c b base).
Proof.
  intros Hb. unfold add_base.
  apply emit_safe; [apply inherits_safe|].
  destruct (known _ _); [done|]. unfold loop_safe, add; simpl.
  apply Forall_app. split; [done|apply Forall_singleton, node_safe].
Qed.

Lemma add_inheritance_safe b : loop_safe b -> loop_safe (add_inheritance s b).
Proof.
  intros Hb. unfold add_inheritance.
  apply fold_left_preserves; [|done]. intros b1 c Hb1.
  apply fold_left_preserves; [|done]. intros; by apply add_base_safe.
Qed.

Lemma build_safe b : build s = Ok b -> loop_safe b.
Proof.
  unfold build. intros Hb.
  destruct (add_call_edges s _) as [b1|] eqn:E; [|discriminate].
  simpl in Hb. inversion Hb; subst.
  apply add_inheritance_safe.
  eapply add_call_edges_safe; [|done].
  apply add_callee_placeholders_safe, declare_safe. constructor.
Qed.

(** *** The graph is built whenever the callers are strings *)

Lemma add_call_edges_total l : forall b,
  Forall (fun entry : option string * list string => is_Some entry.1) l ->
  exists b', foldM (add_calls_of s) l b = Ok b'.
Proof.
  induction l as [|[caller callees] l IH]; intros b Hl; simpl; [eauto|].
  apply Forall_cons in Hl as [[caller_raw Hc] Hl]. simpl in Hc. subst caller.
  simpl. destruct (resolve_caller _ _ _ _) as [caller_id b1]. simpl.
  by apply IH.
Qed.

Lemma build_total : str_keys s -> exists b, build s = Ok b.
Proof.
  intros Hk. unfold build.
  destruct (add_call_edges_total (calls s)
              (add_callee_placeholders s (declare s (mk_builder [] ∅))) Hk)
    as [b1 E].
  unfold add_call_edges. rewrite E. simpl. eauto.
Qed.

(** *** Inheritance edges are always drawn *)

Lemma elem_of_emit c b : c ∈ dot (emit c b).
Proof. unfold emit; simpl. apply elem_of_app. right. by apply list_elem_of_singleton. Qed.

Lemma add_base_keeps c b base x : x ∈ dot b -> x ∈ dot (add_base s c b base).
Proof.
  intros Hx. unfold add_base, emit; simpl. apply elem_of_app. left.
  destruct (known _ _); [done|]. unfold add; simpl.
  apply elem_of_app. by left.
Qed.

Lemma add_inheritance_draws b c base :
  c ∈ classes s -> base ∈ bases c ->
  DotEdge None (module_id s +:+ "." +:+ base) (class_id s (class_name c))
    "inherits" [("style", "dashed"); ("arrowhead", "empty")]
  ∈ dot (add_inheritance s b).
Proof.
  intros Hc Hbase. unfold add_inheritance.
  apply (fold_left_establishes
           (fun b => _ ∈ dot b)
           (fun b c => fold_left (add_base s c) (bases c) b) _ c Hc).
  - intros b1.
    apply (fold_left_establishes (fun b => _ ∈ dot b) (add_base s c) _ base Hbase).
    + intros b2. apply elem_of_emit.
    + intros b2 y. apply add_base_keeps.
  - intros b1 c1 Hb1.
    apply fold_left_preserves; [|done]. intros b2 y. apply add_base_keeps.
Qed.

Lemma elem_of_edges_labelled label l t h :
  (t, h) ∈ edges_labelled label l <->
  exists cl a, DotEdge cl t h label a ∈ l.
Proof.
  unfold edges_labelled. rewrite list_elem_of_omap. split.
  - intros (c & Hc & Hm). destruct c as [| |cl t' h' l' a]; try discriminate.
    destruct (decide (l' = label)); [|discriminate].
    inversion Hm; subst. eauto.
  - intros (cl & a & Hc). eexists. split; [done|]. simpl.
    by rewrite decide_True.
Qed.
End loops.

(** *** Node ids of the declarations *)

Section ids.
Variable s : Structure.

Lemma node_names_app l1 l2 :
  node_names (l1 ++ l2) = node_names l1 ++ node_names l2.
Proof. apply omap_app. Qed.

Lemma fold_left_node_names {B} (f : builder -> B -> builder)
    (g : B -> list string) (l : list B) :
  (forall b x, node_names (dot (f b x)) = node_names (dot b) ++ g x) ->
  forall b, node_names (dot (fold_left f l b))
            = node_names (dot b) ++ concat (map g l).
Proof.
  intros Hf. induction l as [|x l IH]; intros b; simpl.
  - by rewrite app_nil_r.
  - by rewrite IH, Hf, <- app_assoc.
Qed.

Lemma concat_map_singleton {A B} (g : A -> B) (l : list A) :
  concat (map (fun x => [g x]) l) = map g l.
Proof. induction l as [|x l IH]; simpl; [done|by rewrite IH]. Qed.

Lemma concat_map_map {A B C} (f : B -> C) (g : A -> list B) (l : list A) :
  concat (map (fun x => map f (g x)) l) = map f (concat (map g l)).
Proof. induction l as [|x l IH]; simpl; [done|by rewrite map_app, IH]. Qed.

Lemma add_class_node_names b c :
  node_names (dot (add_class s b c))
  = node_names (dot b) ++ map (qname_id s) (class_qnames c).
Proof.
  unfold add_class.
  rewrite (fold_left_node_names (add_method_node s c)
             (fun m => [member_id s (class_name c) (func_name m)]))
    by (intros; unfold add_method_node, add, emit; simpl;
        by rewrite !node_names_app, app_nil_r).
  rewrite (fold_left_node_names (add_attribute_node s c)
             (fun a => [member_id s (class_name c) (var_name a)]))
    by (intros; unfold add_attribute_node, add, emit; simpl;
        by rewrite !node_names_app, app_nil_r).
  unfold add, emit; simpl. rewrite !node_names_app, !concat_map_singleton.
  simpl. rewrite !app_nil_r, <- !app_assoc. simpl.
  unfold class_qnames. simpl. rewrite map_app, !map_map. done.
Qed.

Lemma declare_node_names b :
  node_names (dot (declare s b))
  = node_names (dot b) ++ map (qname_id s) (declared_qnames s).
Proof.
  unfold declare.
  rewrite (fold_left_node_names (add_class s)
             (fun c => map (qname_id s) (class_qnames c)))
    by apply add_class_node_names.
  rewrite (fold_left_node_names (add_function s)
             (fun f => [function_id s (func_name f)]))
    by (intros; unfold add_function, add, emit; simpl;
        by rewrite !node_names_app, app_nil_r).
  rewrite concat_map_singleton.
  assert (node_names (dot (add_globals s (add_module s b)))
          = node_names (dot b) ++ [module_id s]
            ++ map (qname_id s)
                 match global_variables s with [] => [] | _ => [QGlobals] end)
    as ->.
  { unfold add_globals, add_module, add, emit.
    destruct (global_variables s); simpl;
      rewrite !node_names_app; simpl; rewrite ?app_nil_r, <- ?app_assoc; done. }
  unfold declared_qnames.
  rewrite (concat_map_map (qname_id s) class_qnames).
  change (map (qname_id s) (QModule :: ?l)) with (module_id s :: map (qname_id s) l).
  rewrite !map_app, map_map, <- !app_assoc. done.
Qed.

Lemma qname_id_suffix q : qname_id s q = module_id s +:+ qname_suffix q.
Proof.
  destruct q as [| |name|cls name]; simpl.
  - by rewrite append_nil_r.
  - done.
  - done.
  - unfold member_id, class_id. by rewrite !append_assoc.
Qed.

Lemma qname_suffix_inj q1 q2 :
  qname_dotfree q1 = true -> qname_dotfree q2 = true ->
  qname_suffix q1 = qname_suffix q2 -> q1 = q2.
Proof.
  destruct q1 as [| |n1|c1 n1], q2 as [| |n2|c2 n2]; simpl;
    intros H1 H2 Heq; try done; try discriminate.
  - apply append_inj_l in Heq. by subst.
  - apply append_inj_l in Heq. by apply dotfree_no_dot in Heq.
  - apply append_inj_l in Heq. symmetry in Heq. by apply dotfree_no_dot in Heq.
  - apply append_inj_l in Heq.
    apply andb_prop in H1 as [H1 _]. apply andb_prop in H2 as [H2 _].
    apply dotfree_split in Heq as [-> ->]; done.
Qed.

Lemma qname_id_inj q1 q2 :
  qname_dotfree q1 = true -> qname_dotfree q2 = true ->
  qname_id s q1 = qname_id s q2 -> q1 = q2.
Proof.
  intros H1 H2. rewrite !qname_id_suffix. intros Heq.
  apply append_inj_l in Heq. by apply qname_suffix_inj.
Qed.
End ids.
End GraphFacts.

(* ================================================================== *)
(** ** Facts about the extractor *)
(* ================================================================== *)

Module ExtractorFacts.
Import Ast PyExn Extractor Lexical.

Lemma replay_app evs1 evs2 s :
  replay (evs1 ++ evs2) s = replay evs2 (replay evs1 s).
Proof. apply fold_left_app. Qed.

Lemma replay_cons ev evs s : replay (ev :: evs) s = replay evs (apply_event s ev).
Proof. reflexivity. Qed.

Lemma replay_nil s : replay [] s = s.
Proof. reflexivity. Qed.

(** A fold of pure visits over a list replays the concatenated events. *)
Lemma fold_visit_refines {A} (f : A -> CodeStructureExtractor -> CodeStructureExtractor)
    (evf : list string -> A -> list event) (l : list A) :
  Forall (fun a => forall s sc,
            f a (mk_extractor s sc) = mk_extractor (replay (evf sc a) s) sc) l ->
  forall s sc,
    fold_left (fun ex a => f a ex) l (mk_extractor s sc)
    = mk_extractor (replay (concat (map (evf sc) l)) s) sc.
Proof.
  induction 1 as [|a l Ha _ IH]; intros s sc; simpl; [done|].
  rewrite Ha, IH, replay_app. done.
Qed.

Lemma visit_expr_refines e : forall s sc,
  visit_expr e (mk_extractor s sc) = mk_extractor (replay (expr_events sc e) s) sc.
Proof.
  induction e as [id|value attr IH|func args_ keywords IHf IHa IHk|children IH]
    using expr_ind'; intros s sc; simpl.
  - done.
  - apply IH.
  - unfold _add_call, on_structure, _get_current_scope_id; simpl.
    rewrite IHf.
    rewrite (fold_visit_refines visit_expr expr_events args_ IHa).
    rewrite (fold_visit_refines visit_expr expr_events keywords IHk).
    rewrite !replay_app. done.
  - apply (fold_visit_refines visit_expr expr_events children IH).
Qed.

Lemma visit_exprs_refines l s sc :
  visit_exprs l (mk_extractor s sc) = mk_extractor (replay (exprs_events sc l) s) sc.
Proof.
  apply (fold_visit_refines visit_expr expr_events).
  apply Forall_forall. intros e _. apply visit_expr_refines.
Qed.

Lemma visit_opt_expr_refines o s sc :
  visit_opt_expr o (mk_extractor s sc)
  = mk_extractor (replay (opt_expr_events sc o) s) sc.
Proof. destruct o; simpl; [apply visit_expr_refines|done]. Qed.

Lemma visit_arg_refines a s sc :
  visit_arg a (mk_extractor s sc) = mk_extractor (replay (arg_events sc a) s) sc.
Proof. apply visit_opt_expr_refines. Qed.

Lemma visit_args_refines l s sc :
  visit_args l (mk_extractor s sc)
  = mk_extractor (replay (concat (map (arg_events sc) l)) s) sc.
Proof.
  apply (fold_visit_refines visit_arg arg_events).
  apply Forall_forall. intros e _. apply visit_arg_refines.
Qed.

Lemma visit_arguments_refines a s sc :
  visit_arguments a (mk_extractor s sc)
  = mk_extractor (replay (arguments_events sc a) s) sc.
Proof.
  unfold visit_arguments, arguments_events.
  rewrite !visit_args_refines.
  destruct (vararg a) as [v|]; [rewrite visit_arg_refines|];
    rewrite visit_args_refines;
    rewrite (fold_visit_refines visit_opt_expr opt_expr_events)
      by (apply Forall_forall; intros e _; apply visit_opt_expr_refines);
    (destruct (kwarg a) as [k|]; [rewrite visit_arg_refines|]);
    rewrite visit_exprs_refines, !replay_app; simpl; done.
Qed.

Lemma record_assign_refines targets value s sc :
  record_assign targets value (mk_extractor s sc)
  = mk_extractor (replay (assign_events sc targets value) s) sc.
Proof.
  unfold record_assign, assign_events.
  revert s. induction targets as [|t ts IH]; intros s; simpl; [done|].
  destruct t; simpl; unfold on_structure; simpl; rewrite ?IH; done.
Qed.

Lemma record_annassign_refines target ann value s sc :
  record_annassign target ann value (mk_extractor s sc)
  = mk_extractor (replay (annassign_events sc target ann value) s) sc.
Proof. destruct target; done. Qed.


(** *** The equations of the statement visitor *)

Section equations.
Variable gd : list stmt -> option string.

Lemma visit_ClassDef name bases_ keywords body decorator_list ex :
  visit gd (ClassDef name bases_ keywords body decorator_list) ex
  = (ex ← visit_body gd body
             (visit_exprs keywords
                (visit_exprs bases_
                   (push name
                      (on_structure
                         (register_class
                            (class_record (gd body) name bases_ decorator_list))
                         ex))));
     pop (visit_exprs decorator_list ex)).
Proof. reflexivity. Qed.

Lemma visit_FunctionDef name fargs body decorator_list returns ex :
  visit gd (FunctionDef name fargs body decorator_list returns) ex
  = (args_list ← function_args fargs;
     ex ← visit_body gd body
            (visit_arguments fargs
               (push name
                  (on_structure
                     (register_function (current_scope ex)
                        (function_record (gd body) name args_list
                           decorator_list returns))
                     ex)));
     pop (visit_opt_expr returns (visit_exprs decorator_list ex))).
Proof. reflexivity. Qed.

Lemma visit_If test body orelse ex :
  visit gd (If test body orelse) ex
  = (ex ← visit_body gd body
             (visit_expr test
                (_add_call (_get_current_scope_id ex)
                   ("Condition: " +:+ _get_full_name test) ex));
     visit_body gd orelse ex).
Proof. reflexivity. Qed.

Lemma visit_For target iter body orelse ex :
  visit gd (For target iter body orelse) ex
  = (ex ← visit_body gd body
             (visit_expr iter
                (visit_expr target
                   (_add_call (_get_current_scope_id ex)
                      ("For Loop: " +:+ _get_full_name iter) ex)));
     visit_body gd orelse ex).
Proof. reflexivity. Qed.

Lemma visit_While test body orelse ex :
  visit gd (While test body orelse) ex
  = (ex ← visit_body gd body
             (visit_expr test
                (_add_call (_get_current_scope_id ex)
                   ("While Loop: " +:+ _get_full_name test) ex));
     visit_body gd orelse ex).
Proof. reflexivity. Qed.

Lemma visit_OtherNode children ex :
  visit gd (OtherNode children) ex = visit_children gd children ex.
Proof. reflexivity. Qed.

Lemma events_ClassDef scope name bases_ keywords body decorator_list :
  events gd scope (ClassDef name bases_ keywords body decorator_list)
  = EClass name (class_bases bases_) (gd body)
      (map _get_full_name decorator_list)
      :: exprs_events (scope ++ [name]) bases_
      ++ exprs_events (scope ++ [name]) keywords
      ++ body_events gd (scope ++ [name]) body
      ++ exprs_events (scope ++ [name]) decorator_list.
Proof. reflexivity. Qed.

Lemma events_FunctionDef scope name fargs body decorator_list returns args_list :
  function_args fargs = Ok args_list ->
  events gd scope (FunctionDef name fargs body decorator_list returns)
  = EFunction scope
      (function_record (gd body) name args_list decorator_list returns)
      :: arguments_events (scope ++ [name]) fargs
      ++ body_events gd (scope ++ [name]) body
      ++ exprs_events (scope ++ [name]) decorator_list
      ++ opt_expr_events (scope ++ [name]) returns.
Proof. intros H. simpl. rewrite H. reflexivity. Qed.

Lemma events_If scope test body orelse :
  events gd scope (If test body orelse)
  = ECall scope ("Condition: " +:+ _get_full_name test)
      :: expr_events scope test
      ++ body_events gd scope body ++ body_events gd scope orelse.
Proof. reflexivity. Qed.

Lemma events_For scope target iter body orelse :
  events gd scope (For target iter body orelse)
  = ECall scope ("For Loop: " +:+ _get_full_name iter)
      :: expr_events scope target ++ expr_events scope iter
      ++ body_events gd scope body ++ body_events gd scope orelse.
Proof. reflexivity. Qed.

Lemma events_While scope test body orelse :
  events gd scope (While test body orelse)
  = ECall scope ("While Loop: " +:+ _get_full_name test)
      :: expr_events scope test
      ++ body_events gd scope body ++ body_events gd scope orelse.
Proof. reflexivity. Qed.

Lemma events_OtherNode scope children :
  events gd scope (OtherNode children) = children_events gd scope children.
Proof. reflexivity. Qed.

Lemma pop_push s sc name :
  pop (mk_extractor s (sc ++ [name])) = Ok (mk_extractor s sc).
Proof.
  unfold pop; simpl. rewrite removelast_last.
  destruct sc; reflexivity.
Qed.

Lemma visit_body_refines body :
  Forall (refines gd) body ->
  forall s sc ex',
    visit_body gd body (mk_extractor s sc) = Ok ex' ->
    ex' = mk_extractor (replay (body_events gd sc body) s) sc.
Proof.
  induction 1 as [|x r Hx _ IH]; intros s sc ex' Hv; simpl in Hv.
  - by inversion Hv.
  - destruct (visit gd x _) as [ex1|] eqn:E; [|discriminate].
    apply Hx in E; subst ex1. apply IH in Hv. subst ex'.
    simpl. by rewrite replay_app.
Qed.

Lemma visit_children_refines children :
  Forall (fun c => match c with inl _ => True | inr x => refines gd x end) children ->
  forall s sc ex',
    visit_children gd children (mk_extractor s sc) = Ok ex' ->
    ex' = mk_extractor (replay (children_events gd sc children) s) sc.
Proof.
  induction 1 as [|c r Hc _ IH]; intros s sc ex' Hv; simpl in Hv.
  - by inversion Hv.
  - destruct c as [e|x].
    + rewrite visit_expr_refines in Hv. apply IH in Hv. subst ex'.
      simpl. by rewrite replay_app.
    + destruct (visit gd x _) as [ex1|] eqn:E; [|discriminate].
      apply Hc in E; subst ex1. apply IH in Hv. subst ex'.
      simpl. by rewrite replay_app.
Qed.

Lemma visit_refines node : refines gd node.
Proof.
  induction node as
    [name bases_ keywords body decorator_list IH
    |name fargs body decorator_list returns IH
    |targets value|target ann value|names|module names
    |test body orelse IHb IHo|target iter body orelse IHb IHo
    |test body orelse IHb IHo|children IH] using stmt_ind';
    intros s sc ex' Hv.
  - rewrite visit_ClassDef in Hv. rewrite events_ClassDef.
    unfold on_structure, push in Hv; simpl in Hv.
    rewrite !visit_exprs_refines in Hv.
    destruct (visit_body gd body _) as [ex1|] eqn:E; [|discriminate].
    apply (visit_body_refines _ IH) in E; subst ex1. simpl in Hv.
    rewrite visit_exprs_refines, pop_push in Hv. inversion Hv.
    by rewrite replay_cons, !replay_app.
  - rewrite visit_FunctionDef in Hv.
    destruct (function_args fargs) as [args_list|] eqn:Ha; [|discriminate].
    rewrite (events_FunctionDef _ _ _ _ _ _ _ Ha).
    unfold on_structure, push in Hv; simpl in Hv.
    rewrite visit_arguments_refines in Hv.
    destruct (visit_body gd body _) as [ex1|] eqn:E; [|discriminate].
    apply (visit_body_refines _ IH) in E; subst ex1. simpl in Hv.
    rewrite visit_exprs_refines, visit_opt_expr_refines, pop_push in Hv.
    inversion Hv. by rewrite replay_cons, !replay_app.
  - simpl in Hv.
    rewrite record_assign_refines, visit_exprs_refines, visit_expr_refines in Hv.
    inversion Hv. simpl. by rewrite !replay_app.
  - simpl in Hv.
    rewrite record_annassign_refines, !visit_expr_refines,
      visit_opt_expr_refines in Hv.
    inversion Hv. simpl. by rewrite !replay_app.
  - by inversion Hv.
  - by inversion Hv.
  - rewrite visit_If in Hv. rewrite events_If.
    unfold _add_call, on_structure, _get_current_scope_id in Hv; simpl in Hv.
    rewrite visit_expr_refines in Hv.
    destruct (visit_body gd body _) as [ex1|] eqn:E; [|discriminate].
    apply (visit_body_refines _ IHb) in E; subst ex1. simpl in Hv.
    apply (visit_body_refines _ IHo) in Hv. subst ex'.
    by rewrite replay_cons, !replay_app.
  - rewrite visit_For in Hv. rewrite events_For.
    unfold _add_call, on_structure, _get_current_scope_id in Hv; simpl in Hv.
    rewrite !visit_expr_refines in Hv.
    destruct (visit_body gd body _) as [ex1|] eqn:E; [|discriminate].
    apply (visit_body_refines _ IHb) in E; subst ex1. simpl in Hv.
    apply (visit_body_refines _ IHo) in Hv. subst ex'.
    by rewrite replay_cons, !replay_app.
  - rewrite visit_While in Hv. rewrite events_While.
    unfold _add_call, on_structure, _get_current_scope_id in Hv; simpl in Hv.
    rewrite visit_expr_refines in Hv.
    destruct (visit_body gd body _) as [ex1|] eqn:E; [|discriminate].
    apply (visit_body_refines _ IHb) in E; subst ex1. simpl in Hv.
    apply (visit_body_refines _ IHo) in Hv. subst ex'.
    by rewrite replay_cons, !replay_app.
  - rewrite visit_OtherNode in Hv. rewrite events_OtherNode.
    by apply visit_children_refines.
Qed.

(** *** The visitor returns on well-formed trees *)

Lemma index_in_range len i :
  (- Z.of_nat len <= i < Z.of_nat len)%Z ->
  exists k, PyList.index len i = Some k /\ k < len.
Proof.
  intros Hi. unfold PyList.index.
  destruct (Z.leb_spec 0 i).
  - destruct (Z.ltb_spec i (Z.of_nat len)); [|lia].
    exists (Z.to_nat i). split; [done|lia].
  - destruct (Z.leb_spec (- Z.of_nat len) i); [|lia].
    exists (Z.to_nat (Z.of_nat len + i)). split; [done|lia].
Qed.

Lemma iadd_in_range (l : list string) i x :
  (- Z.of_nat (length l) <= i < Z.of_nat (length l))%Z ->
  exists l', PyList.iadd l i x = Some l' /\ length l' = length l.
Proof.
  intros Hi. unfold PyList.iadd.
  destruct (index_in_range _ _ Hi) as (k & -> & Hk).
  destruct (lookup_lt_is_Some_2 l k Hk) as [old ->].
  eexists. split; [done|]. by rewrite length_insert.
Qed.

Lemma foldM_keeps_length {B} (step : list string -> B -> result (list string))
    (xs : list B) (n : nat) :
  (forall l p, p ∈ xs -> length l = n ->
               exists l', step l p = Ok l' /\ length l' = n) ->
  forall l, length l = n ->
            exists l', foldM step xs l = Ok l' /\ length l' = n.
Proof.
  induction xs as [|p xs IH]; intros Hstep l Hl; simpl.
  - by exists l.
  - destruct (Hstep l p) as (l1 & -> & Hl1); [left|done|]. simpl.
    apply IH; [|done]. intros l2 q Hq. apply Hstep. by right.
Qed.

Lemma elem_of_enumerate {B} (l : list B) (p : Z * B) :
  p ∈ PyList.enumerate l -> (0 <= p.1 < Z.of_nat (length l))%Z.
Proof.
  unfold PyList.enumerate. intros Hp.
  apply elem_of_lookup_imap_1 in Hp as (i & y & -> & Hy).
  apply lookup_lt_Some in Hy. simpl. lia.
Qed.

Lemma bind_defaults_ok ds (l : list string) :
  length ds <= length l ->
  exists l', bind_defaults ds l = Ok l' /\ length l' = length l.
Proof.
  intros Hds. unfold bind_defaults.
  apply foldM_keeps_length; [|done].
  intros l1 [i d] Hp Hl1.
  apply elem_of_enumerate in Hp. rewrite length_reverse in Hp. simpl in Hp.
  destruct (iadd_in_range l1 (Z.of_nat (length l1) - 1 - i)
              ("=" +:+ _get_full_name d)) as (l2 & -> & Hl2); [lia|].
  exists l2. split; [done|lia].
Qed.

Lemma bind_kw_defaults_ok kwonly kds (l : list string) :
  length kds = length kwonly -> length kwonly <= length l ->
  exists l', bind_kw_defaults kwonly kds l = Ok l' /\ length l' = length l.
Proof.
  intros Hk Hl. unfold bind_kw_defaults.
  destruct kwonly as [|a kwonly]; [by exists l|].
  apply foldM_keeps_length; [|done].
  intros l1 [i [d|]] Hp Hl1; [|by exists l1].
  apply elem_of_enumerate in Hp. rewrite length_reverse in Hp. simpl in Hp.
  destruct (iadd_in_range l1
              (Z.of_nat (length l1) - Z.of_nat (length (a :: kwonly)) - 1 - i)
              ("=" +:+ _get_full_name d)) as (l2 & -> & Hl2); [lia|].
  exists l2. split; [done|lia].
Qed.

Lemma function_args_ok a :
  wf_arguments a -> exists args_list, function_args a = Ok args_list.
Proof.
  intros [Hd Hk]. unfold function_args.
  destruct (bind_defaults_ok (defaults a)
              (map format_arg (posonlyargs a ++ args a ++ kwonlyargs a)))
    as (l1 & -> & Hl1).
  { rewrite length_map, !length_app. rewrite length_app in Hd. lia. }
  simpl.
  destruct (bind_kw_defaults_ok (kwonlyargs a) (kw_defaults a) l1)
    as (l2 & -> & _); [done| |by exists l2].
  rewrite Hl1, length_map, !length_app. lia.
Qed.

Lemma wf_ClassDef name bases_ keywords body decorator_list :
  wf_stmt (ClassDef name bases_ keywords body decorator_list) = wf_body body.
Proof. reflexivity. Qed.

Lemma wf_FunctionDef name fargs body decorator_list returns :
  wf_stmt (FunctionDef name fargs body decorator_list returns)
  = (wf_arguments fargs /\ wf_body body).
Proof. reflexivity. Qed.

Lemma wf_If test body orelse :
  wf_stmt (If test body orelse) = (wf_body body /\ wf_body orelse).
Proof. reflexivity. Qed.

Lemma wf_For target iter body orelse :
  wf_stmt (For target iter body orelse) = (wf_body body /\ wf_body orelse).
Proof. reflexivity. Qed.

Lemma wf_While test body orelse :
  wf_stmt (While test body orelse) = (wf_body body /\ wf_body orelse).
Proof. reflexivity. Qed.

Lemma wf_OtherNode children :
  wf_stmt (OtherNode children) = wf_children children.
Proof. reflexivity. Qed.

Lemma visit_body_total body :
  Forall (returns_ gd) body -> wf_body body ->
  forall ex, exists ex', visit_body gd body ex = Ok ex'.
Proof.
  induction 1 as [|x r Hx _ IH]; intros Hwf ex; simpl.
  - by exists ex.
  - destruct Hwf as [Hwx Hwr].
    destruct (Hx Hwx ex) as [ex1 ->]. simpl. by apply IH.
Qed.

Lemma visit_children_total children :
  Forall (fun c => match c with inl _ => True | inr x => returns_ gd x end) children ->
  wf_children children ->
  forall ex, exists ex', visit_children gd children ex = Ok ex'.
Proof.
  induction 1 as [|c r Hc _ IH]; intros Hwf ex; simpl.
  - by exists ex.
  - destruct c as [e|x]; [by apply IH|].
    destruct Hwf as [Hwx Hwr].
    destruct (Hc Hwx ex) as [ex1 ->]. simpl. by apply IH.
Qed.

Lemma visit_total node : returns_ gd node.
Proof.
  induction node as
    [name bases_ keywords body decorator_list IH
    |name fargs body decorator_list returns IH
    |targets value|target ann value|names|module names
    |test body orelse IHb IHo|target iter body orelse IHb IHo
    |test body orelse IHb IHo|children IH] using stmt_ind';
    intros Hwf [s sc].
  - rewrite wf_ClassDef in Hwf. rewrite visit_ClassDef.
    destruct (visit_body_total body IH Hwf
                (visit_exprs keywords
                   (visit_exprs bases_
                      (push name
                         (on_structure
                            (register_class
                               (class_record (gd body) name bases_ decorator_list))
                            (mk_extractor s sc)))))) as [ex1 E].
    rewrite E. simpl.
    unfold on_structure, push in E; simpl in E.
    rewrite !visit_exprs_refines in E.
    apply visit_body_refines in E;
      [|apply Forall_forall; intros; apply visit_refines].
    subst ex1. rewrite visit_exprs_refines, pop_push. eauto.
  - rewrite wf_FunctionDef in Hwf. destruct Hwf as [Ha Hwf].
    rewrite visit_FunctionDef.
    destruct (function_args_ok _ Ha) as [args_list ->]. simpl.
    destruct (visit_body_total body IH Hwf
                (visit_arguments fargs
                   (push name
                      (on_structure
                         (register_function sc
                            (function_record (gd body) name args_list
                               decorator_list returns))
                         (mk_extractor s sc))))) as [ex1 E].
    rewrite E. simpl.
    unfold on_structure, push in E; simpl in E.
    rewrite visit_arguments_refines in E.
    apply visit_body_refines in E;
      [|apply Forall_forall; intros; apply visit_refines].
    subst ex1.
    rewrite visit_exprs_refines, visit_opt_expr_refines, pop_push. eauto.
  - simpl. eauto.
  - simpl. eauto.
  - simpl. eauto.
  - simpl. eauto.
  - rewrite wf_If in Hwf. destruct Hwf as [Hb Ho]. rewrite visit_If.
    destruct (visit_body_total body IHb Hb
                (visit_expr test
                   (_add_call (_get_current_scope_id (mk_extractor s sc))
                      ("Condition: " +:+ _get_full_name test)
                      (mk_extractor s sc)))) as [ex1 ->].
    simpl. by apply visit_body_total.
  - rewrite wf_For in Hwf. destruct Hwf as [Hb Ho]. rewrite visit_For.
    destruct (visit_body_total body IHb Hb
                (visit_expr iter
                   (visit_expr target
                      (_add_call (_get_current_scope_id (mk_extractor s sc))
                         ("For Loop: " +:+ _get_full_name iter)
                         (mk_extractor s sc))))) as [ex1 ->].
    simpl. by apply visit_body_total.
  - rewrite wf_While in Hwf. destruct Hwf as [Hb Ho]. rewrite visit_While.
    destruct (visit_body_total body IHb Hb
                (visit_expr test
                   (_add_call (_get_current_scope_id (mk_extractor s sc))
                      ("While Loop: " +:+ _get_full_name test)
                      (mk_extractor s sc)))) as [ex1 ->].
    simpl. by apply visit_body_total.
  - rewrite wf_OtherNode in Hwf. rewrite visit_OtherNode.
    by apply visit_children_total.
Qed.

End equations.

(** *** The default-binding loops on small inputs *)

(** without keyword-only parameters the positional defaults land on the
    last positional parameters (a constant resolves to the placeholder) *)
Example one_default_args :
  function_args Samples.one_default = Ok ["a"; "b=<?>"].
Proof. reflexivity. Qed.

(** without positional parameters the index of a keyword-only default is
    negative and counts from the end of the list *)
Example keyword_only_defaults_args :
  function_args Samples.keyword_only_defaults = Ok ["c=x"; "d=y"].
Proof. reflexivity. Qed.

(** a call inside a global function is filed under the function's name *)
Example foo_calls_bar_calls :
  calls (Samples.structure_of Samples.foo_calls_bar) = [(Some "foo", ["bar"])].
Proof. reflexivity. Qed.

(** *** Modules *)

Lemma visit_Module_refines gd body s sc ex' :
  visit_Module gd (Module body) (mk_extractor s sc) = Ok ex' ->
  ex' = mk_extractor
          (replay (body_events gd sc body) (set_module_name (Some "Module") s)) sc.
Proof.
  simpl. unfold on_structure; simpl. apply visit_body_refines.
  apply Forall_forall. intros node _. apply visit_refines.
Qed.

Lemma visit_Module_total gd body ex :
  wf_body body -> exists ex', visit_Module gd (Module body) ex = Ok ex'.
Proof.
  intros Hwf. simpl. apply visit_body_total; [|done].
  apply Forall_forall. intros node _. apply visit_total.
Qed.

(** *** Where function definitions end up *)

Lemma update_first_names t g l :
  (forall c, class_name (g c) = class_name c) ->
  map class_name (update_first t g l) = map class_name l.
Proof.
  intros Hg. induction l as [|c l IH]; simpl; [done|].
  destruct (decide (class_name c = t)); simpl; [by rewrite Hg|by rewrite IH].
Qed.

Lemma update_first_lookup t g l k :
  update_first t g l !! k
  = (fun c => if bool_decide (class_name c = t
                              /\ t ∉ take k (map class_name l))
              then g c else c) <$> l !! k.
Proof.
  revert k. induction l as [|c l IH]; intros k; simpl; [done|].
  destruct (decide (class_name c = t)) as [e|n].
  - destruct k as [|k]; simpl.
    + rewrite bool_decide_eq_true_2; [done|]. split; [done|]. apply not_elem_of_nil.
    + destruct (l !! k) as [c1|]; simpl; [|done].
      rewrite bool_decide_eq_false_2; [done|].
      intros [_ H]. apply H. rewrite e. left.
  - destruct k as [|k]; simpl.
    + rewrite bool_decide_eq_false_2; [done|]. by intros [H _].
    + rewrite IH. destruct (l !! k) as [c1|]; simpl; [|done].
      rewrite (bool_decide_ext
                 (class_name c1 = t /\ t ∉ class_name c :: take k (map class_name l))
                 (class_name c1 = t /\ t ∉ take k (map class_name l))); [done|].
      rewrite not_elem_of_cons. split.
      * by intros [H1 [_ H3]].
      * intros [H1 H2]. split; [done|]. split; [congruence|done].
Qed.

Lemma apply_event_names s ev :
  map class_name (classes (apply_event s ev))
  = map class_name (classes s)
    ++ match ev with EClass name _ _ _ => [name] | _ => [] end.
Proof.
  destruct ev as [scope callee|name b d ds|scope f|scope v|names|names];
    simpl; rewrite ?app_nil_r; try done.
  - by rewrite map_app.
  - unfold register_function.
    destruct (top scope) as [t|]; [|done].
    destruct (bool_decide _); [|done]. simpl.
    by apply update_first_names.
  - unfold register_variable.
    destruct (top scope) as [t|]; [|done]. simpl.
    by apply update_first_names.
Qed.

Lemma replay_names_prefix evs : forall s,
  exists more,
    map class_name (classes (replay evs s)) = map class_name (classes s) ++ more.
Proof.
  induction evs as [|ev evs IH]; intros s.
  - exists []. by rewrite app_nil_r.
  - rewrite replay_cons. destruct (IH (apply_event s ev)) as [more ->].
    rewrite apply_event_names, <- app_assoc. eauto.
Qed.

Lemma replay_module_name evs : forall s,
  module_name (replay evs s) = module_name s.
Proof.
  induction evs as [|ev evs IH]; intros s; [done|].
  rewrite replay_cons, IH.
  destruct ev as [scope callee|name b d ds|scope f|scope v|names|names];
    simpl; try done.
  - unfold register_function.
    destruct (top scope) as [t|]; [|done]. by destruct (bool_decide _).
  - unfold register_variable. by destruct (top scope) as [t|].
Qed.

Lemma replay_functions evs : forall s,
  functions (replay evs s)
  = functions s
    ++ map site_record
         (List.filter global_site (sites (map class_name (classes s)) evs)).
Proof.
  induction evs as [|ev evs IH]; intros s.
  - simpl. by rewrite app_nil_r.
  - rewrite replay_cons, IH, apply_event_names.
    destruct ev as [scope callee|name b d ds|scope f|scope v|names|names];
      simpl; rewrite ?app_nil_r; try done.
    + unfold register_variable, global_site, register_function; simpl.
      destruct (top scope) as [t|]; simpl.
      * destruct (bool_decide _); simpl; [done|]. by rewrite <- app_assoc.
      * by rewrite <- app_assoc.
    + unfold register_variable. by destruct (top scope) as [t|].
Qed.

Lemma replay_methods evs : forall s k c',
  classes (replay evs s) !! k = Some c' ->
  methods c'
  = default [] (methods <$> classes s !! k)
    ++ (if bool_decide
             (class_name c' ∈ take k (map class_name (classes (replay evs s))))
        then []
        else map site_record
               (List.filter (method_site (class_name c'))
                  (sites (map class_name (classes s)) evs))).
Proof.
  induction evs as [|ev evs IH]; intros s k c' Hk.
  - simpl in *. rewrite Hk. simpl. destruct (bool_decide _); by rewrite app_nil_r.
  - rewrite replay_cons in *. rewrite (IH _ _ _ Hk). clear IH.
    destruct (replay_names_prefix evs (apply_event s ev)) as [more Hmore].
    assert (map class_name (classes (replay evs (apply_event s ev))) !! k
            = Some (class_name c')) as Hname
        by (by rewrite list_lookup_fmap, Hk).
    rewrite Hmore in *. rewrite apply_event_names in *.
    destruct ev as [scope callee|name b d ds|scope f|scope v|names|names];
      simpl in *; rewrite ?app_nil_r in *; try done.
    + (* a class is registered *)
      destruct (classes s !! k) as [c0|] eqn:Hc0.
      * by rewrite (lookup_app_l_Some _ _ _ _ Hc0).
      * apply lookup_ge_None in Hc0. simpl.
        destruct (decide (k = length (classes s))) as [->|Hne].
        -- by rewrite list_lookup_middle.
        -- rewrite lookup_ge_None_2; [done|]. rewrite length_app. simpl. lia.
    + (* a function is defined *)
      set (A := class_name c') in *.
      unfold register_function. simpl.
      assert (method_site A (mk_site scope (map class_name (classes s)) f)
              = bool_decide (top scope = Some A)
                && bool_decide (A ∈ map class_name (classes s))) as -> by done.
      destruct (top scope) as [t|] eqn:Ht.
      2:{ by rewrite (bool_decide_eq_false_2 (None = Some A)) by done. }
      destruct (decide (t ∈ map class_name (classes s))) as [Hreg|Hreg].
      2:{ rewrite (bool_decide_eq_false_2 _ Hreg).
          destruct (decide (t = A)) as [->|Hne].
          - by rewrite (bool_decide_eq_false_2 _ Hreg), andb_false_r.
          - by rewrite (bool_decide_eq_false_2 (Some t = Some A)) by congruence. }
      rewrite (bool_decide_eq_true_2 _ Hreg).
      cbn [classes set_classes]. rewrite update_first_lookup.
      destruct (classes s !! k) as [c0|] eqn:Hc0.
      * assert (class_name c0 = A) as HA.
        { rewrite lookup_app_l in Hname
            by (rewrite length_map; by eapply lookup_lt_Some).
          rewrite list_lookup_fmap, Hc0 in Hname. by inversion Hname. }
        rewrite take_app_le
          by (rewrite length_map; apply Nat.lt_le_incl; by eapply lookup_lt_Some).
        cbn [fmap option_fmap option_map default].
        destruct (decide (t = A)) as [->|Hne].
        -- rewrite (bool_decide_eq_true_2 (Some A = Some A)) by done.
           rewrite (bool_decide_eq_true_2 _ Hreg).
           destruct (decide (A ∈ take k (map class_name (classes s)))) as [Htk|Htk].
           ++ rewrite (bool_decide_eq_true_2 _ Htk).
              rewrite bool_decide_eq_false_2; [done|]. by intros [_ H].
           ++ rewrite (bool_decide_eq_false_2 _ Htk).
              rewrite bool_decide_eq_true_2 by done. simpl.
              by rewrite <- app_assoc.
        -- rewrite (bool_decide_eq_false_2 (Some t = Some A)) by congruence.
           rewrite bool_decide_eq_false_2; [done|].
           intros [H _]. congruence.
      * apply lookup_ge_None in Hc0.
        cbn [fmap option_fmap option_map default].
        destruct (decide (t = A)) as [->|Hne].
        -- rewrite (bool_decide_eq_true_2
                      (A ∈ take k (map class_name (classes s) ++ more))); [done|].
           rewrite take_app_ge by (rewrite length_map; lia).
           apply elem_of_app. by left.
        -- by rewrite (bool_decide_eq_false_2 (Some t = Some A)) by congruence.
    + (* a variable is assigned *)
      unfold register_variable.
      destruct (top scope) as [t|]; simpl; [|done].
      rewrite update_first_lookup.
      destruct (classes s !! k) as [c0|]; simpl; [|done].
      by destruct (bool_decide _).
Qed.

End ExtractorFacts.

(* ================================================================== *)
(** ** Facts about the public operations *)
(* ================================================================== *)

Module ApiFacts.
Import Ast PyExn Extractor Lexical Graph Api Samples.
Import ExtractorFacts GraphFacts.

(** what [parse_python_file] does once the file is known to exist *)
Lemma parse_python_file_found w filepath :
  os_path_exists w filepath = true ->
  parse_python_file w filepath
  = match read_text w filepath with
    | Ok source_code =>
        let '(t, r) := parse_and_extract w filepath source_code in
        (EvExists filepath :: EvOpenRead filepath :: t, r)
    | Raise e =>
        ([EvExists filepath; EvOpenRead filepath],
         Ok (None,
             Some ("Error: Could not read file '" +:+ filepath +:+ "': " +:+ str e)))
    end.
Proof.
  intros Hx. unfold parse_python_file, exists_, open_read.
  unfold mbind, IO_bind, try_except_io, mret, IO_ret. rewrite Hx. simpl.
  destruct (read_text w filepath) as [source_code|e]; simpl; [|done].
  by destruct (parse_and_extract w filepath source_code).
Qed.

Lemma parse_python_file_missing w filepath :
  os_path_exists w filepath = false ->
  parse_python_file w filepath
  = ([EvExists filepath],
     Ok (None, Some ("Error: File does not exist '" +:+ filepath +:+ "'"))).
Proof.
  intros Hx. unfold parse_python_file, exists_.
  unfold mbind, IO_bind, mret, IO_ret. by rewrite Hx.
Qed.

(** the second [try] block either returns the structure the visitor
    built, or a message *)
Lemma parse_and_extract_cases w filepath source_code :
  (exists tree ex,
      ast_parse w source_code = Ok tree
      /\ visit_Module (ast_get_docstring w) tree
           (on_structure
              (set_module_name
                 (Some (PyStr.replace ".py" "" (PyStr.basename filepath)))) init)
         = Ok ex
      /\ parse_and_extract w filepath source_code
         = ([EvParse source_code], Ok (Some (structure ex), None)))
  \/ (exists msg,
        parse_and_extract w filepath source_code
        = ([EvParse source_code], Ok (None, Some msg))).
Proof.
  unfold parse_and_extract, parse, lift.
  unfold mbind, IO_bind, try_except_io, mret, IO_ret.
  destruct (ast_parse w source_code) as [tree|e]; simpl.
  - destruct (visit_Module _ tree _) as [ex|e] eqn:E; simpl.
    + left. exists tree, ex. by rewrite E.
    + right. destruct e; simpl; eauto.
  - right. destruct e; simpl; eauto.
Qed.

Lemma parse_python_file_cases w filepath :
  (exists s, (parse_python_file w filepath).2 = Ok (Some s, None))
  \/ (exists msg, (parse_python_file w filepath).2 = Ok (None, Some msg)).
Proof.
  destruct (os_path_exists w filepath) eqn:Hx.
  - rewrite parse_python_file_found by done.
    destruct (read_text w filepath) as [source_code|e]; [|right; eauto].
    destruct (parse_and_extract_cases w filepath source_code)
      as [(tree & ex & _ & _ & ->)|[msg ->]]; simpl; eauto.
  - rewrite parse_python_file_missing by done. right. eauto.
Qed.

(** a structure that comes out of [parse_python_file] is one the visitor
    built from a module *)
Lemma parse_python_file_structure w filepath t s msg :
  parse_python_file w filepath = (t, Ok (Some s, msg)) ->
  exists body m,
    s = replay (body_events (ast_get_docstring w) [] body)
          (set_module_name (Some "Module") (set_module_name m (structure init))).
Proof.
  intros Hp. destruct (os_path_exists w filepath) eqn:Hx.
  - rewrite (parse_python_file_found _ _ Hx) in Hp.
    destruct (read_text w filepath) as [source_code|e]; [|by inversion Hp].
    destruct (parse_and_extract_cases w filepath source_code)
      as [(tree & ex & _ & Hv & Hpe)|[m' Hpe]]; rewrite Hpe in Hp;
      [|by inversion Hp].
    destruct tree as [body]. apply visit_Module_refines in Hv.
    inversion Hp; subst.
    exists body, (Some (PyStr.replace ".py" "" (PyStr.basename filepath))).
    reflexivity.
  - rewrite (parse_python_file_missing _ _ Hx) in Hp. by inversion Hp.
Qed.

(** *** String callers *)

Lemma dict_add_keys (k : option string) v d :
  is_Some k ->
  Forall (fun entry : option string * list string => is_Some entry.1) d ->
  Forall (fun entry : option string * list string => is_Some entry.1)
    (PyList.dict_add k v d).
Proof.
  intros Hk. induction 1 as [|[k' vs] d Hk' Hd IH]; simpl.
  - by repeat constructor.
  - destruct (decide (k = k')); constructor; done.
Qed.

Lemma scope_id_is_Some scope m : is_Some m -> is_Some (scope_id scope m).
Proof. destruct scope; simpl; eauto. Qed.

Lemma replay_str_keys evs : forall s,
  is_Some (module_name s) -> str_keys s -> str_keys (replay evs s).
Proof.
  induction evs as [|ev evs IH]; intros s Hm Hk; [done|].
  rewrite replay_cons. apply IH.
  - change (is_Some (module_name (replay [ev] s))).
    by rewrite replay_module_name.
  - destruct ev as [scope callee|name b d ds|scope f|scope v|names|names];
      unfold str_keys in *; simpl; try done.
    + by apply dict_add_keys; [apply scope_id_is_Some|].
    + unfold register_function.
      destruct (top scope) as [t|]; [|done]. by destruct (bool_decide _).
    + unfold register_variable. by destruct (top scope) as [t|].
Qed.

Lemma parse_python_file_str_keys w filepath t s msg :
  parse_python_file w filepath = (t, Ok (Some s, msg)) -> str_keys s.
Proof.
  intros Hp. apply parse_python_file_structure in Hp as (body & m & ->).
  apply replay_str_keys; [by eexists|]. constructor.
Qed.

(** *** [generate_graph_visualization] *)

(** the loop over the callers stops at the first caller that is [None] *)
Lemma add_call_edges_none s l : forall b,
  (exists callees, (None, callees) ∈ l) ->
  foldM (add_calls_of s) l b
  = Raise (AttributeError "'NoneType' object has no attribute 'split'").
Proof.
  induction l as [|[caller callees] l IH]; intros b [cs Hin].
  - by apply elem_of_nil in Hin.
  - destruct caller as [caller_raw|]; [|reflexivity].
    apply elem_of_cons in Hin as [Heq|Hin]; [discriminate|].
    simpl. destruct (resolve_caller _ _ _ _) as [caller_id b1]. simpl.
    apply IH. by exists cs.
Qed.

Lemma generate_graph_visualization_none w s output_filepath format callees :
  (None, callees) ∈ calls s ->
  generate_graph_visualization w (Some s) output_filepath format
  = ([], Raise (AttributeError "'NoneType' object has no attribute 'split'")).
Proof.
  intros Hin. unfold generate_graph_visualization, lift, build, add_call_edges.
  rewrite (add_call_edges_none s (calls s)) by (by exists callees).
  reflexivity.
Qed.

Lemma generate_graph_visualization_cases w structure output_filepath format :
  match structure with Some s => str_keys s | None => True end ->
  (exists path,
      (generate_graph_visualization w structure output_filepath format).2
      = Ok (Some path, Some ("Visualization graph saved to: " +:+ path)))
  \/ (exists msg,
        (generate_graph_visualization w structure output_filepath format).2
        = Ok (None, Some msg)).
Proof.
  intros Hk. destruct structure as [s|]; simpl; [|right; eauto].
  destruct (build_total s Hk) as [b Hb].
  unfold lift, render, mbind, IO_bind, try_except_io, mret, IO_ret.
  rewrite Hb. simpl.
  destruct (dot_render w _ _ _) as [path|e]; simpl; [left; eauto|].
  right. destruct e; simpl; eauto.
Qed.

End ApiFacts.

(* ================================================================== *)
(** ** Claims about the extractor *)
(* ================================================================== *)

Module ExtractorClaims.
Import Ast PyExn Extractor Lexical Samples ExtractorFacts.

(** C8. The name resolver is a function of the expression alone: a bare
    identifier resolves to its text, an attribute access to the
    resolution of its base, a dot and the member name, a call to the
    resolution of its callee followed by ["(...)"], every other kind of
    expression to the placeholder ["<?>"]; an attribute chain of any
    depth resolves to its base followed by one [".member"] per link. *)
Theorem name_resolver_shape :
  (forall id, _get_full_name (Name id) = id)
  /\ (forall value attr,
        _get_full_name (Attribute value attr)
        = _get_full_name value +:+ "." +:+ attr)
  /\ (forall func args_ keywords,
        _get_full_name (Call func args_ keywords)
        = _get_full_name func +:+ "(...)")
  /\ (forall node,
        is_name_attribute_or_call node = false -> _get_full_name node = "<?>")
  /\ (forall base members,
        _get_full_name (fold_left Attribute members base)
        = fold_left (fun s m => s +:+ "." +:+ m) members (_get_full_name base)).
Proof.
  repeat split; try reflexivity.
  - intros [] H; try discriminate. reflexivity.
  - intros base members. revert base.
    induction members as [|m members IH]; intros base; simpl; [done|].
    by rewrite IH.
Qed.

Lemma name_resolver_shape_witness :
  is_name_attribute_or_call (OtherExpr []) = false
  /\ _get_full_name (OtherExpr []) = "<?>".
Proof.
  split; [reflexivity|].
  exact (proj1 (proj2 (proj2 (proj2 name_resolver_shape))) (OtherExpr []) eq_refl).
Defined.

(** C2, at [def f(a, b=x, *, c, d=y)]: the positional default [x] ends
    up on the keyword-only parameter [d] and the keyword-only default
    [y] on the positional parameter [b]. *)
Theorem mixed_defaults_are_swapped :
  function_args mixed_defaults = Ok ["a"; "b=y"; "c"; "d=x"].
Proof. reflexivity. Qed.

Section claims.
Variable gd : list stmt -> option string.

(** C10. The scope stack is balanced: on a well-formed definition, or
    any other well-formed statement, [visit] returns, the stack after
    the visit is the stack on entry, and what the visit recorded is
    what the lexical reading records under the names enclosing the
    node on entry, so that every scope id is the dot-joined chain of
    the class and function names enclosing the place it was taken
    at. *)
Theorem scope_stack_balanced (node : stmt) (ex : CodeStructureExtractor) :
  wf_stmt node ->
  exists ex',
    visit gd node ex = Ok ex'
    /\ current_scope ex' = current_scope ex
    /\ structure ex'
       = replay (events gd (current_scope ex) node) (structure ex).
Proof.
  intros Hwf. destruct (visit_total gd node Hwf ex) as [ex' Hv].
  exists ex'. split; [done|].
  destruct ex as [s sc]. apply visit_refines in Hv. by subst ex'.
Qed.

Lemma site_is_global_or_method (x : site) :
  global_site x = true <-> forall name, method_site name x = false.
Proof.
  unfold global_site, method_site.
  destruct (top (site_scope x)) as [t|]; split; try done.
  - intros Hg name. apply negb_true_iff, bool_decide_eq_false_1 in Hg.
    destruct (decide (t = name)) as [<-|Hne].
    + by rewrite (bool_decide_eq_false_2 _ Hg), andb_false_r.
    + by rewrite (bool_decide_eq_false_2 (Some t = Some name)) by congruence.
  - intros Hm. specialize (Hm t).
    rewrite (bool_decide_eq_true_2 (Some t = Some t)) in Hm by done.
    simpl in Hm. by rewrite Hm.
Qed.

(** C5, amended. On a well-formed module the visit returns, and with
    the function definitions taken in source order: the global
    functions are those at module level or whose innermost enclosing
    name is not that of a class registered before them; the first
    class record of a name holds those whose innermost enclosing name
    is that name and that come after the registration; a later record
    of the same name holds none; and a definition is global exactly
    when it is a method of no class. *)
Theorem methods_of_first_registered_class (body : list stmt) :
  wf_body body ->
  exists ex,
    visit_Module gd (Module body) init = Ok ex
    /\ functions (structure ex)
       = map site_record
           (List.filter global_site (sites [] (body_events gd [] body)))
    /\ (forall k c,
          classes (structure ex) !! k = Some c ->
          methods c
          = if bool_decide
                 (class_name c
                  ∈ take k (map class_name (classes (structure ex))))
            then []
            else map site_record
                   (List.filter (method_site (class_name c))
                      (sites [] (body_events gd [] body))))
    /\ (forall x, global_site x = true
                  <-> forall name, method_site name x = false).
Proof.
  intros Hwf. destruct (visit_Module_total gd body init Hwf) as [ex Hv].
  exists ex. split; [done|].
  apply visit_Module_refines in Hv. subst ex. simpl.
  split; [|split].
  - by rewrite replay_functions.
  - intros k c Hc. by rewrite (replay_methods _ _ _ _ Hc).
  - apply site_is_global_or_method.
Qed.
End claims.

Lemma scope_stack_balanced_witness :
  wf_stmt class_with_method
  /\ exists ex',
       visit no_docstring class_with_method init = Ok ex'
       /\ current_scope ex' = current_scope init
       /\ structure ex'
          = replay (events no_docstring (current_scope init) class_with_method)
              (structure init).
Proof.
  assert (wf_stmt class_with_method) as Hwf
      by (cbv; repeat split; repeat constructor).
  exact (conj Hwf (scope_stack_balanced no_docstring class_with_method init Hwf)).
Defined.

Lemma methods_of_first_registered_class_witness :
  wf_body shadowed_body
  /\ exists ex,
       visit_Module no_docstring (Module shadowed_body) init = Ok ex
       /\ functions (structure ex)
          = map site_record
              (List.filter global_site
                 (sites [] (body_events no_docstring [] shadowed_body)))
       /\ (forall k c,
             classes (structure ex) !! k = Some c ->
             methods c
             = if bool_decide
                    (class_name c
                     ∈ take k (map class_name (classes (structure ex))))
               then []
               else map site_record
                      (List.filter (method_site (class_name c))
                         (sites [] (body_events no_docstring [] shadowed_body))))
       /\ (forall x, global_site x = true
                     <-> forall name, method_site name x = false).
Proof.
  assert (wf_body shadowed_body) as Hwf
      by (cbv; repeat split; repeat constructor).
  exact (conj Hwf (methods_of_first_registered_class no_docstring shadowed_body Hwf)).
Defined.

(** C5 as stated fails on [shadowed_body]: [inner] is defined with ["A"]
    on top of the stack and both class records are named ["A"], yet the
    first record holds [m] and [n] only and the second holds nothing, so
    no record holds the definitions whose innermost enclosing name is
    ["A"]. *)
Lemma enclosing_name_claim_fails :
  exists ex,
    visit_Module no_docstring (Module shadowed_body) init = Ok ex
    /\ forall c,
         c ∈ classes (structure ex) ->
         methods c
         <> map site_record
              (List.filter (enclosed_by (class_name c))
                 (sites [] (body_events no_docstring [] shadowed_body))).
Proof.
  eexists. split; [reflexivity|].
  intros c Hc. vm_compute in Hc.
  apply elem_of_cons in Hc as [->|Hc]; [vm_compute; discriminate|].
  apply elem_of_cons in Hc as [->|Hc]; [vm_compute; discriminate|].
  by apply elem_of_nil in Hc.
Qed.

End ExtractorClaims.

(* ================================================================== *)
(** ** Claims about the graph *)
(* ================================================================== *)

Module GraphClaims.
Import Ast PyExn Extractor Graph Samples PyStrFacts GraphFacts.

(** C3, amended. When the callers are strings the graph is built, and in
    it no ["calls"] edge joins a node to itself; more generally an edge
    that joins a node to itself is an ["inherits"] edge. Such an edge is
    drawn for every base a class lists, from the base's id to the
    class's id, whether or not the two ids are equal. *)
Theorem calls_edges_never_loop (s : Structure) :
  str_keys s ->
  exists b,
    build s = Ok b
    /\ (forall t h, (t, h) ∈ edges_labelled "calls" (dot b) -> t <> h)
    /\ (forall c, c ∈ dot b -> self_loop c -> edge_label c = Some "inherits")
    /\ (forall c base,
          c ∈ classes s -> base ∈ bases c ->
          (module_id s +:+ "." +:+ base, class_id s (class_name c))
          ∈ edges_labelled "inherits" (dot b)).
Proof.
  intros Hk. destruct (build_total s Hk) as [b Hb]. exists b.
  split; [done|].
  pose proof (build_safe s b Hb) as Hsafe.
  unfold loop_safe in Hsafe. rewrite Forall_forall in Hsafe.
  split; [|split].
  - intros t h Hth ->. apply elem_of_edges_labelled in Hth as (cl & a & Hc).
    specialize (Hsafe _ Hc eq_refl). discriminate.
  - intros c Hc. by apply Hsafe.
  - intros c base Hc Hbase. apply elem_of_edges_labelled.
    unfold build in Hb.
    destruct (add_call_edges s _) as [b1|]; [|discriminate].
    inversion Hb; subst. eexists _, _. by apply add_inheritance_draws.
Qed.

Lemma calls_edges_never_loop_witness :
  str_keys (structure_of deep_call)
  /\ exists b,
       build (structure_of deep_call) = Ok b
       /\ (forall t h, (t, h) ∈ edges_labelled "calls" (dot b) -> t <> h)
       /\ (forall c, c ∈ dot b -> self_loop c -> edge_label c = Some "inherits")
       /\ (forall c base,
             c ∈ classes (structure_of deep_call) -> base ∈ bases c ->
             (module_id (structure_of deep_call) +:+ "." +:+ base,
              class_id (structure_of deep_call) (class_name c))
             ∈ edges_labelled "inherits" (dot b)).
Proof.
  assert (str_keys (structure_of deep_call)) as Hk
      by (repeat constructor; by eexists).
  exact (conj Hk (calls_edges_never_loop (structure_of deep_call) Hk)).
Defined.

(** C3 as stated fails on [class A(A): pass]: the graph has an
    ["inherits"] edge from the node of [A] to itself. *)
Lemma inherits_edge_can_loop :
  exists b,
    build (structure_of self_based) = Ok b
    /\ ("module_Module.A", "module_Module.A")
       ∈ edges_labelled "inherits" (dot b).
Proof.
  eexists. split; [vm_compute; reflexivity|].
  vm_compute. left.
Qed.

(** C4, amended. The node ids of the declarations are those of their
    qualified names, in declaration order; when the names have no dot in
    them, two declarations get the same id exactly when they have the
    same qualified name, so that the ids are pairwise distinct exactly
    when the qualified names are. *)
Theorem node_ids_follow_qualified_names (s : Structure) :
  Forall (fun q => qname_dotfree q = true) (declared_qnames s) ->
  declared_ids s = map (qname_id s) (declared_qnames s)
  /\ (forall q1 q2,
        q1 ∈ declared_qnames s -> q2 ∈ declared_qnames s ->
        (qname_id s q1 = qname_id s q2 <-> q1 = q2))
  /\ (NoDup (declared_ids s) <-> NoDup (declared_qnames s)).
Proof.
  intros Hdf. rewrite Forall_forall in Hdf.
  assert (declared_ids s = map (qname_id s) (declared_qnames s)) as Hids
      by apply (declare_node_names s (mk_builder [] ∅)).
  assert (forall q1 q2,
             q1 ∈ declared_qnames s -> q2 ∈ declared_qnames s ->
             qname_id s q1 = qname_id s q2 -> q1 = q2) as Hinj
      by (intros q1 q2 H1 H2; apply qname_id_inj; by apply Hdf).
  split; [done|]. split.
  - intros q1 q2 H1 H2. split; [by apply Hinj|by intros ->].
  - rewrite Hids. split; [apply NoDup_fmap_1|by apply NoDup_fmap_2_strong].
Qed.

Lemma node_ids_follow_qualified_names_witness :
  Forall (fun q => qname_dotfree q = true)
    (declared_qnames (structure_of deep_call))
  /\ declared_ids (structure_of deep_call)
     = map (qname_id (structure_of deep_call))
         (declared_qnames (structure_of deep_call))
  /\ (forall q1 q2,
        q1 ∈ declared_qnames (structure_of deep_call) ->
        q2 ∈ declared_qnames (structure_of deep_call) ->
        (qname_id (structure_of deep_call) q1
         = qname_id (structure_of deep_call) q2 <-> q1 = q2))
  /\ (NoDup (declared_ids (structure_of deep_call))
      <-> NoDup (declared_qnames (structure_of deep_call))).
Proof.
  assert (Forall (fun q => qname_dotfree q = true)
            (declared_qnames (structure_of deep_call))) as Hdf
      by (vm_compute; repeat constructor).
  exact (conj Hdf (node_ids_follow_qualified_names (structure_of deep_call) Hdf)).
Defined.

(** C4 as stated fails on a module that defines [f] twice: the two
    definitions get the one id ["module_Module.f"]. *)
Lemma same_name_same_node_id :
  declared_ids (structure_of twice_f)
  = ["module_Module"; "module_Module.f"; "module_Module.f"]
  /\ ~ NoDup (declared_ids (structure_of twice_f)).
Proof.
  assert (declared_ids (structure_of twice_f)
          = ["module_Module"; "module_Module.f"; "module_Module.f"]) as ->
      by (vm_compute; reflexivity).
  split; [done|]. intros Hnd.
  apply NoDup_cons in Hnd as [_ Hnd]. apply NoDup_cons in Hnd as [Hnotin _].
  apply Hnotin. left.
Qed.

(** C7, at a call made four scopes deep ([A.m.inner.deep] calls
    [print]): the caller resolves to the empty id, a placeholder node
    with that empty id is made for it, and no ["calls"] edge is drawn
    although the callee resolves to ["print"]. *)
Theorem deep_caller_edge_is_dropped :
  calls (structure_of deep_call) = [(Some "A.m.inner.deep", ["print"])]
  /\ caller_node_id (structure_of deep_call)
       (PyStr.split "." "A.m.inner.deep") = ""
  /\ exists b,
       build (structure_of deep_call) = Ok b
       /\ resolve_callee (structure_of deep_call) "print" b = "print"
       /\ DotNode None "" "A.m.inner.deep"
            [("shape", "box"); ("style", "dashed");
             ("color", "red"); ("fillcolor", "white")] ∈ dot b
       /\ edges_labelled "calls" (dot b) = [].
Proof.
  split; [reflexivity|]. split; [reflexivity|].
  eexists. split; [vm_compute; reflexivity|].
  split; [vm_compute; reflexivity|].
  split; [|vm_compute; reflexivity].
  vm_compute. do 12 right. left.
Qed.

End GraphClaims.

(* ================================================================== *)
(** ** Claims about the public operations *)
(* ================================================================== *)

Module ApiClaims.
Import Ast PyExn Extractor Lexical Graph Api Samples MoreSamples.
Import ExtractorFacts GraphFacts ApiFacts.

(** C1, the behaviour of the code: whatever the path, a structure
    returned by [parse_python_file] has the module name ["Module"], the
    value [visit_Module] writes over the name taken from the file. *)
Theorem module_name_is_overwritten (w : World) (filepath : string)
    (t : list io_event) (s : Structure) (msg : option string) :
  parse_python_file w filepath = (t, Ok (Some s, msg)) ->
  module_name s = Some "Module".
Proof.
  intros Hp. apply parse_python_file_structure in Hp as (body & m & ->).
  by rewrite replay_module_name.
Qed.

Lemma module_name_is_overwritten_witness :
  parse_python_file foo_world "/p/foo.py"
  = ([EvExists "/p/foo.py"; EvOpenRead "/p/foo.py"; EvParse "x = 1"],
     Ok (Some (structure_of one_assignment), None))
  /\ PyStr.replace ".py" "" (PyStr.basename "/p/foo.py") = "foo"
  /\ module_name (structure_of one_assignment) = Some "Module".
Proof.
  assert (parse_python_file foo_world "/p/foo.py"
          = ([EvExists "/p/foo.py"; EvOpenRead "/p/foo.py"; EvParse "x = 1"],
             Ok (Some (structure_of one_assignment), None))) as Hp
      by reflexivity.
  exact (conj Hp (conj eq_refl
                    (module_name_is_overwritten foo_world "/p/foo.py" _ _ _ Hp))).
Defined.

(** C6. For a path that does not exist, [parse_python_file] asks the
    environment whether the path exists and nothing else, and returns
    no structure together with a message that contains the path and the
    text ["does not exist"]. *)
Theorem missing_file_is_reported_first (w : World) (filepath : string) :
  os_path_exists w filepath = false ->
  exists msg,
    parse_python_file w filepath = ([EvExists filepath], Ok (None, Some msg))
    /\ PyStr.contains msg filepath
    /\ PyStr.contains msg "does not exist".
Proof.
  intros Hx. rewrite (parse_python_file_missing _ _ Hx).
  eexists. split; [reflexivity|]. split.
  - by exists "Error: File does not exist '", "'".
  - by exists "Error: File ", (" '" +:+ filepath +:+ "'").
Qed.

Lemma missing_file_is_reported_first_witness :
  os_path_exists foo_world "/nope.py" = false
  /\ exists msg,
       parse_python_file foo_world "/nope.py"
       = ([EvExists "/nope.py"], Ok (None, Some msg))
       /\ PyStr.contains msg "/nope.py"
       /\ PyStr.contains msg "does not exist".
Proof.
  assert (os_path_exists foo_world "/nope.py" = false) as Hx by reflexivity.
  exact (conj Hx (missing_file_is_reported_first foo_world "/nope.py" Hx)).
Defined.

(** C9, amended. [parse_python_file] lets no exception out: it returns
    a structure and no message, or no structure and a message.
    [generate_graph_visualization] returns the path of the artifact
    with the message that it was saved, or no path and a message, on
    whatever [parse_python_file] returned and on every structure whose
    callers are strings. It does not on the other structures: when a
    call is filed under [None], the [AttributeError] raised while the
    graph is built, outside the [try], leaves the function. *)
Theorem operations_return_result_or_message (w : World)
    (filepath output_filepath format : string) :
  (exists r,
      (parse_python_file w filepath).2 = Ok r
      /\ ((exists s, r = (Some s, None)) \/ (exists msg, r = (None, Some msg)))
      /\ exists r',
           (generate_graph_visualization w r.1 output_filepath format).2 = Ok r'
           /\ ((exists path,
                   r' = (Some path,
                         Some ("Visualization graph saved to: " +:+ path)))
               \/ (exists msg, r' = (None, Some msg))))
  /\ (forall s,
        str_keys s ->
        exists r',
          (generate_graph_visualization w (Some s) output_filepath format).2
          = Ok r'
          /\ ((exists path,
                  r' = (Some path,
                        Some ("Visualization graph saved to: " +:+ path)))
              \/ (exists msg, r' = (None, Some msg))))
  /\ (forall s,
        ~ str_keys s ->
        generate_graph_visualization w (Some s) output_filepath format
        = ([], Raise (AttributeError
                        "'NoneType' object has no attribute 'split'"))).
Proof.
  assert (forall o,
             match o with Some s => str_keys s | None => True end ->
             exists r',
               (generate_graph_visualization w o output_filepath format).2 = Ok r'
               /\ ((exists path,
                       r' = (Some path,
                             Some ("Visualization graph saved to: " +:+ path)))
                   \/ (exists msg, r' = (None, Some msg)))) as Hgen.
  { intros o Ho.
    destruct (generate_graph_visualization_cases w o output_filepath format Ho)
      as [[path ->]|[msg ->]]; eauto 6. }
  split; [|split; [intros s Hs; by apply (Hgen (Some s))|]].
  - destruct (parse_python_file w filepath) as [t r] eqn:Hp.
    pose proof (parse_python_file_cases w filepath) as Hc. rewrite Hp in Hc.
    simpl in *. destruct Hc as [[s ->]|[msg ->]].
    + eexists. split; [done|]. split; [eauto|]. apply Hgen. simpl.
      by eapply parse_python_file_str_keys.
    + eexists. split; [done|]. split; [eauto|]. by apply Hgen.
  - intros s Hs. unfold str_keys in Hs.
    apply not_Forall_Exists in Hs; [|apply _].
    apply Exists_exists in Hs as ([[caller|] callees] & Hin & Hnone).
    + destruct Hnone. by eexists.
    + by eapply generate_graph_visualization_none.
Qed.

Lemma operations_return_result_or_message_witness :
  (exists r,
      (parse_python_file foo_world "/p/foo.py").2 = Ok r
      /\ ((exists s, r = (Some s, None)) \/ (exists msg, r = (None, Some msg))))
  /\ str_keys (structure_of foo_calls_bar)
  /\ calls (structure_of foo_calls_bar) = [(Some "foo", ["bar"])]
  /\ (exists r',
        (generate_graph_visualization foo_world
           (Some (structure_of foo_calls_bar)) "out.png" "png").2 = Ok r'
        /\ ((exists path,
                r' = (Some path,
                      Some ("Visualization graph saved to: " +:+ path)))
            \/ (exists msg, r' = (None, Some msg))))
  /\ ~ str_keys stray_call
  /\ generate_graph_visualization foo_world (Some stray_call) "out.png" "png"
     = ([], Raise (AttributeError
                     "'NoneType' object has no attribute 'split'")).
Proof.
  assert (str_keys (structure_of foo_calls_bar)) as Hk
      by (repeat constructor; by eexists).
  assert (~ str_keys stray_call) as Hn.
  { intros H. apply Forall_cons in H as [[x Hx] _]. discriminate. }
  destruct (operations_return_result_or_message foo_world
              "/p/foo.py" "out.png" "png") as (H1 & H2 & H3).
  destruct H1 as (r & Hr & Hcases & _).
  split; [by exists r|].
  exact (conj Hk (conj eq_refl (conj (H2 _ Hk) (conj Hn (H3 _ Hn))))).
Defined.

(** C9 as stated fails on the structure an extractor leaves that
    visited [print()] without [visit_Module]: the call is filed under
    [None], and [generate_graph_visualization] raises instead of
    returning. *)
Lemma none_caller_is_not_caught :
  calls stray_call = [(None, ["print"])]
  /\ generate_graph_visualization foo_world (Some stray_call) "out.png" "png"
     = ([], Raise (AttributeError
                     "'NoneType' object has no attribute 'split'"))
  /\ ~ exists r',
         (generate_graph_visualization foo_world (Some stray_call)
            "out.png" "png").2 = Ok r'.
Proof.
  split; [reflexivity|]. split; [reflexivity|].
  intros [r' Hr']. discriminate.
Qed.

End ApiClaims.

(* ================================================================== *)
(** ** More about the extractor *)
(* ================================================================== *)

Module ExtractorMore.
Import Ast PyExn Extractor Lexical Outline Text Samples MoreSamples ExtractorFacts.

(** *** The calls dictionary *)

Lemma elem_of_set_add (x v : string) (s : list string) :
  x ∈ PyList.set_add v s <-> x ∈ s \/ x = v.
Proof.
  unfold PyList.set_add, PyList.mem. case_bool_decide as Hv.
  - split; [by left|]. intros [H| ->]; done.
  - rewrite elem_of_app, list_elem_of_singleton. done.
Qed.

Lemma NoDup_set_add (v : string) (s : list string) :
  NoDup s -> NoDup (PyList.set_add v s).
Proof.
  intros Hs. unfold PyList.set_add, PyList.mem. case_bool_decide as Hv; [done|].
  apply NoDup_app. split; [done|]. split; [|apply NoDup_singleton].
  intros x Hx Hx'. apply list_elem_of_singleton in Hx'. by subst.
Qed.

Lemma set_add_not_nil (v : string) (s : list string) : PyList.set_add v s <> [].
Proof.
  unfold PyList.set_add, PyList.mem. case_bool_decide as Hv.
  - intros ->. by apply elem_of_nil in Hv.
  - by destruct s.
Qed.

Lemma dict_get_dict_add (k k' : option string) (v : string)
    (d : list (option string * list string)) :
  dict_get k (PyList.dict_add k' v d)
  = if decide (k = k')
    then Some (PyList.set_add v (default [] (dict_get k d)))
    else dict_get k d.
Proof.
  induction d as [|[k0 s] d IH]; simpl.
  - destruct (decide (k = k')); done.
  - destruct (decide (k' = k0)) as [->|Hne]; simpl.
    + destruct (decide (k = k0)); done.
    + destruct (decide (k = k0)) as [->|Hne'].
      * by rewrite decide_False by done.
      * done.
Qed.

Lemma dict_add_keys_set (k' : option string) (v : string)
    (d : list (option string * list string)) (k : option string) :
  k ∈ (PyList.dict_add k' v d).*1 <-> k ∈ d.*1 \/ k = k'.
Proof.
  induction d as [|[k0 s] d IH]; simpl.
  - rewrite list_elem_of_singleton. split; [by right|]. intros [H|H]; [|done].
    by apply elem_of_nil in H.
  - destruct (decide (k' = k0)) as [->|Hne]; simpl.
    + rewrite elem_of_cons. split; [by left|]. intros [H| ->]; [done|by left].
    + rewrite !elem_of_cons, IH. tauto.
Qed.

Lemma dict_wf_dict_add (k : option string) (v : string)
    (d : list (option string * list string)) :
  dict_wf d -> dict_wf (PyList.dict_add k v d).
Proof.
  intros [Hk Hs]. split.
  - induction d as [|[k0 s] d IH]; simpl.
    + apply NoDup_singleton.
    + simpl in Hk. apply NoDup_cons in Hk as [Hk0 Hk].
      apply Forall_cons in Hs as [_ Hs].
      destruct (decide (k = k0)) as [->|Hne]; simpl.
      * by apply NoDup_cons.
      * apply NoDup_cons. split; [|by apply IH].
        rewrite dict_add_keys_set. intros [H|H]; [done|by subst].
  - clear Hk. induction d as [|[k0 s] d IH]; simpl.
    + repeat constructor; [apply not_elem_of_nil|done].
    + apply Forall_cons in Hs as [[Hs0 Hne0] Hs]. simpl in *.
      destruct (decide (k = k0)) as [->|Hne]; constructor; simpl; try done.
      * split; [by apply NoDup_set_add|apply set_add_not_nil].
      * by apply IH.
Qed.

Lemma recorded_dict_add (k k' : option string) (c v : string)
    (d : list (option string * list string)) :
  recorded k c (PyList.dict_add k' v d)
  <-> recorded k c d \/ (k = k' /\ c = v).
Proof.
  unfold recorded. rewrite dict_get_dict_add.
  destruct (decide (k = k')) as [->|Hne].
  - split.
    + intros (callees & [= <-] & Hc). apply elem_of_set_add in Hc as [Hc| ->].
      * left. destruct (dict_get k' d) as [s|]; [eauto|by apply elem_of_nil in Hc].
      * by right.
    + intros [(callees & Hg & Hc)|[_ ->]]; eexists; (split; [done|]);
        apply elem_of_set_add; [left; by rewrite Hg|by right].
  - split; [by left|]. intros [H|[H _]]; done.
Qed.

Lemma apply_event_calls (s : Structure) (ev : event) :
  calls (apply_event s ev)
  = match ev with
    | ECall scope callee =>
        PyList.dict_add (scope_id scope (module_name s)) callee (calls s)
    | _ => calls s
    end.
Proof.
  destruct ev as [scope callee|name b d ds|scope f|scope v|names|names];
    simpl; try done.
  - unfold register_function.
    destruct (top scope) as [t|]; [|done]. by destruct (bool_decide _).
  - unfold register_variable. by destruct (top scope) as [t|].
Qed.

Lemma apply_event_module_name (s : Structure) (ev : event) :
  module_name (apply_event s ev) = module_name s.
Proof. apply (replay_module_name [ev] s). Qed.

Lemma replay_dict_wf evs : forall s,
  dict_wf (calls s) -> dict_wf (calls (replay evs s)).
Proof.
  induction evs as [|ev evs IH]; intros s Hs; [done|].
  rewrite replay_cons. apply IH. rewrite apply_event_calls.
  destruct ev; try done. by apply dict_wf_dict_add.
Qed.

Lemma replay_recorded evs : forall s k c,
  recorded k c (calls (replay evs s))
  <-> recorded k c (calls s)
      \/ exists scope,
           ECall scope c ∈ evs /\ k = scope_id scope (module_name s).
Proof.
  induction evs as [|ev evs IH]; intros s k c.
  - simpl. split; [by left|]. intros [H|(scope & H & _)]; [done|].
    by apply elem_of_nil in H.
  - rewrite replay_cons, IH, apply_event_calls, apply_event_module_name.
    split.
    + intros [H|(scope & Hin & ->)].
      * destruct ev as [scope callee| | | | |]; try (by left).
        apply recorded_dict_add in H as [H|[-> ->]]; [by left|].
        right. exists scope. split; [left|done].
      * right. exists scope. split; [by right|done].
    + intros [H|(scope & Hin & ->)].
      * left. destruct ev as [scope callee| | | | |]; try done.
        apply recorded_dict_add. by left.
      * apply elem_of_cons in Hin as [<-|Hin].
        -- left. apply recorded_dict_add. by right.
        -- right. eauto.
Qed.


(** *** Variables, classes and functions *)

Lemma update_first_map {B} (h : class_info -> B) t g l :
  (forall c, h (g c) = h c) -> map h (update_first t g l) = map h l.
Proof.
  intros Hg. induction l as [|c l IH]; simpl; [done|].
  destruct (decide (class_name c = t)); simpl; [by rewrite Hg|by rewrite IH].
Qed.

Lemma replay_global_variables evs : forall s,
  global_variables (replay evs s)
  = global_variables s ++ omap module_variable_of evs.
Proof.
  induction evs as [|ev evs IH]; intros s; simpl.
  - by rewrite app_nil_r.
  - change (fold_left apply_event evs (apply_event s ev))
      with (replay evs (apply_event s ev)).
    rewrite IH.
    destruct ev as [scope callee|name b d ds|scope f|scope v|names|names];
      simpl; try done.
    + unfold register_function.
      destruct (top scope) as [t|]; [|done]. by destruct (bool_decide _).
    + unfold register_variable, top. destruct scope as [|x r]; simpl.
      * by rewrite <- app_assoc.
      * rewrite last_cons. by destruct (last r).
Qed.

Lemma replay_headers evs : forall s,
  map header (classes (replay evs s))
  = map header (classes s) ++ omap class_of evs.
Proof.
  induction evs as [|ev evs IH]; intros s; simpl.
  - by rewrite app_nil_r.
  - change (fold_left apply_event evs (apply_event s ev))
      with (replay evs (apply_event s ev)).
    rewrite IH.
    destruct ev as [scope callee|name b d ds|scope f|scope v|names|names];
      simpl; try done.
    + by rewrite map_app, <- app_assoc.
    + unfold register_function.
      destruct (top scope) as [t|]; [|done].
      destruct (bool_decide _); [|done]. simpl.
      by rewrite update_first_map.
    + unfold register_variable.
      destruct (top scope) as [t|]; [|done]. simpl.
      by rewrite update_first_map.
Qed.

Lemma sum_list_snoc (l : list nat) (n : nat) :
  sum_list (l ++ [n]) = sum_list l + n.
Proof. induction l as [|x l IH]; simpl; lia. Qed.

Lemma update_first_add_method_count t f l :
  t ∈ map class_name l ->
  sum_list (map (fun c => length (methods c)) (update_first t (add_method f) l))
  = S (sum_list (map (fun c => length (methods c)) l)).
Proof.
  induction l as [|c l IH]; simpl; intros Ht.
  - by apply elem_of_nil in Ht.
  - destruct (decide (class_name c = t)) as [e|n]; simpl.
    + rewrite length_app. simpl. lia.
    + apply elem_of_cons in Ht as [Ht|Ht]; [by subst|]. rewrite IH by done. lia.
Qed.

Lemma replay_count evs : forall s,
  length (functions (replay evs s))
  + sum_list (map (fun c => length (methods c)) (classes (replay evs s)))
  = length (functions s)
    + sum_list (map (fun c => length (methods c)) (classes s))
    + length (List.filter is_function_event evs).
Proof.
  induction evs as [|ev evs IH]; intros s; simpl; [lia|].
  change (fold_left apply_event evs (apply_event s ev))
    with (replay evs (apply_event s ev)).
  rewrite IH.
  destruct ev as [scope callee|name b d ds|scope f|scope v|names|names];
    simpl; try lia.
  - rewrite map_app. simpl. rewrite sum_list_snoc. simpl. lia.
  - unfold register_function.
    destruct (top scope) as [t|]; simpl.
    + case_bool_decide as Ht; simpl.
      * rewrite update_first_add_method_count by done. lia.
      * rewrite length_app. simpl. lia.
    + rewrite length_app. simpl. lia.
  - unfold register_variable.
    destruct (top scope) as [t|]; simpl; [|lia].
    rewrite (update_first_map (fun c => length (methods c))) by done. lia.
Qed.


(** *** The default-binding loops *)

Lemma iadd_alter (l : list string) (i : Z) (x : string) (k : nat) :
  PyList.index (length l) i = Some k -> k < length l ->
  PyList.iadd l i x = Some (alter (fun s => s +:+ x) k l).
Proof.
  intros Hi Hk. unfold PyList.iadd. rewrite Hi.
  destruct (lookup_lt_is_Some_2 l k Hk) as [old Hold]. rewrite Hold.
  f_equal. apply list_eq. intros p.
  destruct (decide (k = p)) as [->|Hne].
  - rewrite list_lookup_insert_eq by done.
    by rewrite list_lookup_alter_eq, Hold.
  - rewrite list_lookup_insert_ne by done.
    by rewrite list_lookup_alter_ne.
Qed.

(** A loop over [enumerate(rs)] that appends to the slot [n - 1 - i] at
    step [i] (or leaves the list alone): afterwards the last slots hold
    their suffixes, the last one that of [rs[0]]. *)
Lemma foldM_from_the_end {B} (g : B -> option string)
    (step : list string -> Z * B -> result (list string)) (n : nat) :
  (forall l i x, length l = n -> i < n ->
     step l (Z.of_nat i, x)
     = Ok (match g x with
           | Some sfx => alter (fun s => s +:+ sfx) (n - 1 - i) l
           | None => l
           end)) ->
  forall rs j l, length l = n -> j + length rs <= n ->
    exists l',
      foldM step (imap (fun i x => (Z.of_nat (j + i), x)) rs) l = Ok l'
      /\ length l' = n
      /\ forall p,
           l' !! p
           = (fun s => s +:+ (if decide (n - j - length rs <= p < n - j)
                             then default "" (rs !! (n - 1 - j - p) ≫= g)
                             else ""))
             <$> l !! p.
Proof.
  intros Hstep. induction rs as [|r0 rs IH]; intros j l Hl Hj; simpl in *.
  - exists l. split; [done|]. split; [done|]. intros p.
    rewrite decide_False by lia.
    destruct (l !! p); simpl; [by rewrite PyStrFacts.append_nil_r|done].
  - rewrite Nat.add_0_r. rewrite (Hstep l j r0 Hl) by lia. simpl.
    set (l1 := match g r0 with
               | Some sfx => alter (fun s => s +:+ sfx) (n - 1 - j) l
               | None => l
               end).
    assert (length l1 = n) as Hl1
        by (unfold l1; destruct (g r0); by rewrite ?length_alter).
    destruct (IH (S j) l1 Hl1) as (l' & Hfold & Hl' & Hlook); [lia|].
    exists l'. split.
    { rewrite <- Hfold. f_equal. apply imap_ext. intros i x _. simpl.
      do 2 f_equal. lia. }
    split; [done|]. intros p. rewrite Hlook. clear Hlook Hfold.
    destruct (decide (p = n - 1 - j)) as [->|Hne].
    + rewrite decide_False by lia. rewrite decide_True by lia.
      replace (n - 1 - j - (n - 1 - j)) with 0 by lia. simpl.
      unfold l1. destruct (g r0) as [sfx|]; simpl.
      * rewrite list_lookup_alter_eq.
        destruct (l !! (n - 1 - j)); simpl; [|done].
        by rewrite PyStrFacts.append_nil_r.
      * destruct (l !! (n - 1 - j)); simpl; [|done].
        by rewrite PyStrFacts.append_nil_r.
    + assert (l1 !! p = l !! p) as ->.
      { unfold l1. destruct (g r0); [|done]. by rewrite list_lookup_alter_ne. }
      destruct (decide (n - S j - length rs <= p < n - S j)) as [Hin|Hout].
      * rewrite decide_True by lia.
        replace (n - 1 - j - p) with (S (n - 1 - S j - p)) by lia. done.
      * rewrite decide_False by lia. done.
Qed.

Lemma bind_defaults_spec ds (l : list string) :
  length ds <= length l ->
  exists l',
    bind_defaults ds l = Ok l'
    /\ length l' = length l
    /\ forall p,
         l' !! p
         = (fun s => s +:+ (if decide (length l - length ds <= p < length l)
                           then default ""
                                  ((fun d => "=" +:+ _get_full_name d)
                                     <$> ds !! (p - (length l - length ds)))
                           else ""))
           <$> l !! p.
Proof.
  intros Hds.
  destruct (foldM_from_the_end
              (fun d => Some ("=" +:+ _get_full_name d))
              (fun args_list '(i, default) =>
                 or_raise (IndexError "list index out of range")
                   (PyList.iadd args_list (Z.of_nat (length args_list) - 1 - i)
                      ("=" +:+ _get_full_name default)))
              (length l)) with (rs := reverse ds) (j := 0) (l := l)
    as (l' & Hfold & Hl' & Hlook).
  - intros l0 i x Hl0 Hi.
    rewrite (iadd_alter l0 _ _ (length l - 1 - i)); [done| |lia].
    unfold PyList.index. rewrite Hl0.
    destruct (Z.leb_spec 0 (Z.of_nat (length l) - 1 - Z.of_nat i)); [|lia].
    destruct (Z.ltb_spec (Z.of_nat (length l) - 1 - Z.of_nat i)
                (Z.of_nat (length l))); [|lia].
    f_equal. lia.
  - done.
  - rewrite length_reverse. lia.
  - exists l'. split; [exact Hfold|]. split; [done|]. intros p.
    rewrite Hlook, length_reverse. clear Hlook Hfold.
    replace (length l - 0 - length ds) with (length l - length ds) by lia.
    replace (length l - 0) with (length l) by lia.
    destruct (decide (length l - length ds <= p < length l)) as [Hin|]; [|done].
    rewrite reverse_lookup by lia.
    replace (length ds - S (length l - 1 - 0 - p))
      with (p - (length l - length ds)) by lia.
    by destruct (ds !! _).
Qed.

Lemma bind_kw_defaults_only kwonly kds :
  length kds = length kwonly ->
  bind_kw_defaults kwonly kds (map format_arg kwonly)
  = Ok (zip_with
          (fun p d => format_arg p +:+
                      match d with
                      | Some e => "=" +:+ _get_full_name e
                      | None => ""
                      end)
          kwonly kds).
Proof.
  intros Hk. unfold bind_kw_defaults.
  destruct kwonly as [|a0 kwonly0]; [by destruct kds|].
  cbv iota. remember (a0 :: kwonly0) as kwonly eqn:Ekw. clear Ekw a0 kwonly0.
  set (n := length kwonly).
  destruct (foldM_from_the_end
              (fun d : option expr => (fun e => "=" +:+ _get_full_name e) <$> d)
              (fun args_list '(i, default) =>
                 match default with
                 | Some d =>
                     or_raise (IndexError "list index out of range")
                       (PyList.iadd args_list
                          (Z.of_nat (length args_list) - Z.of_nat (length kwonly)
                           - 1 - i)
                          ("=" +:+ _get_full_name d))
                 | None => Ok args_list
                 end)
              n) with (rs := reverse kds) (j := 0) (l := map format_arg kwonly)
    as (l' & Hfold & Hl' & Hlook).
  - intros l0 i [e|] Hl0 Hi; simpl; [|done].
    rewrite (iadd_alter l0 _ _ (n - 1 - i)); [done| |lia].
    unfold PyList.index. rewrite Hl0. fold n.
    destruct (Z.leb_spec 0 (Z.of_nat n - Z.of_nat n - 1 - Z.of_nat i)); [lia|].
    destruct (Z.leb_spec (- Z.of_nat n)
                (Z.of_nat n - Z.of_nat n - 1 - Z.of_nat i)); [|lia].
    f_equal. lia.
  - by rewrite length_map.
  - rewrite length_reverse. lia.
  - unfold PyList.enumerate.
    change (imap (fun i x => (Z.of_nat i, x)) (reverse kds))
      with (imap (fun i x => (Z.of_nat (0 + i), x)) (reverse kds)).
    trans (Ok l'); [exact Hfold|]. f_equal. apply list_eq. intros p.
    rewrite Hlook, length_reverse, list_lookup_fmap, lookup_zip_with.
    clear Hlook Hfold.
    destruct (kwonly !! p) as [a|] eqn:Ea; simpl; [|done].
    apply lookup_lt_Some in Ea as Hp. fold n in Hp.
    rewrite decide_True by lia. rewrite reverse_lookup by lia.
    replace (length kds - S (n - 1 - 0 - p)) with p by lia.
    destruct (kds !! p) as [[e|]|] eqn:Ed; simpl; try done.
    apply lookup_ge_None in Ed. lia.
Qed.


Lemma iadd_keeps_prefixes (base : list arg) (l l' : list string) (i : Z)
    (x : string) :
  Forall2 (fun p s => exists sfx, s = format_arg p +:+ sfx) base l ->
  PyList.iadd l i x = Some l' ->
  Forall2 (fun p s => exists sfx, s = format_arg p +:+ sfx) base l'.
Proof.
  intros Hb. unfold PyList.iadd.
  destruct (PyList.index (length l) i) as [k|]; [|discriminate].
  destruct (l !! k) as [old|] eqn:Hold; [|discriminate]. intros [= <-].
  destruct (Forall2_lookup_r _ _ _ _ _ Hb Hold) as (p & Hp & sfx & ->).
  rewrite <- (list_insert_id base k p Hp).
  apply Forall2_insert; [done|]. exists (sfx +:+ x).
  by rewrite PyStrFacts.append_assoc.
Qed.

Lemma function_args_prefixes (a : arguments) (l : list string) :
  function_args a = Ok l ->
  Forall2 (fun p s => exists sfx, s = format_arg p +:+ sfx) (parameters a) l.
Proof.
  unfold function_args, parameters.
  set (base := posonlyargs a ++ args a ++ kwonlyargs a).
  assert (Forall2 (fun p s => exists sfx, s = format_arg p +:+ sfx) base
            (map format_arg base)) as Hbase.
  { apply Forall2_fmap_r, Forall_Forall2_diag, Forall_forall.
    intros p _. exists "". by rewrite PyStrFacts.append_nil_r. }
  destruct (bind_defaults _ _) as [l1|] eqn:E1; [|discriminate]. simpl.
  intros E2.
  assert (Forall2 (fun p s => exists sfx, s = format_arg p +:+ sfx) base l1) as H1.
  { revert E1. unfold bind_defaults.
    apply (GraphFacts.foldM_preserves
             (Forall2 (fun p s => exists sfx, s = format_arg p +:+ sfx) base));
      [|done].
    intros l0 [i d] l0' Hl0. unfold or_raise.
    destruct (PyList.iadd _ _ _) as [l2|] eqn:Ei; [|discriminate].
    intros [= <-]. by eapply iadd_keeps_prefixes. }
  revert E2. unfold bind_kw_defaults.
  clearbody base.
  destruct (kwonlyargs a) as [|kw0 kws]; [by intros [= <-]|].
  apply (GraphFacts.foldM_preserves
           (Forall2 (fun p s => exists sfx, s = format_arg p +:+ sfx) base));
    [|done].
  intros m0 [i [d|]] m0' Hm0; [|by intros [= <-]]. unfold or_raise.
  destruct (PyList.iadd _ _ _) as [l2|] eqn:Ei; [|discriminate].
  intros [= <-]. by eapply iadd_keeps_prefixes.
Qed.

(** *** What the events of a tree are *)

Lemma Forall_concat_map {A B} (P : B -> Prop) (f : A -> list B) (l : list A) :
  Forall (fun x => Forall P (f x)) l -> Forall P (concat (map f l)).
Proof.
  induction 1 as [|x r Hx _ IH]; simpl; [constructor|].
  by apply Forall_app.
Qed.

Lemma expr_events_calls sc e :
  Forall (fun ev => exists c, ev = ECall sc c) (expr_events sc e).
Proof.
  induction e as [id|value attr IH|func args_ keywords IHf IHa IHk|children IH]
    using expr_ind'; simpl.
  - constructor.
  - done.
  - constructor; [by eexists|].
    rewrite !Forall_app. split; [done|].
    split; by apply Forall_concat_map.
  - by apply Forall_concat_map.
Qed.

Lemma exprs_events_calls sc l :
  Forall (fun ev => exists c, ev = ECall sc c) (exprs_events sc l).
Proof.
  apply Forall_concat_map, Forall_forall. intros e _. apply expr_events_calls.
Qed.

Lemma opt_expr_events_calls sc o :
  Forall (fun ev => exists c, ev = ECall sc c) (opt_expr_events sc o).
Proof. destruct o; simpl; [apply expr_events_calls|constructor]. Qed.

Lemma arg_events_calls sc a :
  Forall (fun ev => exists c, ev = ECall sc c) (arg_events sc a).
Proof. apply opt_expr_events_calls. Qed.

Lemma arguments_events_calls sc a :
  Forall (fun ev => exists c, ev = ECall sc c) (arguments_events sc a).
Proof.
  unfold arguments_events. rewrite !Forall_app.
  repeat split;
    try (apply Forall_concat_map, Forall_forall; intros x _;
         first [apply arg_events_calls|apply opt_expr_events_calls]).
  - destruct (vararg a); [apply arg_events_calls|constructor].
  - destruct (kwarg a); [apply arg_events_calls|constructor].
  - apply exprs_events_calls.
Qed.

Lemma assign_events_variables sc targets value :
  Forall (fun ev => exists v, ev = EVariable sc v) (assign_events sc targets value).
Proof.
  unfold assign_events. induction targets as [|t r IH]; simpl; [constructor|].
  destruct t; simpl; try done. constructor; [by eexists|done].
Qed.

Lemma annassign_events_variables sc target ann value :
  Forall (fun ev => exists v, ev = EVariable sc v)
    (annassign_events sc target ann value).
Proof.
  unfold annassign_events. destruct target; repeat constructor. by eexists.
Qed.

Lemma calls_no_function sc l :
  Forall (fun ev => exists c, ev = ECall sc c) l ->
  List.filter is_function_event l = [].
Proof.
  induction 1 as [|ev r [c ->] _ IH]; simpl; done.
Qed.

Lemma variables_no_function sc l :
  Forall (fun ev => exists v, ev = EVariable sc v) l ->
  List.filter is_function_event l = [].
Proof.
  induction 1 as [|ev r [c ->] _ IH]; simpl; done.
Qed.

Lemma count_defs_body_eq l :
  count_defs_body l = sum_list (map count_defs l).
Proof. induction l as [|x r IH]; simpl; [done|by rewrite IH]. Qed.

Lemma body_events_count gd sc body :
  Forall (fun node => wf_stmt node -> forall sc,
            length (List.filter is_function_event (events gd sc node))
            = count_defs node) body ->
  wf_body body ->
  length (List.filter is_function_event (body_events gd sc body))
  = count_defs_body body.
Proof.
  induction 1 as [|x r Hx _ IH]; simpl; [done|]. intros [Hwx Hwr].
  rewrite List.filter_app, length_app, (Hx Hwx), (IH Hwr). done.
Qed.

Lemma events_count gd node :
  wf_stmt node -> forall sc,
  length (List.filter is_function_event (events gd sc node)) = count_defs node.
Proof.
  induction node as
    [name bases_ keywords body decorator_list IH
    |name fargs body decorator_list returns IH
    |targets value|target ann value|names|module names
    |test body orelse IHb IHo|target iter body orelse IHb IHo
    |test body orelse IHb IHo|children IH] using stmt_ind';
    intros Hwf sc.
  - rewrite wf_ClassDef in Hwf. rewrite events_ClassDef.
    change (count_defs (ClassDef name bases_ keywords body decorator_list))
      with (count_defs_body body).
    cbn [List.filter is_function_event]. rewrite !List.filter_app, !length_app.
    rewrite !(calls_no_function _ _ (exprs_events_calls _ _)).
    rewrite (body_events_count gd _ body IH Hwf). simpl. lia.
  - rewrite wf_FunctionDef in Hwf. destruct Hwf as [Hwa Hwb].
    destruct (function_args_ok fargs Hwa) as [args_list Hargs].
    rewrite (events_FunctionDef gd _ _ _ _ _ _ _ Hargs).
    change (count_defs (FunctionDef name fargs body decorator_list returns))
      with (S (count_defs_body body)).
    cbn [List.filter is_function_event]. cbn [length].
    rewrite !List.filter_app, !length_app.
    rewrite (calls_no_function _ _ (exprs_events_calls _ _)).
    rewrite (calls_no_function _ _ (opt_expr_events_calls _ _)).
    rewrite (calls_no_function _ _ (arguments_events_calls _ _)).
    rewrite (body_events_count gd _ body IH Hwb). simpl. lia.
  - simpl. rewrite !List.filter_app, !length_app.
    rewrite (variables_no_function _ _ (assign_events_variables _ _ _)).
    rewrite (calls_no_function _ _ (exprs_events_calls _ _)).
    by rewrite (calls_no_function _ _ (expr_events_calls _ _)).
  - simpl. rewrite !List.filter_app, !length_app.
    rewrite (variables_no_function _ _ (annassign_events_variables _ _ _ _)).
    rewrite !(calls_no_function _ _ (expr_events_calls _ _)).
    by rewrite (calls_no_function _ _ (opt_expr_events_calls _ _)).
  - done.
  - done.
  - rewrite wf_If in Hwf. destruct Hwf as [Hw1 Hw2]. rewrite events_If.
    change (count_defs (If test body orelse))
      with (count_defs_body body + count_defs_body orelse).
    cbn [List.filter is_function_event]. rewrite !List.filter_app, !length_app.
    rewrite !(calls_no_function _ _ (expr_events_calls _ _)).
    rewrite (body_events_count gd _ body IHb Hw1).
    by rewrite (body_events_count gd _ orelse IHo Hw2).
  - rewrite wf_For in Hwf. destruct Hwf as [Hw1 Hw2]. rewrite events_For.
    change (count_defs (For target iter body orelse))
      with (count_defs_body body + count_defs_body orelse).
    cbn [List.filter is_function_event]. rewrite !List.filter_app, !length_app.
    rewrite !(calls_no_function _ _ (expr_events_calls _ _)).
    rewrite (body_events_count gd _ body IHb Hw1).
    by rewrite (body_events_count gd _ orelse IHo Hw2).
  - rewrite wf_While in Hwf. destruct Hwf as [Hw1 Hw2]. rewrite events_While.
    change (count_defs (While test body orelse))
      with (count_defs_body body + count_defs_body orelse).
    cbn [List.filter is_function_event]. rewrite !List.filter_app, !length_app.
    rewrite !(calls_no_function _ _ (expr_events_calls _ _)).
    rewrite (body_events_count gd _ body IHb Hw1).
    by rewrite (body_events_count gd _ orelse IHo Hw2).
  - rewrite wf_OtherNode in Hwf. rewrite events_OtherNode.
    change (count_defs (OtherNode children)) with (count_defs_children children).
    revert Hwf. induction IH as [|c r Hc _ IHr]; simpl; [done|].
    destruct c as [e|x].
    + intros Hwf. rewrite List.filter_app, length_app.
      rewrite (calls_no_function _ _ (expr_events_calls _ _)). by apply IHr.
    + intros [Hwx Hwr]. rewrite List.filter_app, length_app.
      by rewrite (Hc Hwx), (IHr Hwr).
Qed.

Lemma visit_Module_init gd body :
  wf_body body ->
  exists ex,
    visit_Module gd (Module body) init = Ok ex
    /\ structure ex
       = replay (body_events gd [] body)
           (set_module_name (Some "Module") (structure init)).
Proof.
  intros Hwf. destruct (visit_Module_total gd body init Hwf) as [ex Hex].
  exists ex. split; [done|].
  by rewrite (visit_Module_refines gd body _ _ ex Hex).
Qed.

(** *** Under which names the events of a tree are met *)

Lemma events_FunctionDef_raise gd scope name fargs body decorator_list returns e :
  function_args fargs = Raise e ->
  events gd scope (FunctionDef name fargs body decorator_list returns) = [].
Proof. intros H. simpl. by rewrite H. Qed.

Lemma calls_met_under sc l :
  Forall (fun ev => exists c, ev = ECall sc c) l -> Forall (met_under sc) l.
Proof.
  intros H. eapply Forall_impl; [exact H|].
  intros ev [c ->]. unfold met_under; simpl. reflexivity.
Qed.

Lemma variables_met_under sc l :
  Forall (fun ev => exists v, ev = EVariable sc v) l -> Forall (met_under sc) l.
Proof.
  intros H. eapply Forall_impl; [exact H|].
  intros ev [c ->]. unfold met_under; simpl. reflexivity.
Qed.

Lemma met_under_inner sc name ev : met_under (sc ++ [name]) ev -> met_under sc ev.
Proof.
  unfold met_under. destruct (event_scope ev); [|done].
  intros H. etrans; [|exact H]. by apply prefix_app_r.
Qed.

Lemma body_events_met_under gd sc body :
  Forall (fun node => forall sc, Forall (met_under sc) (events gd sc node)) body ->
  Forall (met_under sc) (body_events gd sc body).
Proof.
  induction 1 as [|x r Hx _ IH]; simpl; [constructor|].
  apply Forall_app. split; [apply Hx|apply IH].
Qed.

Lemma events_met_under gd node :
  forall sc, Forall (met_under sc) (events gd sc node).
Proof.
  induction node as
    [name bases_ keywords body decorator_list IH
    |name fargs body decorator_list returns IH
    |targets value|target ann value|names|module names
    |test body orelse IHb IHo|target iter body orelse IHb IHo
    |test body orelse IHb IHo|children IH] using stmt_ind';
    intros sc.
  - rewrite events_ClassDef. constructor; [unfold met_under; simpl; reflexivity|].
    eapply Forall_impl; [|intros ev; apply (met_under_inner sc name)].
    rewrite !Forall_app.
    repeat split;
      first [apply calls_met_under, exprs_events_calls
            |by apply body_events_met_under].
  - destruct (function_args fargs) as [args_list|e] eqn:Hargs.
    + rewrite (events_FunctionDef gd _ _ _ _ _ _ _ Hargs).
      constructor; [unfold met_under; simpl; reflexivity|].
      eapply Forall_impl; [|intros ev; apply (met_under_inner sc name)].
      rewrite !Forall_app.
      repeat split;
        first [apply calls_met_under, exprs_events_calls
              |apply calls_met_under, opt_expr_events_calls
              |apply calls_met_under, arguments_events_calls
              |by apply body_events_met_under].
    + rewrite (events_FunctionDef_raise gd _ _ _ _ _ _ _ Hargs). constructor.
  - simpl. rewrite !Forall_app.
    repeat split;
      first [apply variables_met_under, assign_events_variables
            |apply calls_met_under, exprs_events_calls
            |apply calls_met_under, expr_events_calls].
  - simpl. rewrite !Forall_app.
    repeat split;
      first [apply variables_met_under, annassign_events_variables
            |apply calls_met_under, opt_expr_events_calls
            |apply calls_met_under, expr_events_calls].
  - by repeat constructor.
  - by repeat constructor.
  - rewrite events_If. constructor; [unfold met_under; simpl; reflexivity|].
    rewrite !Forall_app.
    repeat split;
      first [apply calls_met_under, expr_events_calls
            |by apply body_events_met_under].
  - rewrite events_For. constructor; [unfold met_under; simpl; reflexivity|].
    rewrite !Forall_app.
    repeat split;
      first [apply calls_met_under, expr_events_calls
            |by apply body_events_met_under].
  - rewrite events_While. constructor; [unfold met_under; simpl; reflexivity|].
    rewrite !Forall_app.
    repeat split;
      first [apply calls_met_under, expr_events_calls
            |by apply body_events_met_under].
  - rewrite events_OtherNode.
    induction IH as [|c r Hc _ IHr]; simpl; [constructor|].
    destruct c as [e|x]; apply Forall_app; split; try done.
    apply calls_met_under, expr_events_calls.
Qed.

(** *** Properties *)

(** X1. The argument list of a function has one entry per
    positional-only, positional and keyword-only parameter, in that
    order, and each entry begins with ["name"] or ["name: annotation"] of
    its own parameter: the default-binding loops only ever append to an
    entry. ([*args] and [**kwargs] are not listed.) *)
Theorem function_args_keep_the_parameters (a : arguments) :
  wf_arguments a ->
  exists args_list,
    function_args a = Ok args_list
    /\ Forall2 (fun p s => exists sfx, s = format_arg p +:+ sfx)
         (parameters a) args_list.
Proof.
  intros Hwf. destruct (function_args_ok a Hwf) as [l Hl].
  exists l. split; [done|]. by apply function_args_prefixes.
Qed.

Lemma function_args_keep_the_parameters_witness :
  wf_arguments mixed_defaults
  /\ exists args_list,
       function_args mixed_defaults = Ok args_list
       /\ Forall2 (fun p s => exists sfx, s = format_arg p +:+ sfx)
            (parameters mixed_defaults) args_list.
Proof.
  assert (wf_arguments mixed_defaults) as Hwf by (cbv; split; [lia|done]).
  exact (conj Hwf (function_args_keep_the_parameters mixed_defaults Hwf)).
Defined.

(** X2. For a function without keyword-only parameters the defaults are
    bound right-aligned: the parameters before the last [k] (for [k]
    defaults) are listed bare, the last [k] are listed with
    ["=default"], in order. *)
Theorem positional_defaults_right_aligned (a : arguments) :
  kwonlyargs a = [] ->
  length (defaults a) <= length (posonlyargs a ++ args a) ->
  function_args a
  = Ok (map format_arg
          (take (length (posonlyargs a ++ args a) - length (defaults a))
             (posonlyargs a ++ args a))
        ++ zip_with (fun p d => format_arg p +:+ "=" +:+ _get_full_name d)
             (drop (length (posonlyargs a ++ args a) - length (defaults a))
                (posonlyargs a ++ args a))
             (defaults a)).
Proof.
  intros Hkw Hd. unfold function_args. rewrite Hkw, app_nil_r.
  set (ps := posonlyargs a ++ args a) in *.
  destruct (bind_defaults_spec (defaults a) (map format_arg ps))
    as (l' & -> & Hl' & Hlook); [by rewrite length_map|].
  simpl. f_equal. apply list_eq. intros p. rewrite Hlook.
  rewrite length_map in *. rewrite list_lookup_fmap. clear Hlook.
  set (n := length ps) in *. set (k := length (defaults a)) in *.
  destruct (decide (p < n - k)) as [Hlt|Hge].
  - rewrite decide_False by lia.
    rewrite lookup_app_l by (rewrite length_map, length_take; fold n; lia).
    rewrite list_lookup_fmap, lookup_take_lt by lia.
    destruct (ps !! p); simpl; [|done]. by rewrite PyStrFacts.append_nil_r.
  - rewrite lookup_app_r by (rewrite length_map, length_take; fold n; lia).
    rewrite length_map, length_take.
    rewrite (Nat.min_l (n - k) (length ps)) by (fold n; lia).
    rewrite lookup_zip_with, lookup_drop.
    replace (n - k + (p - (n - k))) with p by lia.
    destruct (ps !! p) as [x|] eqn:Ex; simpl; [|done].
    apply lookup_lt_Some in Ex. fold n in Ex.
    rewrite decide_True by lia.
    destruct (defaults a !! (p - (n - k))) as [d|] eqn:Ed; simpl; [done|].
    apply lookup_ge_None in Ed. fold k in Ed. lia.
Qed.

Lemma positional_defaults_right_aligned_witness :
  kwonlyargs one_default = []
  /\ length (defaults one_default)
     <= length (posonlyargs one_default ++ args one_default)
  /\ function_args one_default = Ok ["a"; "b=<?>"].
Proof.
  assert (kwonlyargs one_default = []) as H1 by reflexivity.
  assert (length (defaults one_default)
          <= length (posonlyargs one_default ++ args one_default)) as H2
      by (simpl; lia).
  exact (conj H1 (conj H2 (positional_defaults_right_aligned one_default H1 H2))).
Defined.

(** X3. For a function whose parameters are all keyword-only, every
    parameter is listed with its own default, if it has one: the
    negative indices of the loop count from the end of the list. *)
Theorem keyword_only_defaults_bound_in_place (a : arguments) :
  posonlyargs a = [] -> args a = [] -> defaults a = [] ->
  length (kw_defaults a) = length (kwonlyargs a) ->
  function_args a
  = Ok (zip_with
          (fun p d => format_arg p +:+
                      match d with
                      | Some e => "=" +:+ _get_full_name e
                      | None => ""
                      end)
          (kwonlyargs a) (kw_defaults a)).
Proof.
  intros Hp Ha Hd Hk. unfold function_args. rewrite Hp, Ha, Hd. simpl.
  by apply bind_kw_defaults_only.
Qed.

Lemma keyword_only_defaults_bound_in_place_witness :
  posonlyargs keyword_only_defaults = []
  /\ args keyword_only_defaults = []
  /\ defaults keyword_only_defaults = []
  /\ length (kw_defaults keyword_only_defaults)
     = length (kwonlyargs keyword_only_defaults)
  /\ function_args keyword_only_defaults = Ok ["c=x"; "d=y"].
Proof.
  exact (conj eq_refl (conj eq_refl (conj eq_refl (conj eq_refl
           (keyword_only_defaults_bound_in_place keyword_only_defaults
              eq_refl eq_refl eq_refl eq_refl))))).
Defined.

(** X5. What a completed visit of a module leaves in [calls]. A callee
    text is recorded under a key exactly when the tree holds a call
    with that text (or an [if], [for] or [while] statement with that
    label) whose chain of names is the one the key stands for:
    ["Module"] for the empty chain, the names joined by dots otherwise.
    The chain of a call is made of the names of the [ClassDef] and
    [FunctionDef] nodes in whose subtree the call lies, outermost
    first. The decorators, bases, keywords, defaults and annotations of
    a definition lie in its subtree, so a call made there is filed
    under the definition's own name; an [async def], a [lambda] or a
    comprehension is neither kind of node and adds no name, so a call
    in the body of an [async def] at top level is filed under
    ["Module"]. *)
Theorem calls_are_the_lexical_calls (gd : list stmt -> option string)
    (body : list stmt) (ex : CodeStructureExtractor) :
  visit_Module gd (Module body) init = Ok ex ->
  forall key callee,
    recorded key callee (calls (structure ex))
    <-> exists scope,
          ECall scope callee ∈ body_events gd [] body
          /\ key = Some (match scope with
                         | [] => "Module"
                         | _ => PyStr.join "." scope
                         end).
Proof.
  intros Hex. rewrite (visit_Module_refines gd body _ _ ex Hex). simpl.
  intros key callee. rewrite replay_recorded. split.
  - intros [(callees & Hget & _)|(scope & Hin & ->)]; [discriminate|].
    exists scope. split; [done|]. by destruct scope.
  - intros (scope & Hin & ->). right. exists scope. split; [done|].
    by destruct scope.
Qed.

Lemma calls_are_the_lexical_calls_witness :
  exists ex,
    visit_Module no_docstring (Module async_body) init = Ok ex
    /\ calls (structure ex) = [(Some "Module", ["print"]); (Some "g", ["deco"])]
    /\ forall key callee,
         recorded key callee (calls (structure ex))
         <-> exists scope,
               ECall scope callee ∈ body_events no_docstring [] async_body
               /\ key = Some (match scope with
                              | [] => "Module"
                              | _ => PyStr.join "." scope
                              end).
Proof.
  eexists. split; [reflexivity|]. split; [reflexivity|].
  exact (calls_are_the_lexical_calls no_docstring async_body _ eq_refl).
Defined.

Lemma module_assignments_body_events gd body :
  Forall (fun node => omap module_variable_of (events gd [] node)
                      = module_assignments node) body ->
  omap module_variable_of (body_events gd [] body)
  = module_assignments_body body.
Proof.
  induction 1 as [|x r Hx _ IH]; simpl; [done|].
  by rewrite omap_app, Hx, IH.
Qed.

Lemma inner_events_not_global name l :
  Forall (met_under [name]) l -> omap module_variable_of l = [].
Proof.
  induction 1 as [|ev r Hev _ IH]; [done|].
  change (ev :: r) with ([ev] ++ r). rewrite omap_app, IH, app_nil_r.
  destruct ev as [| | |[|n sc] v| |]; try done.
  unfold met_under in Hev. simpl in Hev. destruct Hev as [k Hk]. discriminate.
Qed.

Lemma calls_not_global sc l :
  Forall (fun ev => exists c, ev = ECall sc c) l ->
  omap module_variable_of l = [].
Proof.
  induction 1 as [|ev r [c ->] _ IH]; [done|].
  change (ECall sc c :: r) with ([ECall sc c] ++ r). by rewrite omap_app, IH.
Qed.

Ltac snoc_head :=
  match goal with
  | |- omap _ (?e :: ?l) = _ => change (e :: l) with ([e] ++ l)
  end.

Lemma module_assignments_events gd node :
  omap module_variable_of (events gd [] node) = module_assignments node.
Proof.
  induction node as
    [name bases_ keywords body decorator_list IH
    |name fargs body decorator_list returns IH
    |targets value|target ann value|names|module names
    |test body orelse IHb IHo|target iter body orelse IHb IHo
    |test body orelse IHb IHo|children IH] using stmt_ind'.
  - pose proof (events_met_under gd
                  (ClassDef name bases_ keywords body decorator_list) []) as Hm.
    rewrite events_ClassDef in *. apply Forall_cons in Hm as [_ Hm].
    snoc_head. clear IH.
    assert (Forall (met_under [name])
              (exprs_events ([] ++ [name]) bases_
               ++ exprs_events ([] ++ [name]) keywords
               ++ body_events gd ([] ++ [name]) body
               ++ exprs_events ([] ++ [name]) decorator_list)) as Hn.
    { rewrite !Forall_app.
      repeat split;
        first [apply calls_met_under, exprs_events_calls
              |apply body_events_met_under, Forall_forall;
               intros node _; apply events_met_under]. }
    by rewrite omap_app, (inner_events_not_global name _ Hn).
  - destruct (function_args fargs) as [args_list|e] eqn:Hargs.
    + rewrite (events_FunctionDef gd _ _ _ _ _ _ _ Hargs).
      snoc_head. clear IH.
      assert (Forall (met_under [name])
                (arguments_events ([] ++ [name]) fargs
                 ++ body_events gd ([] ++ [name]) body
                 ++ exprs_events ([] ++ [name]) decorator_list
                 ++ opt_expr_events ([] ++ [name]) returns)) as Hn.
      { rewrite !Forall_app.
        repeat split;
          first [apply calls_met_under, exprs_events_calls
                |apply calls_met_under, opt_expr_events_calls
                |apply calls_met_under, arguments_events_calls
                |apply body_events_met_under, Forall_forall;
                 intros node _; apply events_met_under]. }
      by rewrite omap_app, (inner_events_not_global name _ Hn).
    + by rewrite (events_FunctionDef_raise gd _ _ _ _ _ _ _ Hargs).
  - change (events gd [] (Assign targets value))
      with (assign_events [] targets value
            ++ exprs_events [] targets ++ expr_events [] value).
    rewrite !omap_app.
    rewrite (calls_not_global _ _ (exprs_events_calls _ _)).
    rewrite (calls_not_global _ _ (expr_events_calls _ _)).
    rewrite !app_nil_r. unfold assign_events.
    change (module_assignments (Assign targets value))
      with (omap (fun target =>
                    match target with
                    | Name id => Some (assign_record id value)
                    | _ => None
                    end) targets).
    induction targets as [|t r IHt]; [done|].
    change (t :: r) with ([t] ++ r). rewrite !omap_app, IHt.
    f_equal. by destruct t.
  - change (events gd [] (AnnAssign target ann value))
      with (annassign_events [] target ann value
            ++ expr_events [] target ++ expr_events [] ann
            ++ opt_expr_events [] value).
    rewrite !omap_app.
    rewrite !(calls_not_global _ _ (expr_events_calls _ _)).
    rewrite (calls_not_global _ _ (opt_expr_events_calls _ _)).
    rewrite !app_nil_r. by destruct target.
  - done.
  - done.
  - rewrite events_If.
    change (module_assignments (If test body orelse))
      with (module_assignments_body body ++ module_assignments_body orelse).
    snoc_head. rewrite !omap_app.
    rewrite (calls_not_global _ _ (expr_events_calls _ _)).
    by rewrite !module_assignments_body_events.
  - rewrite events_For.
    change (module_assignments (For target iter body orelse))
      with (module_assignments_body body ++ module_assignments_body orelse).
    snoc_head. rewrite !omap_app.
    rewrite !(calls_not_global _ _ (expr_events_calls _ _)).
    by rewrite !module_assignments_body_events.
  - rewrite events_While.
    change (module_assignments (While test body orelse))
      with (module_assignments_body body ++ module_assignments_body orelse).
    snoc_head. rewrite !omap_app.
    rewrite (calls_not_global _ _ (expr_events_calls _ _)).
    by rewrite !module_assignments_body_events.
  - rewrite events_OtherNode.
    change (module_assignments (OtherNode children))
      with (module_assignments_children children).
    induction IH as [|c r Hc _ IHr]; simpl; [done|].
    destruct c as [e|x]; rewrite omap_app.
    + by rewrite (calls_not_global _ _ (expr_events_calls _ _)).
    + by rewrite Hc, IHr.
Qed.

(** X6. After a completed visit of a module, the global variables are
    exactly the records of the simple-name targets of the [Assign] and
    [AnnAssign] statements that lie in no [ClassDef] and no
    [FunctionDef] subtree, in source order. Blocks that are neither
    ([if], [for], [while], [try], [with], and also [async def], for
    which the visitor has no method) hide nothing: an assignment in the
    body of a top-level [async def] is recorded as a global variable,
    one in the body of a [class] or [def] never is. *)
Theorem global_variables_are_module_level (gd : list stmt -> option string)
    (body : list stmt) (ex : CodeStructureExtractor) :
  visit_Module gd (Module body) init = Ok ex ->
  global_variables (structure ex) = module_assignments_body body.
Proof.
  intros Hex. rewrite (visit_Module_refines gd body _ _ ex Hex). simpl.
  rewrite replay_global_variables. simpl.
  apply module_assignments_body_events, Forall_forall.
  intros node _. apply module_assignments_events.
Qed.

Lemma global_variables_are_module_level_witness :
  exists ex,
    visit_Module no_docstring (Module async_body) init = Ok ex
    /\ map var_name (global_variables (structure ex)) = ["x"]
    /\ global_variables (structure ex) = module_assignments_body async_body.
Proof.
  eexists. split; [reflexivity|]. split; [reflexivity|].
  exact (global_variables_are_module_level no_docstring async_body _ eq_refl).
Defined.

(** X7. Every class definition of the tree, nested or not, gets one
    record, in source order, and its name, bases, docstring and
    decorators stay as they were registered: what is visited later only
    adds methods and attributes. *)
Theorem classes_in_definition_order (gd : list stmt -> option string)
    (body : list stmt) :
  wf_body body ->
  exists ex,
    visit_Module gd (Module body) init = Ok ex
    /\ map header (classes (structure ex))
       = omap class_of (body_events gd [] body).
Proof.
  intros Hwf. destruct (visit_Module_init gd body Hwf) as (ex & Hex & Hs).
  exists ex. split; [done|]. rewrite Hs. clear Hs Hex. by rewrite replay_headers.
Qed.

Lemma classes_in_definition_order_witness :
  wf_body demo_body
  /\ exists ex,
       visit_Module no_docstring (Module demo_body) init = Ok ex
       /\ map header (classes (structure ex))
          = omap class_of (body_events no_docstring [] demo_body).
Proof.
  assert (wf_body demo_body) as Hwf by (cbv; repeat split; lia).
  exact (conj Hwf (classes_in_definition_order no_docstring demo_body Hwf)).
Defined.

(** X8. No function definition is lost or recorded twice: the global
    functions and the methods of all classes together are as many as
    the [FunctionDef] nodes of the tree. *)
Theorem every_definition_recorded_once (gd : list stmt -> option string)
    (body : list stmt) :
  wf_body body ->
  exists ex,
    visit_Module gd (Module body) init = Ok ex
    /\ length (functions (structure ex))
       + sum_list (map (fun c => length (methods c)) (classes (structure ex)))
       = count_defs_body body.
Proof.
  intros Hwf. destruct (visit_Module_init gd body Hwf) as (ex & Hex & Hs).
  exists ex. split; [done|]. rewrite Hs. clear Hs Hex. rewrite replay_count. simpl.
  apply body_events_count; [|done].
  apply Forall_forall. intros node _ Hn sc. by apply events_count.
Qed.

Lemma every_definition_recorded_once_witness :
  wf_body demo_body
  /\ exists ex,
       visit_Module no_docstring (Module demo_body) init = Ok ex
       /\ length (functions (structure ex))
          + sum_list (map (fun c => length (methods c)) (classes (structure ex)))
          = count_defs_body demo_body.
Proof.
  assert (wf_body demo_body) as Hwf by (cbv; repeat split; lia).
  exact (conj Hwf (every_definition_recorded_once no_docstring demo_body Hwf)).
Defined.

End ExtractorMore.

(* ================================================================== *)
(** ** The text report *)
(* ================================================================== *)

Module TextMore.
Import Ast PyExn Extractor Lexical Outline Text Samples MoreSamples.
Import PyStrFacts ExtractorFacts ExtractorMore.

(** *** Sorting a set *)

Lemma sorted_set_ext (l l' : list string) :
  (forall x, x ∈ l <-> x ∈ l') -> sorted_set l = sorted_set l'.
Proof.
  intros Hll. unfold sorted_set, sorted.
  apply (Sorted_unique String.le); try apply Sorted_merge_sort; try apply _.
  rewrite !merge_sort_Permutation.
  apply NoDup_Permutation; try apply NoDup_remove_dups.
  intros x. by rewrite !elem_of_remove_dups.
Qed.

Lemma same_elements_nil (l l' : list string) :
  (forall x, x ∈ l <-> x ∈ l') -> l = [] -> l' = [].
Proof.
  intros Hll ->. destruct l' as [|x r]; [done|].
  exfalso. by apply (not_elem_of_nil x), Hll; left.
Qed.

Lemma imports_section_ext (s s' : Structure) :
  (forall x, x ∈ imports_direct s' <-> x ∈ imports_direct s) ->
  (forall x, x ∈ imports_from s' <-> x ∈ imports_from s) ->
  imports_section s' = imports_section s.
Proof.
  intros Hd Hf. unfold imports_section, import_lines, from_import_lines.
  rewrite (sorted_set_ext _ _ Hd), (sorted_set_ext _ _ Hf).
  destruct (imports_direct s) as [|d ds] eqn:Ed.
  - rewrite (same_elements_nil [] (imports_direct s')); [|by symmetry|done].
    destruct (imports_from s) as [|f fs] eqn:Ef.
    + by rewrite (same_elements_nil [] (imports_from s')); [|by symmetry|done].
    + destruct (imports_from s') as [|f' fs'] eqn:Ef'; [|done].
      exfalso. apply (not_elem_of_nil f), Hf. left.
  - destruct (imports_direct s') as [|d' ds'] eqn:Ed'; [|done].
    exfalso. apply (not_elem_of_nil d), Hd. left.
Qed.

(** *** The first dot *)

Lemma split_first_dot_dotfree (s : string) :
  PyStr.dotfree s = true -> split_first_dot s = inl s.
Proof.
  induction s as [|c r IH]; simpl; [done|].
  destruct (Ascii.eqb c "."); simpl; [done|]. intros Hr. by rewrite IH.
Qed.

Lemma split_first_dot_at (a b : string) :
  PyStr.dotfree a = true -> split_first_dot (a +:+ "." +:+ b) = inr (a, b).
Proof.
  induction a as [|c r IH]; intros Ha.
  - by rewrite append_nil_l.
  - rewrite append_cons. simpl in *.
    destruct (Ascii.eqb c "."); simpl in *; [done|]. by rewrite IH.
Qed.

(** *** The outermost name of an event *)

Lemma met_under_outermost (P : string -> Prop) name ev :
  P name -> met_under [name] ev -> outermost P ev.
Proof.
  unfold met_under, outermost. intros HP.
  destruct (event_scope ev) as [[|n r]|]; try done.
  intros [k Hk]. by inversion Hk; subst.
Qed.

Lemma calls_outermost (P : string -> Prop) l :
  Forall (fun ev => exists c, ev = ECall [] c) l -> Forall (outermost P) l.
Proof. intros H. eapply Forall_impl; [exact H|]. by intros ev [c ->]. Qed.

Lemma variables_outermost (P : string -> Prop) l :
  Forall (fun ev => exists v, ev = EVariable [] v) l -> Forall (outermost P) l.
Proof. intros H. eapply Forall_impl; [exact H|]. by intros ev [c ->]. Qed.

Lemma body_events_outermost gd (P : string -> Prop) body :
  Forall (fun node => outer_defs P node ->
                      Forall (outermost P) (events gd [] node)) body ->
  outer_defs_body P body ->
  Forall (outermost P) (body_events gd [] body).
Proof.
  induction 1 as [|x r Hx _ IH]; simpl; [constructor|]. intros [H1 H2].
  apply Forall_app. split; [by apply Hx|by apply IH].
Qed.

Lemma events_outermost gd (P : string -> Prop) node :
  outer_defs P node -> Forall (outermost P) (events gd [] node).
Proof.
  induction node as
    [name bases_ keywords body decorator_list IH
    |name fargs body decorator_list returns IH
    |targets value|target ann value|names|module names
    |test body orelse IHb IHo|target iter body orelse IHb IHo
    |test body orelse IHb IHo|children IH] using stmt_ind';
    intros Hout.
  - pose proof (events_met_under gd
                  (ClassDef name bases_ keywords body decorator_list) []) as Hm.
    rewrite events_ClassDef in *. apply Forall_cons in Hm as [_ Hm].
    constructor; [done|]. clear IH.
    assert (Forall (met_under [name])
              (exprs_events ([] ++ [name]) bases_
               ++ exprs_events ([] ++ [name]) keywords
               ++ body_events gd ([] ++ [name]) body
               ++ exprs_events ([] ++ [name]) decorator_list)) as Hn.
    { rewrite !Forall_app.
      repeat split;
        first [apply calls_met_under, exprs_events_calls
              |apply body_events_met_under, Forall_forall;
               intros node _; apply events_met_under]. }
    eapply Forall_impl; [exact Hn|]. intros ev.
    by apply met_under_outermost.
  - destruct (function_args fargs) as [args_list|e] eqn:Hargs.
    + rewrite (events_FunctionDef gd _ _ _ _ _ _ _ Hargs).
      constructor; [done|]. clear IH.
      assert (Forall (met_under [name])
                (arguments_events ([] ++ [name]) fargs
                 ++ body_events gd ([] ++ [name]) body
                 ++ exprs_events ([] ++ [name]) decorator_list
                 ++ opt_expr_events ([] ++ [name]) returns)) as Hn.
      { rewrite !Forall_app.
        repeat split;
          first [apply calls_met_under, exprs_events_calls
                |apply calls_met_under, opt_expr_events_calls
                |apply calls_met_under, arguments_events_calls
                |apply body_events_met_under, Forall_forall;
                 intros node _; apply events_met_under]. }
      eapply Forall_impl; [exact Hn|]. intros ev.
      by apply met_under_outermost.
    + rewrite (events_FunctionDef_raise gd _ _ _ _ _ _ _ Hargs). constructor.
  - simpl. rewrite !Forall_app.
    repeat split;
      first [apply variables_outermost, assign_events_variables
            |apply calls_outermost, exprs_events_calls
            |apply calls_outermost, expr_events_calls].
  - simpl. rewrite !Forall_app.
    repeat split;
      first [apply variables_outermost, annassign_events_variables
            |apply calls_outermost, opt_expr_events_calls
            |apply calls_outermost, expr_events_calls].
  - by repeat constructor.
  - by repeat constructor.
  - change (outer_defs P (If test body orelse))
      with (outer_defs_body P body /\ outer_defs_body P orelse) in Hout.
    destruct Hout as [H1 H2].
    rewrite events_If. constructor; [done|]. rewrite !Forall_app.
    repeat split;
      first [apply calls_outermost, expr_events_calls
            |by apply body_events_outermost].
  - change (outer_defs P (For target iter body orelse))
      with (outer_defs_body P body /\ outer_defs_body P orelse) in Hout.
    destruct Hout as [H1 H2].
    rewrite events_For. constructor; [done|]. rewrite !Forall_app.
    repeat split;
      first [apply calls_outermost, expr_events_calls
            |by apply body_events_outermost].
  - change (outer_defs P (While test body orelse))
      with (outer_defs_body P body /\ outer_defs_body P orelse) in Hout.
    destruct Hout as [H1 H2].
    rewrite events_While. constructor; [done|]. rewrite !Forall_app.
    repeat split;
      first [apply calls_outermost, expr_events_calls
            |by apply body_events_outermost].
  - change (outer_defs P (OtherNode children))
      with (outer_defs_children P children) in Hout.
    rewrite events_OtherNode. revert Hout.
    induction IH as [|c r Hc _ IHr]; simpl; [constructor|].
    destruct c as [e|x].
    + intros Hout. apply Forall_app. split; [|by apply IHr].
      apply calls_outermost, expr_events_calls.
    + intros [H1 H2]. apply Forall_app. split; [by apply Hc|by apply IHr].
Qed.

(** *** The keys the report looks up *)

Lemma join_cons (sep x : string) (l : list string) :
  PyStr.join sep (x :: l)
  = match l with [] => x | _ => x +:+ sep +:+ PyStr.join sep l end.
Proof. by destruct l. Qed.

Lemma scope_key_not_qualified (scope : list string) (x : string) :
  match scope with [] => True | name :: _ => not_the_module name end ->
  scope_id scope (Some "Module") <> Some ("Module" +:+ "." +:+ x).
Proof.
  destruct scope as [|n rest].
  - simpl. by intros _ [= H].
  - intros [Hdf Hne]. unfold scope_id. rewrite join_cons.
    destruct rest as [|n' rest'].
    + intros [= H]. by apply (dotfree_no_dot n "Module" x) in H.
    + intros [= H]. by apply dotfree_split in H as [-> _].
Qed.

Lemma dict_get_None_not_recorded (k : option string)
    (d : list (option string * list string)) :
  dict_wf d -> (forall c, ~ recorded k c d) -> dict_get k d = None.
Proof.
  intros [_ Hne] Hnot. destruct (dict_get k d) as [callees|] eqn:Hget; [|done].
  exfalso. assert ((k, callees) ∈ d) as Hin.
  { clear Hne Hnot. induction d as [|[k' v] r IH]; simpl in Hget; [done|].
    destruct (decide (k = k')) as [->|]; [inversion Hget; left|right; auto]. }
  rewrite Forall_forall in Hne. destruct (Hne _ Hin) as [_ Hnil]. simpl in Hnil.
  destruct callees as [|c cs]; [done|].
  apply (Hnot c). exists (c :: cs). split; [done|left].
Qed.

Lemma extracted_has_no_qualified_key gd body x :
  outer_defs_body not_the_module body ->
  dict_get (Some ("Module" +:+ "." +:+ x))
    (calls (replay (body_events gd [] body)
              (set_module_name (Some "Module") (structure init))))
  = None.
Proof.
  intros Hout. apply dict_get_None_not_recorded.
  - apply replay_dict_wf. split; constructor.
  - intros c. rewrite replay_recorded.
    intros [(callees & Hget & _)|(scope & Hin & Hk)]; [discriminate|].
    simpl in Hk. symmetry in Hk. revert Hk. apply scope_key_not_qualified.
    assert (Forall (outermost not_the_module) (body_events gd [] body)) as Hall.
    { apply body_events_outermost; [|done].
      apply Forall_forall. intros node _. apply events_outermost. }
    rewrite Forall_forall in Hall. specialize (Hall _ Hin).
    unfold outermost in Hall. simpl in Hall. by destruct scope.
Qed.

(** *** When the report raises *)

Section raising.
Variable str_strip : string -> string.
Variable str_splitlines : string -> list string.

Local Abbreviation blank :=
  (fun d : string => Graph.truthy d = true /\ str_splitlines (str_strip d) = []).
Local Abbreviation lined :=
  (fun d : string => Graph.truthy d = true -> str_splitlines (str_strip d) <> []).
Local Abbreviation no_line := (IndexError "list index out of range").

(** a step either raises on a blank docstring among [docs], or
    returns and all of [docs] have a line *)
Local Abbreviation outcome docs r :=
  ((Exists blank docs /\ r = Raise no_line)
   \/ (Forall lined docs /\ exists v, r = Ok v)).

Lemma doc_line_outcome indent o :
  outcome (option_list o) (doc_line str_strip str_splitlines indent o).
Proof.
  destruct o as [d|]; simpl; [|right; split; [constructor|by eexists]].
  destruct (Graph.truthy d) eqn:Ht;
    [|right; split; [constructor; [congruence|constructor]|by eexists]].
  destruct (str_splitlines (str_strip d)) as [|l ls] eqn:Hl; simpl.
  - left. split; [|done]. by left.
  - right. split; [|by eexists]. repeat constructor. by rewrite Hl.
Qed.

Lemma flat_mapM_outcome {A} (f : A -> result (list string))
    (docs : A -> list string) (l : list A) :
  (forall x, outcome (docs x) (f x)) ->
  outcome (flat_map docs l) (flat_mapM f l).
Proof.
  intros Hf. induction l as [|x r IH]; simpl.
  - right. split; [constructor|by eexists].
  - destruct (Hf x) as [[Hx ->]|[Hx [v ->]]]; simpl.
    + left. split; [|done]. apply Exists_app. by left.
    + destruct IH as [[Hr ->]|[Hr [v' ->]]]; simpl.
      * left. split; [|done]. apply Exists_app. by right.
      * right. split; [|by eexists]. apply Forall_app. by split.
Qed.

Lemma omap_flat_map {A B} (f : A -> option B) (l : list A) :
  omap f l = flat_map (fun x => option_list (f x)) l.
Proof.
  induction l as [|x r IH]; simpl; [done|]. rewrite <- IH. by destruct (f x).
Qed.

Lemma function_lines_outcome s f :
  outcome (option_list (func_docstring f))
    (function_lines str_strip str_splitlines s f).
Proof.
  unfold function_lines.
  destruct (doc_line_outcome "    " (func_docstring f))
    as [[H ->]|[H [v ->]]]; simpl; [by left|right; split; [done|by eexists]].
Qed.

Lemma method_lines_outcome s c m :
  outcome (option_list (func_docstring m))
    (method_lines str_strip str_splitlines s c m).
Proof.
  unfold method_lines.
  destruct (doc_line_outcome "        " (func_docstring m))
    as [[H ->]|[H [v ->]]]; simpl; [by left|right; split; [done|by eexists]].
Qed.

Lemma functions_section_outcome s :
  outcome (omap func_docstring (functions s))
    (functions_section str_strip str_splitlines s).
Proof.
  unfold functions_section. rewrite omap_flat_map.
  destruct (functions s) as [|f fs] eqn:Ef.
  - right. split; [constructor|by eexists].
  - destruct (flat_mapM_outcome (function_lines str_strip str_splitlines s)
                (fun f => option_list (func_docstring f)) (f :: fs)
                (function_lines_outcome s))
      as [[H ->]|[H [v ->]]]; simpl; [by left|right; split; [done|by eexists]].
Qed.

Lemma methods_lines_outcome s c :
  outcome (omap func_docstring (methods c))
    (methods_lines str_strip str_splitlines s c).
Proof.
  unfold methods_lines. rewrite omap_flat_map.
  destruct (methods c) as [|m ms] eqn:Em.
  - right. split; [constructor|by eexists].
  - destruct (flat_mapM_outcome (method_lines str_strip str_splitlines s c)
                (fun m => option_list (func_docstring m)) (m :: ms)
                (method_lines_outcome s c))
      as [[H ->]|[H [v ->]]]; simpl; [by left|right; split; [done|by eexists]].
Qed.

Lemma class_lines_outcome s c :
  outcome (option_list (class_docstring c) ++ omap func_docstring (methods c))
    (class_lines str_strip str_splitlines s c).
Proof.
  unfold class_lines.
  destruct (doc_line_outcome "    " (class_docstring c))
    as [[H ->]|[H [v ->]]]; simpl.
  - left. split; [|done]. apply Exists_app. by left.
  - destruct (methods_lines_outcome s c) as [[H' ->]|[H' [v' ->]]]; simpl.
    + left. split; [|done]. apply Exists_app. by right.
    + right. split; [|by eexists]. apply Forall_app. by split.
Qed.

Lemma classes_section_outcome s :
  outcome (flat_map (fun c => option_list (class_docstring c)
                              ++ omap func_docstring (methods c)) (classes s))
    (classes_section str_strip str_splitlines s).
Proof.
  unfold classes_section.
  destruct (classes s) as [|c cs] eqn:Ec.
  - right. split; [constructor|by eexists].
  - destruct (flat_mapM_outcome (class_lines str_strip str_splitlines s)
                (fun c => option_list (class_docstring c)
                          ++ omap func_docstring (methods c)) (c :: cs)
                (class_lines_outcome s))
      as [[H ->]|[H [v ->]]]; simpl; [by left|right; split; [done|by eexists]].
Qed.

End raising.

(** *** Properties *)

(** X9. The text report depends on the imports only as sets: recording
    an import twice, or the imports in another order, gives the same
    report. *)
Theorem report_ignores_import_order_and_repeats
    (str_strip : string -> string) (str_splitlines : string -> list string)
    (s : Structure) (direct' from' : list string) :
  (forall x, x ∈ direct' <-> x ∈ imports_direct s) ->
  (forall x, x ∈ from' <-> x ∈ imports_from s) ->
  format_structure_text str_strip str_splitlines
    (Some (set_imports_direct direct' (set_imports_from from' s)))
  = format_structure_text str_strip str_splitlines (Some s).
Proof.
  intros Hd Hf.
  set (s' := set_imports_direct direct' (set_imports_from from' s)).
  assert (imports_section s' = imports_section s) as Himp
      by (apply imports_section_ext; destruct s; assumption).
  unfold format_structure_text, output_lines. rewrite Himp.
  assert (functions_section str_strip str_splitlines s'
          = functions_section str_strip str_splitlines s) as ->
      by (destruct s; reflexivity).
  assert (classes_section str_strip str_splitlines s'
          = classes_section str_strip str_splitlines s) as ->
      by (destruct s; reflexivity).
  assert (globals_section s' = globals_section s) as ->
      by (destruct s; reflexivity).
  assert (module_calls_section s' = module_calls_section s) as ->
      by (destruct s; reflexivity).
  assert (module_name s' = module_name s) as -> by (destruct s; reflexivity).
  done.
Qed.

Lemma report_ignores_import_order_and_repeats_witness :
  (forall x, x ∈ ["os"; "sys"] <-> x ∈ imports_direct (structure_of demo))
  /\ (forall x, x ∈ ["x"; "os.path.join"] <-> x ∈ imports_from (structure_of demo))
  /\ format_structure_text strip_nothing one_line
       (Some (set_imports_direct ["os"; "sys"]
                (set_imports_from ["x"; "os.path.join"] (structure_of demo))))
     = format_structure_text strip_nothing one_line (Some (structure_of demo)).
Proof.
  assert (forall x, x ∈ ["os"; "sys"] <-> x ∈ imports_direct (structure_of demo))
    as Hd by (intros x; change (x ∈ ["os"; "sys"] <-> x ∈ ["sys"; "os"; "os"]);
              rewrite !elem_of_cons, !elem_of_nil; tauto).
  assert (forall x, x ∈ ["x"; "os.path.join"]
                    <-> x ∈ imports_from (structure_of demo))
    as Hf by (intros x;
              change (x ∈ ["x"; "os.path.join"] <-> x ∈ ["os.path.join"; "x"]);
              rewrite !elem_of_cons, !elem_of_nil; tauto).
  exact (conj Hd (conj Hf
           (report_ignores_import_order_and_repeats strip_nothing one_line
              (structure_of demo) ["os"; "sys"] ["x"; "os.path.join"] Hd Hf))).
Defined.

(** X10. How a [from ... import name] comes out of the report. The
    extractor keeps only the text [module.name]; the report cuts it at
    its first dot. So an import from a module without a dot in its name
    is shown as written, an import from a dotted module [a.b] is shown
    as [from a import b.name], and a relative import without a module
    is shown as [from . import name]. *)
Theorem from_import_line_of_recorded_name :
  (forall m name,
      PyStr.dotfree m = true -> m <> "" ->
      from_import_line (import_from_name (Some m) name)
      = "  - from " +:+ m +:+ " import " +:+ name)
  /\ (forall a b name,
        PyStr.dotfree a = true ->
        from_import_line (import_from_name (Some (a +:+ "." +:+ b)) name)
        = "  - from " +:+ a +:+ " import " +:+ b +:+ "." +:+ name)
  /\ (forall name,
        PyStr.dotfree name = true ->
        from_import_line (import_from_name None name)
        = "  - from . import " +:+ name).
Proof.
  split; [|split].
  - intros m name Hm Hne. unfold import_from_name, from_import_line.
    rewrite decide_False by done. by rewrite split_first_dot_at.
  - intros a b name Ha. unfold import_from_name, from_import_line.
    rewrite decide_False by (destruct a; rewrite ?append_cons, ?append_nil_l; done).
    by rewrite !append_assoc, split_first_dot_at.
  - intros name Hn. unfold import_from_name, from_import_line.
    by rewrite split_first_dot_dotfree.
Qed.

Lemma from_import_line_of_recorded_name_witness :
  from_import_line (import_from_name (Some "os") "sep") = "  - from os import sep"
  /\ from_import_line (import_from_name (Some "os.path") "join")
     = "  - from os import path.join"
  /\ from_import_line (import_from_name None "x") = "  - from . import x".
Proof.
  destruct from_import_line_of_recorded_name as (H1 & H2 & H3).
  exact (conj (H1 "os" "sep" eq_refl ltac:(discriminate))
           (conj (H2 "os" "path" "join" eq_refl) (H3 "x" eq_refl))).
Defined.

(** X11. In the report of an extracted module, no function and no
    method gets a [Calls:] block. The extractor files the calls made in
    [foo] under the key ["foo"] and those made in the method [m] of [A]
    under ["A.m"], while the report looks them up under ["Module.foo"]
    and ["Module.A.m"]; these keys do not exist as long as no outermost
    class or function is itself called [Module]. The lines of a
    function or method are then its [def] line and, if it has a
    docstring, the [Doc:] line. *)
Theorem calls_of_definitions_are_never_listed
    (str_strip : string -> string) (str_splitlines : string -> list string)
    (gd : list stmt -> option string) (body : list stmt) :
  wf_body body ->
  outer_defs_body not_the_module body ->
  exists ex,
    visit_Module gd (Module body) init = Ok ex
    /\ (forall f,
          function_lines str_strip str_splitlines (structure ex) f
          = (doc ← doc_line str_strip str_splitlines "    " (func_docstring f);
             Ok (def_line "  " f :: doc)))
    /\ (forall c m,
          method_lines str_strip str_splitlines (structure ex) c m
          = (doc ← doc_line str_strip str_splitlines "        " (func_docstring m);
             Ok (def_line "      " m :: doc))).
Proof.
  intros Hwf Hout. destruct (visit_Module_init gd body Hwf) as (ex & Hex & Hs).
  exists ex. split; [done|]. rewrite Hs. clear Hs Hex.
  split.
  - intros f. unfold function_lines, calls_block.
    rewrite replay_module_name. simpl PyStr.str_of.
    rewrite extracted_has_no_qualified_key by done.
    destruct (doc_line _ _ _ _); simpl; [|done]. by rewrite app_nil_r.
  - intros c m. unfold method_lines, calls_block.
    rewrite replay_module_name. simpl PyStr.str_of.
    rewrite extracted_has_no_qualified_key by done.
    destruct (doc_line _ _ _ _); simpl; [|done]. by rewrite app_nil_r.
Qed.

Lemma calls_of_definitions_are_never_listed_witness :
  wf_body demo_body
  /\ outer_defs_body not_the_module demo_body
  /\ exists ex,
       visit_Module no_docstring (Module demo_body) init = Ok ex
       /\ (forall f,
             function_lines strip_nothing one_line (structure ex) f
             = (doc ← doc_line strip_nothing one_line "    " (func_docstring f);
                Ok (def_line "  " f :: doc)))
       /\ (forall c m,
             method_lines strip_nothing one_line (structure ex) c m
             = (doc ← doc_line strip_nothing one_line "        "
                        (func_docstring m);
                Ok (def_line "      " m :: doc))).
Proof.
  assert (wf_body demo_body) as Hwf by (cbv; repeat split; lia).
  assert (outer_defs_body not_the_module demo_body) as Hout
      by (cbv; repeat split; discriminate).
  exact (conj Hwf (conj Hout
           (calls_of_definitions_are_never_listed strip_nothing one_line
              no_docstring demo_body Hwf Hout))).
Defined.

(** X12. The one way the text report can fail: [format_structure_text]
    raises [IndexError] when a function, class or method has a
    non-empty docstring that is left without a single line once
    stripped (the code takes line [0] of it); otherwise it returns the
    report. *)
Theorem report_fails_only_on_blank_docstring
    (str_strip : string -> string) (str_splitlines : string -> list string)
    (s : Structure) :
  (Exists (fun d => Graph.truthy d = true /\ str_splitlines (str_strip d) = [])
     (printed_docstrings s)
   /\ format_structure_text str_strip str_splitlines (Some s)
      = Raise (IndexError "list index out of range"))
  \/ (Forall (fun d => Graph.truthy d = true -> str_splitlines (str_strip d) <> [])
        (printed_docstrings s)
      /\ exists text,
           format_structure_text str_strip str_splitlines (Some s) = Ok text).
Proof.
  unfold format_structure_text, output_lines, printed_docstrings.
  destruct (functions_section_outcome str_strip str_splitlines s)
    as [[H ->]|[H [v ->]]]; simpl.
  - left. split; [|done]. apply Exists_app. by left.
  - destruct (classes_section_outcome str_strip str_splitlines s)
      as [[H' ->]|[H' [v' ->]]]; simpl.
    + left. split; [|done]. apply Exists_app. by right.
    + right. split; [|by eexists]. apply Forall_app. by split.
Qed.

End TextMore.

(* ================================================================== *)
(** ** The graph as a whole *)
(* ================================================================== *)

Module GraphMore.
Import PyExn Extractor Graph Drawing Samples MoreSamples PyStrFacts GraphFacts.

(** *** One call on the graph at a time *)

Lemma dot_add x b : dot (add x b) = dot b.
Proof. reflexivity. Qed.

Lemma node_names_emit c b :
  node_names (dot (emit c b)) = node_names (dot b) ++ node_names [c].
Proof. unfold emit; simpl. apply node_names_app. Qed.

Lemma closed_snoc l c :
  closed l ->
  (forall x, x ∈ edge_ends c -> x ∈ node_names (l ++ [c])) ->
  closed (l ++ [c]).
Proof.
  intros Hl Hc c' x Hin Hx. apply elem_of_app in Hin as [Hin|Hin].
  - rewrite node_names_app. apply elem_of_app. left. by eapply Hl.
  - apply list_elem_of_singleton in Hin. subst c'. by apply Hc.
Qed.

Lemma sound_weaken (Q Q' : string -> Prop) b :
  (forall x, Q' x -> Q x) -> sound_with Q b -> sound_with Q' b.
Proof. intros HQ (Ht & Hc & Hq). repeat split; auto; apply Ht. Qed.

Lemma sound_known (Q : string -> Prop) b :
  sound_with Q b -> sound_with (fun x => x ∈ all_nodes b) b.
Proof. intros (Ht & Hc & Hq). repeat split; auto; apply Ht. Qed.

Lemma sound_attr Q cl l a b :
  sound_with Q b -> sound_with Q (emit (DotAttr cl l a) b).
Proof.
  intros (Ht & Hc & Hq). split; [|split; [|done]].
  - intros x. rewrite node_names_emit. simpl. rewrite app_nil_r. apply Ht.
  - apply closed_snoc; [done|]. intros x Hx. by apply elem_of_nil in Hx.
Qed.

Lemma sound_node Q cl x l a b :
  sound_with Q b ->
  sound_with (fun y => Q y \/ y = x) (add x (emit (DotNode cl x l a) b)).
Proof.
  intros (Ht & Hc & Hq). split; [|split].
  - intros y. unfold add, emit; simpl. rewrite node_names_app. simpl.
    rewrite elem_of_app, list_elem_of_singleton, elem_of_union, elem_of_singleton.
    rewrite (Ht y). tauto.
  - apply closed_snoc; [done|]. intros y Hy. by apply elem_of_nil in Hy.
  - intros y [Hy| ->]; unfold add; simpl.
    + apply elem_of_union. right. by apply Hq.
    + apply elem_of_union. left. by apply elem_of_singleton.
Qed.

Lemma sound_edge Q cl t h l a b :
  sound_with Q b -> t ∈ all_nodes b -> h ∈ all_nodes b ->
  sound_with Q (emit (DotEdge cl t h l a) b).
Proof.
  intros (Ht & Hc & Hq) Htl Hhd. split; [|split; [|done]].
  - intros x. rewrite node_names_emit. simpl. rewrite app_nil_r. apply Ht.
  - apply closed_snoc; [done|]. intros x Hx.
    rewrite node_names_app. apply elem_of_app. left. apply Ht.
    simpl in Hx. apply elem_of_cons in Hx as [->|Hx]; [done|].
    apply list_elem_of_singleton in Hx. by subst.
Qed.

Lemma sound_covers Q b x : sound_with Q b -> Q x -> x ∈ all_nodes b.
Proof. intros (_ & _ & Hq). apply Hq. Qed.

(** a node and the edge that ties it to a node already there *)
Lemma sound_node_edge (Q : string -> Prop) cl cl' t x l l' a a' b :
  sound_with Q b -> Q t ->
  sound_with (fun y => Q y \/ y = x)
    (add x (emit (DotEdge cl' t x l' a') (emit (DotNode cl x l a) b))).
Proof.
  intros Hb Hqt.
  change (add x (emit (DotEdge cl' t x l' a') (emit (DotNode cl x l a) b)))
    with (emit (DotEdge cl' t x l' a') (add x (emit (DotNode cl x l a) b))).
  pose proof (sound_node Q cl x l a b Hb) as Hn.
  apply sound_edge; [done| |].
  - apply (sound_covers _ _ t Hn). by left.
  - apply (sound_covers _ _ x Hn). by right.
Qed.

(** *** The declarations *)

Section declarations.
Variable s : Structure.

Lemma add_module_sound Q b :
  sound_with Q b ->
  sound_with (fun y => Q y \/ y = module_id s) (add_module s b).
Proof. intros Hb. unfold add_module. by apply sound_node, sound_attr. Qed.

Lemma add_globals_sound (Q : string -> Prop) b :
  Q (module_id s) -> sound_with Q b -> sound_with Q (add_globals s b).
Proof.
  intros Hm Hb. unfold add_globals. destruct (global_variables s); [done|].
  eapply sound_weaken; [|by apply sound_node_edge]. simpl. auto.
Qed.

Lemma add_function_sound (Q : string -> Prop) b f :
  Q (module_id s) -> sound_with Q b -> sound_with Q (add_function s b f).
Proof.
  intros Hm Hb. unfold add_function.
  eapply sound_weaken; [|by apply sound_node_edge]. simpl. auto.
Qed.

Lemma add_attribute_node_sound (Q : string -> Prop) c b a :
  Q (class_id s (class_name c)) -> sound_with Q b ->
  sound_with Q (add_attribute_node s c b a).
Proof.
  intros Hm Hb. unfold add_attribute_node.
  eapply sound_weaken; [|by apply sound_node_edge]. simpl. auto.
Qed.

Lemma add_method_node_sound (Q : string -> Prop) c b m :
  Q (class_id s (class_name c)) -> sound_with Q b ->
  sound_with Q (add_method_node s c b m).
Proof.
  intros Hm Hb. unfold add_method_node.
  eapply sound_weaken; [|by apply sound_node_edge]. simpl. auto.
Qed.

Lemma add_class_sound (Q : string -> Prop) b c :
  Q (module_id s) -> sound_with Q b -> sound_with Q (add_class s b c).
Proof.
  intros Hm Hb. unfold add_class.
  apply (sound_weaken (fun y => Q y \/ y = class_id s (class_name c)));
    [auto|].
  apply fold_left_preserves;
    [intros b1 m; apply add_method_node_sound; by right|].
  apply fold_left_preserves;
    [intros b1 a; apply add_attribute_node_sound; by right|].
  apply sound_edge.
  - by apply sound_node, sound_attr.
  - unfold add, emit; simpl. apply elem_of_union. right.
    eapply sound_covers; eauto.
  - unfold add; simpl. apply elem_of_union. left. by apply elem_of_singleton.
Qed.

Lemma declare_sound :
  sound_with (fun y => y = module_id s) (declare s (mk_builder [] ∅)).
Proof.
  unfold declare.
  apply fold_left_preserves; [intros b c; by apply add_class_sound|].
  apply fold_left_preserves; [intros b f; by apply add_function_sound|].
  apply add_globals_sound; [done|].
  eapply sound_weaken; [|apply (add_module_sound (fun _ => False))].
  - simpl. auto.
  - split; [|split]; [intros x; set_solver|intros c x Hc; by apply elem_of_nil in Hc|done].
Qed.
End declarations.

(** *** Placeholders, call edges and inheritance edges *)

Lemma fold_left_preserves_in {A B} (P : A -> Prop) (f : A -> B -> A)
    (l : list B) :
  (forall a x, x ∈ l -> P a -> P (f a x)) ->
  forall a, P a -> P (fold_left f l a).
Proof.
  induction l as [|x l IH]; intros Hf a Ha; simpl; [done|].
  apply IH; [intros a' y Hy; apply Hf; by right|]. apply Hf; [left|done].
Qed.

Lemma foldM_preserves_in {A B} (P : A -> Prop) (f : A -> B -> result A)
    (l : list B) :
  (forall a x a', x ∈ l -> P a -> f a x = Ok a' -> P a') ->
  forall a a', P a -> foldM f l a = Ok a' -> P a'.
Proof.
  induction l as [|x l IH]; intros Hf a a' Ha Hfold; simpl in Hfold.
  - by inversion Hfold; subst.
  - destruct (f a x) as [a1|] eqn:E; [|discriminate]. simpl in Hfold.
    eapply IH; [| |done].
    + intros a2 y a3 Hy. apply Hf. by right.
    + eapply Hf; [left|done|done].
Qed.

Lemma known_true x b : known x b = true -> x ∈ all_nodes b.
Proof. unfold known. apply bool_decide_eq_true_1. Qed.

Lemma known_false x b : known x b = false -> x ∉ all_nodes b.
Proof. unfold known. apply bool_decide_eq_false_1. Qed.

Lemma fresh_node base cl x l a b :
  tracked b -> known x b = false -> fresh_over base (dot b) ->
  fresh_over base (dot (add x (emit (DotNode cl x l a) b))).
Proof.
  intros Ht Hx (extra & Hn & Hnd & Hbase).
  apply known_false in Hx. rewrite (Ht x), Hn, elem_of_app in Hx.
  exists (extra ++ [x]). split; [|split].
  - unfold add, emit; simpl. rewrite node_names_app, Hn, <- app_assoc. done.
  - apply NoDup_app. split; [done|]. split; [|apply NoDup_singleton].
    intros y Hy Hyx. apply list_elem_of_singleton in Hyx. subst y. tauto.
  - intros y Hy. apply elem_of_app in Hy as [Hy|Hy]; [by apply Hbase|].
    apply list_elem_of_singleton in Hy. subst y. tauto.
Qed.

Lemma fresh_edge base cl t h l a b :
  fresh_over base (dot b) -> fresh_over base (dot (emit (DotEdge cl t h l a) b)).
Proof.
  intros (extra & Hn & Hnd & Hbase). exists extra. split; [|done].
  rewrite node_names_emit. simpl. by rewrite app_nil_r.
Qed.

(** a node made only if its id is not known yet *)
Lemma placeholder_sound (Q : string -> Prop) base cl x l a b :
  sound_with Q b /\ fresh_over base (dot b) ->
  known x b = false ->
  sound_with (fun y => Q y \/ y = x) (add x (emit (DotNode cl x l a) b))
  /\ fresh_over base (dot (add x (emit (DotNode cl x l a) b))).
Proof.
  intros [Hb Hf] Hx. split; [by apply sound_node|].
  apply fresh_node; [apply Hb|done|done].
Qed.

Section calls.
Variable s : Structure.
Variable base : list string.

Lemma add_callee_placeholder_sound (Q : string -> Prop) b callee :
  sound_with Q b /\ fresh_over base (dot b) ->
  sound_with Q (add_callee_placeholder b callee)
  /\ fresh_over base (dot (add_callee_placeholder b callee)).
Proof.
  intros Hb. unfold add_callee_placeholder.
  destruct (known callee b) eqn:Hk; [done|].
  destruct (placeholder_sound Q base None callee callee
              [("shape", "box"); ("style", "dashed");
               ("color", "gray"); ("fillcolor", "white")] b Hb Hk) as [H1 H2].
  split; [|done]. eapply sound_weaken; [|exact H1]. simpl. auto.
Qed.

Lemma add_callee_placeholders_sound (Q : string -> Prop) b :
  sound_with Q b /\ fresh_over base (dot b) ->
  sound_with Q (add_callee_placeholders s b)
  /\ fresh_over base (dot (add_callee_placeholders s b)).
Proof.
  intros Hb. unfold add_callee_placeholders.
  apply (fold_left_preserves
           (fun b => sound_with Q b /\ fresh_over base (dot b))); [|done].
  intros b1 [caller callees] Hb1.
  apply (fold_left_preserves
           (fun b => sound_with Q b /\ fresh_over base (dot b))); [|done].
  intros b2 callee. apply add_callee_placeholder_sound.
Qed.

Lemma add_callee_placeholder_grows b callee x :
  x ∈ all_nodes b -> x ∈ all_nodes (add_callee_placeholder b callee).
Proof.
  intros Hx. unfold add_callee_placeholder. destruct (known callee b); [done|].
  unfold add; simpl. apply elem_of_union. by right.
Qed.

Lemma add_callee_placeholder_adds b callee :
  callee ∈ all_nodes (add_callee_placeholder b callee).
Proof.
  unfold add_callee_placeholder. destruct (known callee b) eqn:Hk.
  - by apply known_true.
  - unfold add; simpl. apply elem_of_union. left. by apply elem_of_singleton.
Qed.

(** after the placeholder loop every callee text is a known id *)
Lemma add_callee_placeholders_cover b caller callees callee :
  (caller, callees) ∈ calls s -> callee ∈ callees ->
  callee ∈ all_nodes (add_callee_placeholders s b).
Proof.
  intros He Hc. unfold add_callee_placeholders.
  apply (fold_left_establishes (fun b => callee ∈ all_nodes b)
           _ (calls s) (caller, callees) He).
  - intros b1.
    apply (fold_left_establishes (fun b => callee ∈ all_nodes b)
             _ callees callee Hc).
    + intros b2. apply add_callee_placeholder_adds.
    + intros b2 y. apply add_callee_placeholder_grows.
  - intros b1 [caller' callees'] Hb1.
    apply (fold_left_preserves (fun b => callee ∈ all_nodes b)); [|done].
    intros b2 y. apply add_callee_placeholder_grows.
Qed.

Lemma resolve_caller_sound (Q : string -> Prop) caller_raw caller_id b :
  sound_with Q b /\ fresh_over base (dot b) ->
  (sound_with Q (resolve_caller s caller_raw caller_id b).2
   /\ fresh_over base (dot (resolve_caller s caller_raw caller_id b).2))
  /\ (resolve_caller s caller_raw caller_id b).1
     ∈ all_nodes (resolve_caller s caller_raw caller_id b).2.
Proof.
  intros Hb. unfold resolve_caller.
  destruct (known caller_id b) eqn:Hk; simpl.
  { split; [done|]. by apply known_true. }
  destruct (bool_decide _ && known (module_id s) b) eqn:Hm; simpl.
  { split; [done|]. apply andb_prop in Hm as [_ Hm]. by apply known_true. }
  destruct (placeholder_sound Q base None caller_id caller_raw
              [("shape", "box"); ("style", "dashed");
               ("color", "red"); ("fillcolor", "white")] b Hb Hk) as [H1 H2].
  split; [split; [|done]|].
  - eapply sound_weaken; [|exact H1]. simpl. auto.
  - apply elem_of_union. left. by apply elem_of_singleton.
Qed.

Lemma resolve_method_known callee cls b :
  callee ∈ all_nodes b -> resolve_method s callee cls b ∈ all_nodes b.
Proof.
  intros Hc. induction cls as [|c r IH]; simpl; [done|].
  destruct (known _ b) eqn:Hk; [by apply known_true|done].
Qed.

Lemma resolve_callee_known callee b :
  callee ∈ all_nodes b -> resolve_callee s callee b ∈ all_nodes b.
Proof.
  intros Hc. unfold resolve_callee.
  destruct (known _ b) eqn:Hk; [by apply known_true|].
  by apply resolve_method_known.
Qed.

Lemma add_call_edge_sound (Q : string -> Prop) caller_id b callee :
  Q caller_id -> Q callee ->
  sound_with Q b /\ fresh_over base (dot b) ->
  sound_with Q (add_call_edge s caller_id b callee)
  /\ fresh_over base (dot (add_call_edge s caller_id b callee)).
Proof.
  intros Hq1 Hq2 [Hb Hf]. unfold add_call_edge.
  destruct (_ && _); [|done]. split; [|by apply fresh_edge].
  apply sound_edge; [done| |].
  - by eapply sound_covers.
  - apply resolve_callee_known. by eapply sound_covers.
Qed.

Lemma add_calls_of_sound (Q : string -> Prop) b entry b' :
  (forall callee, callee ∈ entry.2 -> Q callee) ->
  sound_with Q b /\ fresh_over base (dot b) ->
  add_calls_of s b entry = Ok b' ->
  sound_with Q b' /\ fresh_over base (dot b').
Proof.
  intros Hq Hb. unfold add_calls_of.
  destruct entry as [[caller_raw|] callees_raw]; simpl; [|discriminate].
  pose proof (resolve_caller_sound Q caller_raw
                (caller_node_id s (PyStr.split "." caller_raw)) b Hb)
    as [[Hs Hf] Hin].
  destruct (resolve_caller _ _ _ _) as [caller_id b1]. simpl in *.
  intros [= <-].
  assert (sound_with (fun y => Q y \/ y = caller_id) b1) as Hs'.
  { destruct Hs as (Ht & Hc & Hcov). repeat split; try apply Ht; [done|].
    intros y [Hy| ->]; auto. }
  assert (sound_with (fun y => Q y \/ y = caller_id)
            (fold_left (add_call_edge s caller_id) callees_raw b1)
          /\ fresh_over base
               (dot (fold_left (add_call_edge s caller_id) callees_raw b1)))
    as [H1 H2].
  { apply (fold_left_preserves_in
             (fun b => sound_with (fun y => Q y \/ y = caller_id) b
                       /\ fresh_over base (dot b))); [|done].
    intros b2 callee Hc. apply add_call_edge_sound; [by right|].
    left. by apply Hq. }
  split; [|done]. eapply sound_weaken; [|exact H1]. simpl. auto.
Qed.

Lemma add_call_edges_sound (Q : string -> Prop) b b' :
  (forall caller callees callee,
      (caller, callees) ∈ calls s -> callee ∈ callees -> Q callee) ->
  sound_with Q b /\ fresh_over base (dot b) ->
  add_call_edges s b = Ok b' ->
  sound_with Q b' /\ fresh_over base (dot b').
Proof.
  intros Hq. unfold add_call_edges.
  apply (foldM_preserves_in
           (fun b => sound_with Q b /\ fresh_over base (dot b))).
  intros b1 [caller callees] b2 Hin. apply add_calls_of_sound.
  intros callee Hc. by eapply Hq.
Qed.

Lemma add_base_sound (Q : string -> Prop) c b base_name :
  Q (class_id s (class_name c)) ->
  sound_with Q b /\ fresh_over base (dot b) ->
  sound_with Q (add_base s c b base_name)
  /\ fresh_over base (dot (add_base s c b base_name)).
Proof.
  intros Hq Hb. unfold add_base.
  destruct (known (module_id s +:+ "." +:+ base_name) b) eqn:Hk.
  - destruct Hb as [Hb Hf]. split; [|by apply fresh_edge].
    apply sound_edge; [done|by apply known_true|by eapply sound_covers].
  - destruct (placeholder_sound Q base None (module_id s +:+ "." +:+ base_name)
                base_name
                [("shape", "box"); ("style", "dashed");
                 ("color", "grey"); ("fillcolor", "white")] b Hb Hk) as [H1 H2].
    split; [|by apply fresh_edge].
    apply sound_edge.
    + eapply sound_weaken; [|exact H1]. simpl. auto.
    + apply elem_of_union. left. by apply elem_of_singleton.
    + apply (sound_covers _ _ _ H1). by left.
Qed.

Lemma add_inheritance_sound (Q : string -> Prop) b :
  (forall c, c ∈ classes s -> Q (class_id s (class_name c))) ->
  sound_with Q b /\ fresh_over base (dot b) ->
  sound_with Q (add_inheritance s b)
  /\ fresh_over base (dot (add_inheritance s b)).
Proof.
  intros Hq Hb. unfold add_inheritance.
  apply (fold_left_preserves_in
           (fun b => sound_with Q b /\ fresh_over base (dot b))); [|done].
  intros b1 c Hc.
  apply (fold_left_preserves
           (fun b => sound_with Q b /\ fresh_over base (dot b))).
  intros b2 base_name. apply add_base_sound. by apply Hq.
Qed.
End calls.

(** the builder at the end: consistent, and nothing after the
    declarations repeats an id *)
Lemma build_sound (s : Structure) (b : builder) :
  build s = Ok b ->
  tracked b /\ closed (dot b) /\ fresh_over (declared_ids s) (dot b).
Proof.
  unfold build. intros Hb.
  destruct (add_call_edges s _) as [b3|] eqn:E3; [|discriminate].
  simpl in Hb. inversion Hb; subst b. clear Hb.
  set (b1 := declare s (mk_builder [] ∅)) in *.
  set (b2 := add_callee_placeholders s b1) in *.
  assert (sound_with (fun x => x ∈ all_nodes b1) b1
          /\ fresh_over (declared_ids s) (dot b1)) as H1.
  { split; [apply (sound_known _ _ (declare_sound s))|].
    exists []. rewrite app_nil_r. split; [done|]. split; [constructor|].
    intros x Hx. by apply elem_of_nil in Hx. }
  apply (add_callee_placeholders_sound s) in H1. fold b2 in H1.
  assert (sound_with (fun x => x ∈ all_nodes b2) b2
          /\ fresh_over (declared_ids s) (dot b2)) as H2
      by (destruct H1 as [H1 Hf]; split; [by eapply sound_known|done]).
  eapply (add_call_edges_sound s) in H2; [|clear H2|exact E3].
  2:{ intros caller callees callee He Hc.
      by eapply add_callee_placeholders_cover. }
  assert (forall c, c ∈ classes s -> class_id s (class_name c) ∈ all_nodes b3)
    as Hcls.
  { intros c Hc. destruct H2 as [H2 _]. apply (sound_covers _ _ _ H2).
    destruct H1 as [H1 _]. apply (sound_covers _ _ _ H1).
    destruct (declare_sound s) as (Ht & _ & _). apply Ht. fold b1.
    unfold b1. rewrite declare_node_names. apply elem_of_app. right.
    change (class_id s (class_name c)) with (qname_id s (QTop (class_name c))).
    apply (list_elem_of_fmap_2 (qname_id s)). unfold declared_qnames.
    right. apply elem_of_app. right. apply elem_of_app. right.
    apply list_elem_of_In, in_concat. exists (class_qnames c).
    split; [by apply in_map, list_elem_of_In|by left]. }
  assert (sound_with (fun x => x ∈ all_nodes b3) b3
          /\ fresh_over (declared_ids s) (dot b3)) as H3
      by (destruct H2 as [H2 Hf]; split; [by eapply sound_known|done]).
  apply (add_inheritance_sound s) in H3; [|done].
  destruct H3 as [(Ht & Hc & _) Hf]. done.
Qed.

(** *** Where the call edges come from *)

Section edges.
Variable s : Structure.
Variable R : dot_stmt -> Prop.
Hypothesis R_attr : forall cl l a, R (DotAttr cl l a).
Hypothesis R_node : forall cl n l a, R (DotNode cl n l a).
Hypothesis R_edge : forall cl t h l a, l <> "calls" -> R (DotEdge cl t h l a).

Lemma emit_all c b : R c -> Forall R (dot b) -> Forall R (dot (emit c b)).
Proof.
  intros Hc Hb. unfold emit; simpl. apply Forall_app. split; [done|].
  by apply Forall_singleton.
Qed.

Ltac emitted R_attr R_node R_edge :=
  rewrite ?dot_add;
  repeat (apply emit_all;
          [first [apply R_node|apply R_attr|apply R_edge; discriminate]|];
          rewrite ?dot_add).

Lemma add_module_all b : Forall R (dot b) -> Forall R (dot (add_module s b)).
Proof. intros Hb. unfold add_module. emitted R_attr R_node R_edge; done. Qed.

Lemma add_globals_all b : Forall R (dot b) -> Forall R (dot (add_globals s b)).
Proof.
  intros Hb. unfold add_globals. destruct (global_variables s); [done|].
  emitted R_attr R_node R_edge; done.
Qed.

Lemma add_function_all b f :
  Forall R (dot b) -> Forall R (dot (add_function s b f)).
Proof.
  intros Hb. unfold add_function.
  emitted R_attr R_node R_edge; done.
Qed.

Lemma add_attribute_node_all c b a :
  Forall R (dot b) -> Forall R (dot (add_attribute_node s c b a)).
Proof.
  intros Hb. unfold add_attribute_node.
  emitted R_attr R_node R_edge; done.
Qed.

Lemma add_method_node_all c b m :
  Forall R (dot b) -> Forall R (dot (add_method_node s c b m)).
Proof.
  intros Hb. unfold add_method_node.
  emitted R_attr R_node R_edge; done.
Qed.

Lemma add_class_all b c : Forall R (dot b) -> Forall R (dot (add_class s b c)).
Proof.
  intros Hb. unfold add_class.
  apply (fold_left_preserves (fun b => Forall R (dot b)));
    [intros; by apply add_method_node_all|].
  apply (fold_left_preserves (fun b => Forall R (dot b)));
    [intros; by apply add_attribute_node_all|].
  emitted R_attr R_node R_edge. unfold add; simpl.
  emitted R_attr R_node R_edge; done.
Qed.

Lemma declare_all b : Forall R (dot b) -> Forall R (dot (declare s b)).
Proof.
  intros Hb. unfold declare.
  apply (fold_left_preserves (fun b => Forall R (dot b)));
    [intros; by apply add_class_all|].
  apply (fold_left_preserves (fun b => Forall R (dot b)));
    [intros; by apply add_function_all|].
  by apply add_globals_all, add_module_all.
Qed.

Lemma add_callee_placeholders_all b :
  Forall R (dot b) -> Forall R (dot (add_callee_placeholders s b)).
Proof.
  intros Hb. unfold add_callee_placeholders.
  apply (fold_left_preserves (fun b => Forall R (dot b))); [|done].
  intros b1 [caller callees] Hb1.
  apply (fold_left_preserves (fun b => Forall R (dot b))); [|done].
  intros b2 callee Hb2. unfold add_callee_placeholder.
  destruct (known callee b2); [done|]. emitted R_attr R_node R_edge; done.
Qed.

Lemma resolve_caller_all caller_raw caller_id b :
  Forall R (dot b) -> Forall R (dot (resolve_caller s caller_raw caller_id b).2).
Proof.
  intros Hb. unfold resolve_caller.
  destruct (known caller_id b); [done|]. destruct (_ && _); [done|].
  emitted R_attr R_node R_edge; done.
Qed.

Lemma add_inheritance_all b :
  Forall R (dot b) -> Forall R (dot (add_inheritance s b)).
Proof.
  intros Hb. unfold add_inheritance.
  apply (fold_left_preserves (fun b => Forall R (dot b))); [|done].
  intros b1 c Hb1.
  apply (fold_left_preserves (fun b => Forall R (dot b))); [|done].
  intros b2 base_name Hb2. unfold add_base.
  emitted R_attr R_node R_edge.
  destruct (known _ b2); [done|]. emitted R_attr R_node R_edge; done.
Qed.
End edges.

Section backing.
Variable s : Structure.

Lemma truthy_not_empty x : truthy x = true -> x <> "".
Proof. by destruct x. Qed.

Lemma resolve_caller_id caller_raw b :
  (resolve_caller s caller_raw
     (caller_node_id s (PyStr.split "." caller_raw)) b).1
  ∈ caller_ids s caller_raw.
Proof.
  unfold resolve_caller, caller_ids.
  destruct (known _ b); simpl; [left|].
  destruct (bool_decide _ && _) eqn:Hm; simpl; [|left].
  apply andb_prop in Hm as [Hm _]. apply bool_decide_eq_true_1 in Hm.
  rewrite decide_True by done. right. left.
Qed.

Lemma resolve_method_id callee cls b :
  resolve_method s callee cls b = callee
  \/ resolve_method s callee cls b
     ∈ map (fun c => member_id s (class_name c) callee) cls.
Proof.
  induction cls as [|c r IH]; simpl; [by left|].
  destruct (known _ b); [right; left|].
  destruct IH as [IH|IH]; [by left|right; by right].
Qed.

Lemma resolve_callee_id callee b :
  resolve_callee s callee b ∈ callee_ids s callee.
Proof.
  unfold resolve_callee, callee_ids.
  destruct (known _ b); [right; left|].
  destruct (resolve_method_id callee (classes s) b) as [->|H];
    [left|right; by right].
Qed.

Lemma add_call_edge_backed caller caller_id callees b callee :
  (Some caller, callees) ∈ calls s -> callee ∈ callees ->
  caller_id ∈ caller_ids s caller ->
  Forall (call_edge_backed s) (dot b) ->
  Forall (call_edge_backed s) (dot (add_call_edge s caller_id b callee)).
Proof.
  intros He Hc Hid Hb. unfold add_call_edge.
  destruct (_ && _) eqn:Hguard; [|done].
  apply emit_all; [|done]. intros _.
  apply andb_prop in Hguard as [Hguard _].
  apply andb_prop in Hguard as [H1 H2].
  split; [by apply truthy_not_empty|]. split; [by apply truthy_not_empty|].
  exists caller, callees, callee. repeat split; try done.
  apply resolve_callee_id.
Qed.

Lemma add_calls_of_backed b entry b' :
  entry ∈ calls s ->
  Forall (call_edge_backed s) (dot b) ->
  add_calls_of s b entry = Ok b' ->
  Forall (call_edge_backed s) (dot b').
Proof.
  intros He Hb. unfold add_calls_of.
  destruct entry as [[caller_raw|] callees_raw]; simpl; [|discriminate].
  assert (Forall (call_edge_backed s)
            (dot (resolve_caller s caller_raw
                    (caller_node_id s (PyStr.split "." caller_raw)) b).2))
    as Hr by (apply resolve_caller_all; try (intros; exact I); done).
  pose proof (resolve_caller_id caller_raw b) as Hid.
  destruct (resolve_caller _ _ _ _) as [caller_id b1]. simpl in *.
  intros [= <-].
  apply (fold_left_preserves_in (fun b => Forall (call_edge_backed s) (dot b)));
    [|done].
  intros b2 callee Hc. by eapply add_call_edge_backed.
Qed.

Lemma build_backed b :
  build s = Ok b -> Forall (call_edge_backed s) (dot b).
Proof.
  unfold build. intros Hb.
  destruct (add_call_edges s _) as [b3|] eqn:E3; [|discriminate].
  simpl in Hb. inversion Hb; subst b. clear Hb.
  apply add_inheritance_all;
    try (intros; exact I);
    try (intros cl t h l a Hl Hl'; by destruct Hl).
  revert E3. unfold add_call_edges.
  apply (foldM_preserves_in (fun b => Forall (call_edge_backed s) (dot b))).
  - intros b1 entry b2 He. by apply add_calls_of_backed.
  - apply add_callee_placeholders_all; try (intros; exact I).
    apply declare_all;
      try (intros; exact I);
      try (intros cl t h l a Hl Hl'; by destruct Hl).
    constructor.
Qed.

Lemma caller_node_id_parts parts :
  caller_node_id s parts <> "" -> length parts <= 3.
Proof.
  destruct parts as [|p0 [|p1 [|p2 [|p3 r]]]]; simpl; try lia.
  by intros [].
Qed.
End backing.

(** *** The edges of the declarations and of inheritance *)

Section census.
Variable s : Structure.
Variable L : string.
Hypothesis not_calls : L <> "calls".

Lemma edges_labelled_app l1 l2 :
  edges_labelled L (l1 ++ l2) = edges_labelled L l1 ++ edges_labelled L l2.
Proof. apply omap_app. Qed.

Lemma edges_emit c b :
  edges_labelled L (dot (emit c b))
  = edges_labelled L (dot b) ++ edges_labelled L [c].
Proof. unfold emit; simpl. apply edges_labelled_app. Qed.

Lemma edges_emit_node cl n l a b :
  edges_labelled L (dot (add n (emit (DotNode cl n l a) b)))
  = edges_labelled L (dot b).
Proof. rewrite dot_add, edges_emit. simpl. by rewrite app_nil_r. Qed.

Lemma fold_left_edges {B} (f : builder -> B -> builder)
    (g : B -> list (string * string)) (l : list B) :
  (forall b x, edges_labelled L (dot (f b x)) = edges_labelled L (dot b) ++ g x) ->
  forall b, edges_labelled L (dot (fold_left f l b))
            = edges_labelled L (dot b) ++ concat (map g l).
Proof.
  intros Hf. induction l as [|x l IH]; intros b; simpl.
  - by rewrite app_nil_r.
  - by rewrite IH, Hf, <- app_assoc.
Qed.

Lemma edges_of_map {A} (g : A -> dot_stmt) (l : list A) :
  concat (map (fun x => edges_labelled L [g x]) l) = edges_labelled L (map g l).
Proof.
  induction l as [|x l IH]; [done|]. cbn [map concat].
  rewrite IH. change (g x :: map g l) with ([g x] ++ map g l).
  by rewrite edges_labelled_app.
Qed.

Lemma edges_labelled_edges {A} (cl : A -> option string) (t h : A -> string)
    (label : string) (a : list (string * string)) (l : list A) :
  edges_labelled L (map (fun x => DotEdge (cl x) (t x) (h x) label a) l)
  = if decide (label = L) then map (fun x => (t x, h x)) l else [].
Proof.
  induction l as [|x l IH]; simpl; [by destruct (decide _)|].
  rewrite IH. by destruct (decide (label = L)).
Qed.

Lemma add_function_edges b f :
  edges_labelled L (dot (add_function s b f))
  = edges_labelled L (dot b)
    ++ edges_labelled L
         [DotEdge (module_cluster s) (module_id s)
            (function_id s (func_name f)) "contains" []].
Proof.
  unfold add_function. rewrite dot_add, !edges_emit. simpl.
  by rewrite app_nil_r.
Qed.

Lemma add_attribute_node_edges c b a :
  edges_labelled L (dot (add_attribute_node s c b a))
  = edges_labelled L (dot b)
    ++ edges_labelled L
         [DotEdge (Some ("cluster_class_" +:+ class_name c))
            (class_id s (class_name c))
            (member_id s (class_name c) (var_name a)) "has attribute" []].
Proof.
  unfold add_attribute_node. rewrite dot_add, !edges_emit. simpl.
  by rewrite app_nil_r.
Qed.

Lemma add_method_node_edges c b m :
  edges_labelled L (dot (add_method_node s c b m))
  = edges_labelled L (dot b)
    ++ edges_labelled L
         [DotEdge (Some ("cluster_class_" +:+ class_name c))
            (class_id s (class_name c))
            (member_id s (class_name c) (func_name m)) "contains method" []].
Proof.
  unfold add_method_node. rewrite dot_add, !edges_emit. simpl.
  by rewrite app_nil_r.
Qed.

Lemma add_class_edges b c :
  edges_labelled L (dot (add_class s b c))
  = edges_labelled L (dot b)
    ++ ((if decide ("contains" = L)
         then [(module_id s, class_id s (class_name c))] else [])
        ++ (if decide ("has attribute" = L)
            then map (fun a => (class_id s (class_name c),
                                member_id s (class_name c) (var_name a)))
                   (attributes c)
            else [])
        ++ (if decide ("contains method" = L)
            then map (fun m => (class_id s (class_name c),
                                member_id s (class_name c) (func_name m)))
                   (methods c)
            else [])).
Proof.
  unfold add_class.
  rewrite (fold_left_edges (add_method_node s c) _ _
             (add_method_node_edges c)).
  rewrite (fold_left_edges (add_attribute_node s c) _ _
             (add_attribute_node_edges c)).
  rewrite !edges_of_map, !edges_labelled_edges.
  rewrite edges_emit, dot_add, !edges_emit. simpl.
  rewrite !app_nil_r, <- !app_assoc. by destruct (decide ("contains" = L)).
Qed.

Lemma declare_edges b :
  edges_labelled L (dot (declare s b))
  = edges_labelled L (dot b)
    ++ (if decide ("defines" = L)
        then match global_variables s with
             | [] => []
             | _ => [(module_id s, globals_id s)]
             end
        else [])
    ++ (if decide ("contains" = L)
        then map (fun f => (module_id s, function_id s (func_name f)))
               (functions s)
        else [])
    ++ concat (map (fun c =>
         (if decide ("contains" = L)
          then [(module_id s, class_id s (class_name c))] else [])
         ++ (if decide ("has attribute" = L)
             then map (fun a => (class_id s (class_name c),
                                 member_id s (class_name c) (var_name a)))
                    (attributes c)
             else [])
         ++ (if decide ("contains method" = L)
             then map (fun m => (class_id s (class_name c),
                                 member_id s (class_name c) (func_name m)))
                    (methods c)
             else [])) (classes s)).
Proof.
  unfold declare.
  rewrite (fold_left_edges (add_class s) _ _ add_class_edges).
  rewrite (fold_left_edges (add_function s) _ _ add_function_edges).
  rewrite edges_of_map, edges_labelled_edges.
  assert (edges_labelled L (dot (add_globals s (add_module s b)))
          = edges_labelled L (dot b)
            ++ (if decide ("defines" = L)
                then match global_variables s with
                     | [] => []
                     | _ => [(module_id s, globals_id s)]
                     end
                else [])) as ->.
  { unfold add_globals, add_module.
    destruct (global_variables s);
      rewrite ?dot_add, ?edges_emit, ?dot_add, ?edges_emit; simpl;
      destruct (decide ("defines" = L)); by rewrite ?app_nil_r. }
  by rewrite <- !app_assoc.
Qed.

Lemma add_callee_placeholders_edges b :
  edges_labelled L (dot (add_callee_placeholders s b))
  = edges_labelled L (dot b).
Proof.
  unfold add_callee_placeholders.
  apply (fold_left_preserves
           (fun b' => edges_labelled L (dot b') = edges_labelled L (dot b)));
    [|done].
  intros b1 [caller callees] Hb1.
  apply (fold_left_preserves
           (fun b' => edges_labelled L (dot b') = edges_labelled L (dot b)));
    [|done].
  intros b2 callee Hb2. unfold add_callee_placeholder.
  destruct (known callee b2); [done|]. by rewrite edges_emit_node.
Qed.

Lemma add_calls_of_edges b entry b' :
  add_calls_of s b entry = Ok b' ->
  edges_labelled L (dot b') = edges_labelled L (dot b).
Proof.
  unfold add_calls_of.
  destruct entry as [[caller_raw|] callees_raw]; simpl; [|discriminate].
  assert (edges_labelled L
            (dot (resolve_caller s caller_raw
                    (caller_node_id s (PyStr.split "." caller_raw)) b).2)
          = edges_labelled L (dot b)) as Hr.
  { unfold resolve_caller. destruct (known _ b); [done|].
    destruct (_ && _); [done|]. cbn [snd]. by rewrite edges_emit_node. }
  destruct (resolve_caller _ _ _ _) as [caller_id b1]. simpl in *.
  intros [= <-].
  apply (fold_left_preserves
           (fun b' => edges_labelled L (dot b') = edges_labelled L (dot b)));
    [|done].
  intros b2 callee Hb2. unfold add_call_edge.
  destruct (_ && _); [|done]. rewrite edges_emit. simpl.
  rewrite decide_False by done. by rewrite app_nil_r.
Qed.

Lemma add_call_edges_edges b b' :
  add_call_edges s b = Ok b' ->
  edges_labelled L (dot b') = edges_labelled L (dot b).
Proof.
  unfold add_call_edges.
  apply (foldM_preserves
           (fun b' => edges_labelled L (dot b') = edges_labelled L (dot b)));
    [|done].
  intros b1 entry b2 Hb1 Hstep. by rewrite (add_calls_of_edges _ _ _ Hstep).
Qed.

Lemma add_base_edges c b base_name :
  edges_labelled L (dot (add_base s c b base_name))
  = edges_labelled L (dot b)
    ++ edges_labelled L
         [DotEdge None (module_id s +:+ "." +:+ base_name)
            (class_id s (class_name c)) "inherits"
            [("style", "dashed"); ("arrowhead", "empty")]].
Proof.
  unfold add_base. rewrite edges_emit.
  destruct (known _ b); [done|]. by rewrite edges_emit_node.
Qed.

Lemma add_inheritance_edges b :
  edges_labelled L (dot (add_inheritance s b))
  = edges_labelled L (dot b)
    ++ concat (map (fun c =>
         if decide ("inherits" = L)
         then map (fun base_name => (module_id s +:+ "." +:+ base_name,
                                     class_id s (class_name c)))
                (bases c)
         else []) (classes s)).
Proof.
  unfold add_inheritance. apply fold_left_edges. intros b1 c.
  rewrite (fold_left_edges (add_base s c) _ _ (add_base_edges c)).
  by rewrite edges_of_map, edges_labelled_edges.
Qed.

Lemma build_edges b :
  build s = Ok b ->
  edges_labelled L (dot b)
  = (if decide ("defines" = L)
     then match global_variables s with
          | [] => []
          | _ => [(module_id s, globals_id s)]
          end
     else [])
    ++ (if decide ("contains" = L)
        then map (fun f => (module_id s, function_id s (func_name f)))
               (functions s)
        else [])
    ++ concat (map (fun c =>
         (if decide ("contains" = L)
          then [(module_id s, class_id s (class_name c))] else [])
         ++ (if decide ("has attribute" = L)
             then map (fun a => (class_id s (class_name c),
                                 member_id s (class_name c) (var_name a)))
                    (attributes c)
             else [])
         ++ (if decide ("contains method" = L)
             then map (fun m => (class_id s (class_name c),
                                 member_id s (class_name c) (func_name m)))
                    (methods c)
             else [])) (classes s))
    ++ concat (map (fun c =>
         if decide ("inherits" = L)
         then map (fun base_name => (module_id s +:+ "." +:+ base_name,
                                     class_id s (class_name c)))
                (bases c)
         else []) (classes s)).
Proof.
  unfold build. intros Hb.
  destruct (add_call_edges s _) as [b3|] eqn:E3; [|discriminate].
  simpl in Hb. inversion Hb; subst b. clear Hb.
  rewrite add_inheritance_edges, (add_call_edges_edges _ _ E3).
  rewrite add_callee_placeholders_edges, declare_edges. simpl.
  by rewrite <- !app_assoc.
Qed.
End census.

Lemma concat_map_nil {A B} (l : list A) :
  concat (map (fun _ : A => @nil B) l) = [].
Proof. by induction l. Qed.

Lemma concat_map_single {A B} (g : A -> B) (l : list A) :
  concat (map (fun x => [g x]) l) = map g l.
Proof. induction l as [|x l IH]; simpl; [done|by rewrite IH]. Qed.

(** *** Properties *)

(** X13. The comment in the code asks that both ends of an edge exist
    before the edge is added; they do. In the graph built from any
    structure whose callers are strings, every edge, whatever its
    label, starts and ends at a node the graph declares. *)
Theorem edges_join_nodes_of_the_graph (s : Structure) :
  str_keys s ->
  exists b,
    build s = Ok b
    /\ forall cl t h l a,
         DotEdge cl t h l a ∈ dot b ->
         t ∈ node_names (dot b) /\ h ∈ node_names (dot b).
Proof.
  intros Hk. destruct (build_total s Hk) as [b Hb]. exists b.
  split; [done|]. destruct (build_sound s b Hb) as (_ & Hc & _).
  intros cl t h l a Hin.
  split; apply (Hc _ _ Hin); simpl; [left|right; left].
Qed.

Lemma edges_join_nodes_of_the_graph_witness :
  str_keys (structure_of demo)
  /\ exists b,
       build (structure_of demo) = Ok b
       /\ forall cl t h l a,
            DotEdge cl t h l a ∈ dot b ->
            t ∈ node_names (dot b) /\ h ∈ node_names (dot b).
Proof.
  assert (str_keys (structure_of demo)) as Hk
      by (repeat constructor; by eexists).
  exact (conj Hk (edges_join_nodes_of_the_graph (structure_of demo) Hk)).
Defined.

(** X14. The nodes of the graph are those of the declarations, in
    declaration order, followed by the placeholders (call targets,
    callers and base classes that are no declaration); every
    placeholder is made once and never under the id of a
    declaration. *)
Theorem placeholders_are_made_once (s : Structure) :
  str_keys s ->
  exists b placeholders,
    build s = Ok b
    /\ node_names (dot b) = declared_ids s ++ placeholders
    /\ NoDup placeholders
    /\ forall x, x ∈ placeholders -> x ∉ declared_ids s.
Proof.
  intros Hk. destruct (build_total s Hk) as [b Hb].
  destruct (build_sound s b Hb) as (_ & _ & extra & Hn & Hnd & Hd).
  by exists b, extra.
Qed.

Lemma placeholders_are_made_once_witness :
  str_keys (structure_of demo)
  /\ exists b placeholders,
       build (structure_of demo) = Ok b
       /\ node_names (dot b) = declared_ids (structure_of demo) ++ placeholders
       /\ NoDup placeholders
       /\ forall x, x ∈ placeholders -> x ∉ declared_ids (structure_of demo).
Proof.
  assert (str_keys (structure_of demo)) as Hk
      by (repeat constructor; by eexists).
  exact (conj Hk (placeholders_are_made_once (structure_of demo) Hk)).
Defined.

(** X15. Every ["calls"] edge stands for a recorded call: it leaves a
    non-empty id drawn from a caller key (the id made of the key's
    parts, or the module's id when the key is the module's name) and
    reaches a non-empty id drawn from a callee recorded under that key
    (the callee text, a module-level definition of that name, or a
    member of that name of some class). A caller key of more than
    three dot-separated parts that is not the module's name gives no
    edge at all. *)
Theorem calls_edges_stand_for_recorded_calls (s : Structure) :
  str_keys s ->
  exists b,
    build s = Ok b
    /\ forall t h,
         (t, h) ∈ edges_labelled "calls" (dot b) ->
         t <> "" /\ h <> ""
         /\ exists caller callees callee,
              (Some caller, callees) ∈ calls s
              /\ callee ∈ callees
              /\ t ∈ caller_ids s caller
              /\ h ∈ callee_ids s callee
              /\ (length (PyStr.split "." caller) <= 3
                  \/ Some caller = module_name s).
Proof.
  intros Hk. destruct (build_total s Hk) as [b Hb]. exists b.
  split; [done|]. intros t h Hth.
  apply elem_of_edges_labelled in Hth as (cl & a & Hin).
  pose proof (build_backed s b Hb) as Hall. rewrite Forall_forall in Hall.
  destruct (Hall _ Hin eq_refl)
    as (Ht & Hh & caller & callees & callee & He & Hc & Hcaller & Hcallee).
  split; [done|]. split; [done|].
  exists caller, callees, callee. repeat split; try done.
  unfold caller_ids in Hcaller. apply elem_of_cons in Hcaller as [->|Hm].
  - left. by apply (caller_node_id_parts s).
  - right. destruct (decide (Some caller = module_name s)); [done|].
    by apply elem_of_nil in Hm.
Qed.

Lemma calls_edges_stand_for_recorded_calls_witness :
  str_keys (structure_of demo)
  /\ exists b,
       build (structure_of demo) = Ok b
       /\ forall t h,
            (t, h) ∈ edges_labelled "calls" (dot b) ->
            t <> "" /\ h <> ""
            /\ exists caller callees callee,
                 (Some caller, callees) ∈ calls (structure_of demo)
                 /\ callee ∈ callees
                 /\ t ∈ caller_ids (structure_of demo) caller
                 /\ h ∈ callee_ids (structure_of demo) callee
                 /\ (length (PyStr.split "." caller) <= 3
                     \/ Some caller = module_name (structure_of demo)).
Proof.
  assert (str_keys (structure_of demo)) as Hk
      by (repeat constructor; by eexists).
  exact (conj Hk (calls_edges_stand_for_recorded_calls (structure_of demo) Hk)).
Defined.

Ltac cleanup :=
  simpl; rewrite ?concat_map_nil, ?concat_map_single, ?app_nil_r;
  try done.

(** X16. The edges other than ["calls"] mirror the structure: one
    ["defines"] edge when there are global variables; a ["contains"]
    edge from the module to every global function and then to every
    class; a ["has attribute"] and a ["contains method"] edge from a
    class to each of its attributes and methods; an ["inherits"] edge
    from each listed base to the class; all in the order of the
    structure, and no others. *)
Theorem structural_edges_mirror_the_structure (s : Structure) :
  str_keys s ->
  exists b,
    build s = Ok b
    /\ edges_labelled "defines" (dot b)
       = match global_variables s with
         | [] => []
         | _ => [(module_id s, globals_id s)]
         end
    /\ edges_labelled "contains" (dot b)
       = map (fun f => (module_id s, function_id s (func_name f))) (functions s)
         ++ map (fun c => (module_id s, class_id s (class_name c))) (classes s)
    /\ edges_labelled "has attribute" (dot b)
       = concat (map (fun c =>
                        map (fun a => (class_id s (class_name c),
                                       member_id s (class_name c) (var_name a)))
                          (attributes c)) (classes s))
    /\ edges_labelled "contains method" (dot b)
       = concat (map (fun c =>
                        map (fun m => (class_id s (class_name c),
                                       member_id s (class_name c) (func_name m)))
                          (methods c)) (classes s))
    /\ edges_labelled "inherits" (dot b)
       = concat (map (fun c =>
                        map (fun base_name =>
                               (module_id s +:+ "." +:+ base_name,
                                class_id s (class_name c)))
                          (bases c)) (classes s)).
Proof.
  intros Hk. destruct (build_total s Hk) as [b Hb]. exists b.
  split; [done|].
  assert (forall L, L <> "calls" -> _) as Hedges
      by (intros L HL; exact (build_edges s L HL b Hb)).
  repeat split.
  - rewrite (Hedges "defines") by discriminate. cleanup.
  - rewrite (Hedges "contains") by discriminate. cleanup.
  - rewrite (Hedges "has attribute") by discriminate. cleanup.
    f_equal. apply map_ext. intros c. by rewrite app_nil_r.
  - rewrite (Hedges "contains method") by discriminate. cleanup.
  - rewrite (Hedges "inherits") by discriminate. cleanup.
Qed.

Lemma structural_edges_mirror_the_structure_witness :
  str_keys (structure_of demo)
  /\ exists b,
       build (structure_of demo) = Ok b
       /\ edges_labelled "defines" (dot b)
          = [("module_Module", "module_Module_globals")]
       /\ edges_labelled "contains" (dot b)
          = [("module_Module", "module_Module.foo");
             ("module_Module", "module_Module.Shape")]
       /\ edges_labelled "has attribute" (dot b)
          = [("module_Module.Shape", "module_Module.Shape.y")]
       /\ edges_labelled "contains method" (dot b)
          = [("module_Module.Shape", "module_Module.Shape.area")]
       /\ edges_labelled "inherits" (dot b)
          = [("module_Module.B", "module_Module.Shape")].
Proof.
  assert (str_keys (structure_of demo)) as Hk
      by (repeat constructor; by eexists).
  exact (conj Hk (structural_edges_mirror_the_structure (structure_of demo) Hk)).
Defined.

End GraphMore.

(* ================================================================== *)
(** ** The public operations, path by path *)
(* ================================================================== *)

Module ApiMore.
Import Ast PyExn Extractor Lexical Graph Api Samples MoreSamples.
Import ExtractorFacts GraphFacts ApiFacts ExtractorMore.

(** the name taken from the file does not survive [visit_Module] *)
Lemma visit_Module_forgets_name gd body m :
  visit_Module gd (Module body) (on_structure (set_module_name m) init)
  = visit_Module gd (Module body) init.
Proof. reflexivity. Qed.

Lemma parse_and_extract_ok w filepath source_code body ex :
  ast_parse w source_code = Ok (Module body) ->
  visit_Module (ast_get_docstring w) (Module body) init = Ok ex ->
  parse_and_extract w filepath source_code
  = ([EvParse source_code], Ok (Some (structure ex), None)).
Proof.
  intros Hp Hv. unfold parse_and_extract, parse, lift.
  unfold mbind, IO_bind, try_except_io, mret, IO_ret. rewrite Hp.
  rewrite visit_Module_forgets_name, Hv. reflexivity.
Qed.

Lemma parse_and_extract_raise w filepath source_code e :
  ast_parse w source_code = Raise e ->
  parse_and_extract w filepath source_code
  = ([EvParse source_code],
     Ok (None,
         Some (match e with
               | SyntaxError m =>
                   "Parsing error: File '" +:+ filepath
                   +:+ "' contains syntax error: " +:+ m
               | _ => "An unknown error occurred during parsing: " +:+ str e
               end))).
Proof.
  intros Hp. unfold parse_and_extract, parse, lift.
  unfold mbind, IO_bind, try_except_io, mret, IO_ret. rewrite Hp.
  by destruct e.
Qed.

(** *** Properties *)

(** X17. Whenever [parse_python_file] returns a structure, it comes
    with no message; the file was found, read and parsed, each once and
    in that order; and the structure is the very one a fresh extractor
    builds from the parsed tree: the file's name plays no part in
    it. *)
Theorem returned_structure_is_the_extractors (w : World) (filepath : string)
    (t : list io_event) (s : Structure) (msg : option string) :
  parse_python_file w filepath = (t, Ok (Some s, msg)) ->
  exists source_code body ex,
    os_path_exists w filepath = true
    /\ read_text w filepath = Ok source_code
    /\ ast_parse w source_code = Ok (Module body)
    /\ visit_Module (ast_get_docstring w) (Module body) init = Ok ex
    /\ s = structure ex
    /\ msg = None
    /\ t = [EvExists filepath; EvOpenRead filepath; EvParse source_code].
Proof.
  intros Hp. destruct (os_path_exists w filepath) eqn:Hx.
  - rewrite (parse_python_file_found _ _ Hx) in Hp.
    destruct (read_text w filepath) as [source_code|e] eqn:Hr;
      [|by inversion Hp].
    destruct (ast_parse w source_code) as [[body]|e] eqn:Hparse.
    + destruct (visit_Module (ast_get_docstring w) (Module body) init)
        as [ex|e] eqn:Hv.
      * rewrite (parse_and_extract_ok w filepath source_code body ex Hparse Hv)
          in Hp.
        inversion Hp; subst. by exists source_code, body, ex.
      * destruct (parse_and_extract_cases w filepath source_code)
          as [(tree & ex & Htree & Hvisit & _)|[m Hpe]].
        -- rewrite Hparse in Htree. inversion Htree; subst tree.
           rewrite visit_Module_forgets_name, Hv in Hvisit. discriminate.
        -- rewrite Hpe in Hp. by inversion Hp.
    + rewrite (parse_and_extract_raise _ _ _ _ Hparse) in Hp. by inversion Hp.
  - rewrite (parse_python_file_missing _ _ Hx) in Hp. by inversion Hp.
Qed.

Lemma returned_structure_is_the_extractors_witness :
  parse_python_file foo_world "/p/foo.py"
  = ([EvExists "/p/foo.py"; EvOpenRead "/p/foo.py"; EvParse "x = 1"],
     Ok (Some (structure_of one_assignment), None))
  /\ exists source_code body ex,
       os_path_exists foo_world "/p/foo.py" = true
       /\ read_text foo_world "/p/foo.py" = Ok source_code
       /\ ast_parse foo_world source_code = Ok (Module body)
       /\ visit_Module (ast_get_docstring foo_world) (Module body) init = Ok ex
       /\ structure_of one_assignment = structure ex
       /\ (None : option string) = None
       /\ [EvExists "/p/foo.py"; EvOpenRead "/p/foo.py"; EvParse "x = 1"]
          = [EvExists "/p/foo.py"; EvOpenRead "/p/foo.py"; EvParse source_code].
Proof.
  assert (parse_python_file foo_world "/p/foo.py"
          = ([EvExists "/p/foo.py"; EvOpenRead "/p/foo.py"; EvParse "x = 1"],
             Ok (Some (structure_of one_assignment), None))) as Hp
      by reflexivity.
  exact (conj Hp (returned_structure_is_the_extractors foo_world "/p/foo.py"
                    _ _ _ Hp)).
Defined.

(** X18. When the file exists, a failure is reported by the step that
    failed and nothing further is attempted: a file that cannot be read
    is not parsed and the message says [Could not read file]; a syntax
    error is reported as such with the path; any other exception of the
    parser is reported as an unknown error. *)
Theorem parse_failures_name_their_step (w : World) (filepath : string) :
  os_path_exists w filepath = true ->
  (forall e,
      read_text w filepath = Raise e ->
      parse_python_file w filepath
      = ([EvExists filepath; EvOpenRead filepath],
         Ok (None,
             Some ("Error: Could not read file '" +:+ filepath +:+ "': "
                   +:+ str e))))
  /\ (forall source_code m,
        read_text w filepath = Ok source_code ->
        ast_parse w source_code = Raise (SyntaxError m) ->
        parse_python_file w filepath
        = ([EvExists filepath; EvOpenRead filepath; EvParse source_code],
           Ok (None,
               Some ("Parsing error: File '" +:+ filepath
                     +:+ "' contains syntax error: " +:+ m))))
  /\ (forall source_code e,
        read_text w filepath = Ok source_code ->
        ast_parse w source_code = Raise e ->
        (forall m, e <> SyntaxError m) ->
        parse_python_file w filepath
        = ([EvExists filepath; EvOpenRead filepath; EvParse source_code],
           Ok (None,
               Some ("An unknown error occurred during parsing: " +:+ str e)))).
Proof.
  intros Hx. rewrite (parse_python_file_found _ _ Hx). split; [|split].
  - by intros e ->.
  - intros source_code m -> Hp.
    by rewrite (parse_and_extract_raise _ _ _ _ Hp).
  - intros source_code e -> Hp Hne.
    rewrite (parse_and_extract_raise _ _ _ _ Hp).
    destruct e; try done. by destruct (Hne msg).
Qed.

Lemma parse_failures_name_their_step_witness :
  parse_python_file harsh_world "/p/locked.py"
  = ([EvExists "/p/locked.py"; EvOpenRead "/p/locked.py"],
     Ok (None,
         Some "Error: Could not read file '/p/locked.py': [Errno 13] Permission denied"))
  /\ parse_python_file harsh_world "/p/bad.py"
     = ([EvExists "/p/bad.py"; EvOpenRead "/p/bad.py"; EvParse "def"],
        Ok (None,
            Some "Parsing error: File '/p/bad.py' contains syntax error: invalid syntax")).
Proof.
  exact (conj
           (proj1 (parse_failures_name_their_step harsh_world "/p/locked.py"
                     eq_refl) _ eq_refl)
           (proj1 (proj2 (parse_failures_name_their_step harsh_world "/p/bad.py"
                            eq_refl)) _ _ eq_refl eq_refl)).
Defined.

(** X19. [generate_graph_visualization] is not protected against a
    structure in which a call is filed under [None] (the key the
    extractor uses outside every class and function when the module
    name was never set): building the graph raises [AttributeError],
    the exception leaves the function, and nothing is rendered. *)
Theorem none_caller_escapes_graph_generation (w : World) (s : Structure)
    (output_filepath format : string) (callees : list string) :
  (None, callees) ∈ calls s ->
  generate_graph_visualization w (Some s) output_filepath format
  = ([], Raise (AttributeError "'NoneType' object has no attribute 'split'")).
Proof.
  intros Hin. by eapply generate_graph_visualization_none.
Qed.

Lemma none_caller_escapes_graph_generation_witness :
  (None, ["print"]) ∈ calls stray_call
  /\ generate_graph_visualization foo_world (Some stray_call) "out.png" "png"
     = ([], Raise (AttributeError "'NoneType' object has no attribute 'split'")).
Proof.
  assert ((None, ["print"]) ∈ calls stray_call) as Hin by left.
  exact (conj Hin
           (none_caller_escapes_graph_generation foo_world stray_call
              "out.png" "png" ["print"] Hin)).
Defined.

(** X20. For a structure whose callers are strings the graph is handed
    to the renderer exactly once, under the requested path without its
    extension and with the requested format; the answer is the path the
    renderer returns with the message that the graph was saved, the
    installation hint when the Graphviz executable is missing, or
    [Error generating graph:] with the text of any other exception. *)
Theorem graph_is_rendered_once (w : World) (s : Structure)
    (output_filepath format : string) :
  str_keys s ->
  exists b,
    build s = Ok b
    /\ generate_graph_visualization w (Some s) output_filepath format
       = ([EvRender (os_path_splitext w output_filepath).1 format],
          Ok (match dot_render w (dot b) (os_path_splitext w output_filepath).1
                      format with
              | Ok path =>
                  (Some path, Some ("Visualization graph saved to: " +:+ path))
              | Raise (ExecutableNotFound _) =>
                  (None,
                   Some "Error: Graphviz executable (dot) not found. Please ensure Graphviz is installed and added to your system's PATH.")
              | Raise e => (None, Some ("Error generating graph: " +:+ str e))
              end)).
Proof.
  intros Hk. destruct (build_total s Hk) as [b Hb]. exists b.
  split; [done|].
  unfold generate_graph_visualization, lift, render.
  unfold mbind, IO_bind, try_except_io, mret, IO_ret. rewrite Hb. simpl.
  destruct (dot_render w _ _ _) as [path|e]; simpl; [done|]. by destruct e.
Qed.

Lemma graph_is_rendered_once_witness :
  str_keys (structure_of demo)
  /\ exists b,
       build (structure_of demo) = Ok b
       /\ generate_graph_visualization harsh_world (Some (structure_of demo))
            "graph" "png"
          = ([EvRender "graph" "png"],
             Ok (None,
                 Some "Error: Graphviz executable (dot) not found. Please ensure Graphviz is installed and added to your system's PATH.")).
Proof.
  assert (str_keys (structure_of demo)) as Hk
      by (repeat constructor; by eexists).
  exact (conj Hk (graph_is_rendered_once harsh_world (structure_of demo)
                    "graph" "png" Hk)).
Defined.

End ApiMore.

(* ================================================================== *)
(** ** The console dialogue *)
(* ================================================================== *)

Module GameMore.
Import Game MoreSamples.

Section console.
Variable py_int : string -> option Z.

Lemma ask_size_cons line rest :
  ask_size py_int (line :: rest)
  = match py_int line with
    | Some size =>
        if (2 <=? size)%Z then ([Prompt size_prompt], Some (size, rest))
        else (Prompt size_prompt :: Print (size_complaint py_int line)
                :: (ask_size py_int rest).1,
              (ask_size py_int rest).2)
    | None =>
        (Prompt size_prompt :: Print (size_complaint py_int line)
           :: (ask_size py_int rest).1,
         (ask_size py_int rest).2)
    end.
Proof.
  simpl. unfold size_complaint.
  destruct (py_int line) as [size|]; [destruct (2 <=? size)%Z; [done|]|];
    by destruct (ask_size py_int rest).
Qed.

Lemma ask_fuel_cons line rest :
  ask_fuel py_int (line :: rest)
  = match py_int line with
    | Some fuel =>
        if (1 <=? fuel)%Z && (fuel <=? 99)%Z
        then ([Prompt fuel_prompt], Some (fuel, rest))
        else (Prompt fuel_prompt :: Print (fuel_complaint py_int line)
                :: (ask_fuel py_int rest).1,
              (ask_fuel py_int rest).2)
    | None =>
        (Prompt fuel_prompt :: Print (fuel_complaint py_int line)
           :: (ask_fuel py_int rest).1,
         (ask_fuel py_int rest).2)
    end.
Proof.
  simpl. unfold fuel_complaint.
  destruct (py_int line) as [fuel|];
    [destruct (_ && _); [done|]; destruct (fuel <? 1)%Z|];
    by destruct (ask_fuel py_int rest).
Qed.

End console.

(** *** Properties *)

(** X21. The size loop of [a2.py] takes the first line that is an
    integer of at least 2 and leaves the lines after it unread; before
    that it asks again after every line, saying [n too low] for a
    smaller integer and [Invalid input] for anything else. If standard
    input ends first, every line was turned down and the loop is left by
    the [EOFError] of [input]. *)
Theorem size_loop_takes_first_valid_line (py_int : string -> option Z)
    (stdin : list string) :
  (exists rejected line rest size,
      stdin = rejected ++ line :: rest
      /\ Forall (bad_size py_int) rejected
      /\ py_int line = Some size /\ (2 <= size)%Z
      /\ ask_size py_int stdin
         = (transcript size_prompt (size_complaint py_int) rejected,
            Some (size, rest)))
  \/ (Forall (bad_size py_int) stdin
      /\ ask_size py_int stdin
         = (transcript size_prompt (size_complaint py_int) stdin, None)).
Proof.
  induction stdin as [|line rest IH]; [right; by split|].
  rewrite ask_size_cons.
  destruct (py_int line) as [size|] eqn:Hline.
  - destruct (2 <=? size)%Z eqn:Hsize.
    + left. exists [], line, rest, size. apply Z.leb_le in Hsize. done.
    + apply Z.leb_gt in Hsize.
      assert (bad_size py_int line) as Hbad
          by (unfold bad_size; by rewrite Hline).
      destruct IH as [(rejected & l & r & n & -> & Hrej & Hl & Hn & ->)
                     |[Hall ->]].
      * left. exists (line :: rejected), l, r, n.
        repeat split; try done. by constructor.
      * right. split; [by constructor|done].
  - assert (bad_size py_int line) as Hbad
        by (unfold bad_size; by rewrite Hline).
    destruct IH as [(rejected & l & r & n & -> & Hrej & Hl & Hn & ->)
                   |[Hall ->]].
    + left. exists (line :: rejected), l, r, n.
      repeat split; try done. by constructor.
    + right. split; [by constructor|done].
Qed.

(** X22. The fuel loop of [a2.py] takes the first line that is an
    integer from 1 to 99 and leaves the lines after it unread; before
    that it asks again after every line, saying [fuel too low] below 1,
    [fuel too high] above 99 and [Invalid input] for anything that is
    no integer. If standard input ends first, the loop is left by the
    [EOFError] of [input]. *)
Theorem fuel_loop_takes_first_valid_line (py_int : string -> option Z)
    (stdin : list string) :
  (exists rejected line rest fuel,
      stdin = rejected ++ line :: rest
      /\ Forall (bad_fuel py_int) rejected
      /\ py_int line = Some fuel /\ (1 <= fuel <= 99)%Z
      /\ ask_fuel py_int stdin
         = (transcript fuel_prompt (fuel_complaint py_int) rejected,
            Some (fuel, rest)))
  \/ (Forall (bad_fuel py_int) stdin
      /\ ask_fuel py_int stdin
         = (transcript fuel_prompt (fuel_complaint py_int) stdin, None)).
Proof.
  induction stdin as [|line rest IH]; [right; by split|].
  rewrite ask_fuel_cons.
  destruct (py_int line) as [fuel|] eqn:Hline.
  - destruct ((1 <=? fuel)%Z && (fuel <=? 99)%Z) eqn:Hfuel.
    + left. exists [], line, rest, fuel.
      apply andb_prop in Hfuel as [H1 H2].
      apply Z.leb_le in H1. apply Z.leb_le in H2. done.
    + assert (bad_fuel py_int line) as Hbad.
      { unfold bad_fuel. rewrite Hline.
        apply andb_false_iff in Hfuel as [H|H]; apply Z.leb_gt in H; lia. }
      destruct IH as [(rejected & l & r & n & -> & Hrej & Hl & Hn & ->)
                     |[Hall ->]].
      * left. exists (line :: rejected), l, r, n.
        repeat split; try done; try lia. by constructor.
      * right. split; [by constructor|done].
  - assert (bad_fuel py_int line) as Hbad
        by (unfold bad_fuel; by rewrite Hline).
    destruct IH as [(rejected & l & r & n & -> & Hrej & Hl & Hn & ->)
                   |[Hall ->]].
    + left. exists (line :: rejected), l, r, n.
      repeat split; try done; try lia. by constructor.
    + right. split; [by constructor|done].
Qed.

End GameMore.

(* ================================================================== *)
(** ** The window *)
(* ================================================================== *)

Module GuiMore.
Import Ast PyExn Extractor Lexical Graph Api Gui Samples MoreSamples.
Import ExtractorFacts GraphFacts ApiFacts ApiMore.

Section handlers.
Variable w : World.
Variable str_strip : string -> string.
Variable str_splitlines : string -> list string.
Variable str_upper : string -> string.
Variable sys_platform : string.
Variable os_startfile : string -> result unit.
Variable subprocess_run : list string -> result unit.

(** the button is enabled only with a path to open, and only after
    something was rendered *)
Local Abbreviation ready t app :=
  (open_graph_btn app = true ->
   last_generated_graph_path app <> ""
   /\ exists stem format, Io (EvRender stem format) ∈ t).

Lemma rendered_path s output_filepath format t path msg :
  generate_graph_visualization w (Some s) output_filepath format
  = (t, Ok (Some path, msg)) ->
  exists stem, EvRender stem format ∈ t.
Proof.
  unfold generate_graph_visualization, lift, render.
  unfold mbind, IO_bind, try_except_io, mret, IO_ret.
  destruct (build s) as [b|e]; simpl; [|by intros [=]].
  destruct (dot_render w _ _ _) as [p|e]; simpl.
  - intros [= <- _ _]. eexists. left.
  - destruct e; simpl; by intros [=].
Qed.

Lemma truthy_path_not_empty path : truthy path = true -> path <> "".
Proof. by destruct path. Qed.

Lemma select_file_ready file_path app t app' :
  select_file file_path app = (t, Ok app') -> open_graph_btn app' = false.
Proof.
  unfold select_file. intros [= _ <-]. by destruct (truthy file_path).
Qed.

Lemma show_text_structure_keeps app t app' :
  show_text_structure w str_strip str_splitlines app = (t, Ok app') ->
  open_graph_btn app' = open_graph_btn app
  /\ last_generated_graph_path app' = last_generated_graph_path app.
Proof.
  unfold show_text_structure.
  destruct (unusable w (current_filepath app)) as [t0 [|]];
    [intros [= _ <-]; split; reflexivity|].
  cbv zeta. cbn [current_filepath update_status graph_format_combo].
  destruct (parse_python_file w (current_filepath app)) as [t1 [[[s|] m]|e]];
    [| |by intros [=]].
  - destruct (Text.format_structure_text _ _ _); [|by intros [=]].
    intros [= _ <-]; split; reflexivity.
  - destruct (qt_str m); [|by intros [=]]. intros [= _ <-]; split; reflexivity.
Qed.

Lemma open_last_generated_graph_keeps app t app' :
  open_last_generated_graph w sys_platform os_startfile subprocess_run app
  = (t, Ok app') ->
  open_graph_btn app' = open_graph_btn app
  /\ last_generated_graph_path app' = last_generated_graph_path app.
Proof.
  unfold open_last_generated_graph.
  destruct (unusable w (last_generated_graph_path app)) as [t0 [|]];
    [intros [= _ <-]; split; reflexivity|].
  destruct (launch _ _ _ _) as [t1 [u|e]]; intros [= _ <-]; split; reflexivity.
Qed.

Lemma generate_graph_ready save_filepath app t app' :
  generate_graph w str_upper save_filepath app = (t, Ok app') ->
  (open_graph_btn app' = open_graph_btn app
   /\ last_generated_graph_path app' = last_generated_graph_path app)
  \/ open_graph_btn app' = false
  \/ (last_generated_graph_path app' <> ""
      /\ exists stem format, Io (EvRender stem format) ∈ t).
Proof.
  unfold generate_graph.
  destruct (unusable w (current_filepath app)) as [t0 [|]];
    [intros [= _ <-]; left; split; reflexivity|].
  destruct (negb (truthy save_filepath)); [intros [= _ <-]; left; split; reflexivity|].
  cbv zeta. cbn [current_filepath update_status graph_format_combo].
  destruct (parse_python_file w (current_filepath app)) as [t1 [[[s|] m]|e]];
    [| |by intros [=]].
  - destruct (generate_graph_visualization w (Some s) save_filepath
                (graph_format_combo _)) as [t2 [[full_path msg]|e]] eqn:Hg;
      [|by intros [=]].
    destruct (qt_str msg) as [message|e]; [|by intros [=]].
    destruct full_path as [path|]; [|intros [= _ <-]; right; left; reflexivity].
    destruct (truthy path) eqn:Hp; [|intros [= _ <-]; right; left; reflexivity].
    intros [= <- <-]. right. right. split; [by apply truthy_path_not_empty|].
    apply rendered_path in Hg as [stem Hstem].
    exists stem, (graph_format_combo app).
    apply elem_of_app. right. right.
    apply elem_of_app. right. apply elem_of_app. left.
    by apply (list_elem_of_fmap_2 Io).
  - destruct (qt_str m); [|by intros [=]].
    intros [= _ <-]. right. left. reflexivity.
Qed.

Lemma handle_ready a app t app' t_before :
  handle w str_strip str_splitlines str_upper sys_platform os_startfile
    subprocess_run a app = (t, Ok app') ->
  ready t_before app -> ready (t_before ++ t) app'.
Proof.
  intros Hh Hready.
  assert (forall t_new,
             open_graph_btn app' = open_graph_btn app
             /\ last_generated_graph_path app' = last_generated_graph_path app ->
             ready (t_before ++ t_new) app') as Hkeep.
  { intros t_new [Hb Hl] Hen. rewrite Hb in Hen. rewrite Hl.
    destruct (Hready Hen) as (Hne & stem & format & Hin).
    split; [done|]. exists stem, format. apply elem_of_app. by left. }
  destruct a as [file_path|format| |save_filepath|]; simpl in Hh.
  - apply select_file_ready in Hh. intros Hen. congruence.
  - inversion Hh; subst. by apply Hkeep.
  - by apply Hkeep, (show_text_structure_keeps app t).
  - apply generate_graph_ready in Hh as [Hh|[Hh|(Hne & stem & format & Hin)]].
    + by apply Hkeep.
    + intros Hen. congruence.
    + intros _. split; [done|]. exists stem, format.
      apply elem_of_app. by right.
  - by apply Hkeep, (open_last_generated_graph_keeps app t).
Qed.

Lemma session_ready actions : forall app t app' t_before,
  session w str_strip str_splitlines str_upper sys_platform os_startfile
    subprocess_run actions app = (t, Ok app') ->
  ready t_before app -> ready (t_before ++ t) app'.
Proof.
  induction actions as [|a rest IH]; intros app t app' t_before; simpl.
  - intros [= <- <-]. by rewrite app_nil_r.
  - destruct (handle _ _ _ _ _ _ _ a app) as [t1 [app1|e]] eqn:Hh;
      [|by intros [=]].
    destruct (session _ _ _ _ _ _ _ rest app1) as [t2 r] eqn:Hs.
    intros [= <- ->] Hready. rewrite app_assoc.
    eapply IH; [exact Hs|]. by eapply handle_ready.
Qed.
End handlers.

(** *** Properties *)

(** X23. Whatever the user does, in whatever order, the button [Open
    Generated Graph] is enabled only when the window holds the path of
    a generated graph, and a graph has in fact been handed to the
    renderer: selecting a file or a failed generation disables the
    button, and only a generation that returned a path enables it. *)
Theorem open_button_needs_a_graph (w : World)
    (str_strip : string -> string) (str_splitlines : string -> list string)
    (str_upper : string -> string) (sys_platform : string)
    (os_startfile : string -> result unit)
    (subprocess_run : list string -> result unit)
    (dark : bool) (actions : list action)
    (t : list gui_event) (app : App) :
  session w str_strip str_splitlines str_upper sys_platform os_startfile
    subprocess_run actions (start dark) = (t, Ok app) ->
  open_graph_btn app = true ->
  last_generated_graph_path app <> ""
  /\ exists stem format, Io (EvRender stem format) ∈ t.
Proof.
  intros Hs.
  apply (session_ready w str_strip str_splitlines str_upper sys_platform
           os_startfile subprocess_run actions (start dark) t app [] Hs).
  by destruct dark.
Qed.

Lemma open_button_needs_a_graph_witness :
  exists t app,
    session foo_world strip_nothing one_line upper_format "linux"
      no_startfile it_starts select_and_generate (start false) = (t, Ok app)
    /\ open_graph_btn app = true
    /\ last_generated_graph_path app <> ""
    /\ exists stem format, Io (EvRender stem format) ∈ t.
Proof.
  pose proof (open_button_needs_a_graph foo_world strip_nothing one_line
                upper_format "linux" no_startfile it_starts false
                select_and_generate) as H.
  destruct (session foo_world strip_nothing one_line upper_format "linux"
              no_startfile it_starts select_and_generate (start false))
    as [t [app|e]] eqn:Hs; vm_compute in Hs; [|discriminate].
  specialize (H t app eq_refl).
  injection Hs as <- <-.
  eexists; eexists. split; [reflexivity|]. split; [reflexivity|].
  apply H. reflexivity.
Defined.

(** X24. The button [Show Text Structure], pressed while a file is
    selected that exists. The window asks whether the file exists,
    [parse_python_file] asks again and reads the file, and then one of
    two things happens. Either a structure came back, with no message:
    the report is shown with the status [Text structure displayed
    successfully.] and no message box, unless the report itself raises
    and the handler is left by that exception. Or a message came back:
    the text area shows [Parsing failed:] with the message, a critical
    box shows the message, and the status is [Parsing failed.]. Nothing
    else can happen; in particular the message is never missing when
    the box is shown. *)
Theorem text_button_shows_report_or_error (w : World)
    (str_strip : string -> string) (str_splitlines : string -> list string)
    (app : App) :
  current_filepath app <> "" ->
  os_path_exists w (current_filepath app) = true ->
  exists t',
    (exists s,
        parse_python_file w (current_filepath app)
        = (EvExists (current_filepath app)
             :: EvOpenRead (current_filepath app) :: t',
           Ok (Some s, None))
        /\ show_text_structure w str_strip str_splitlines app
           = (Io (EvExists (current_filepath app))
                :: Io (EvExists (current_filepath app))
                :: Io (EvOpenRead (current_filepath app)) :: ios t',
              match Text.format_structure_text str_strip str_splitlines
                      (Some s) with
              | Ok text =>
                  Ok (update_status "Text structure displayed successfully."
                        (log_output text
                           (update_status
                              ("Parsing '"
                               +:+ PyStr.basename (current_filepath app)
                               +:+ "'...") app)))
              | Raise e => Raise e
              end))
    \/ (exists msg,
          parse_python_file w (current_filepath app)
          = (EvExists (current_filepath app)
               :: EvOpenRead (current_filepath app) :: t',
             Ok (None, Some msg))
          /\ show_text_structure w str_strip str_splitlines app
             = (Io (EvExists (current_filepath app))
                  :: Io (EvExists (current_filepath app))
                  :: Io (EvOpenRead (current_filepath app))
                  :: ios t' ++ [Critical "Parsing Error" msg],
                Ok (update_status "Parsing failed."
                      (log_output ("Parsing failed: " +:+ msg)
                         (update_status
                            ("Parsing '"
                             +:+ PyStr.basename (current_filepath app)
                             +:+ "'...") app))))).
Proof.
  intros Hne Hx.
  assert (exists t' r,
             parse_python_file w (current_filepath app)
             = (EvExists (current_filepath app)
                  :: EvOpenRead (current_filepath app) :: t', Ok r)
             /\ ((exists s, r = (Some s, None))
                 \/ (exists msg, r = (None, Some msg)))) as (t' & r & Hp & Hr).
  { rewrite (parse_python_file_found _ _ Hx).
    destruct (read_text w (current_filepath app)) as [source_code|e].
    - destruct (parse_and_extract_cases w (current_filepath app) source_code)
        as [(tree & ex & _ & _ & ->)|[msg ->]]; eauto 8.
    - exists []. eauto 8. }
  exists t'. unfold show_text_structure, unusable.
  assert (truthy (current_filepath app) = true) as ->
      by (by destruct (current_filepath app)).
  rewrite Hx. cbv zeta. cbn [negb current_filepath update_status].
  rewrite Hp. destruct Hr as [[s ->]|[msg ->]].
  - left. exists s. split; [done|].
    by destruct (Text.format_structure_text _ _ _).
  - right. exists msg. split; [done|]. reflexivity.
Qed.

Lemma text_button_shows_report_or_error_witness :
  current_filepath (set_file "/p/foo.py" "File selected: foo.py" (start false))
  <> ""
  /\ os_path_exists foo_world "/p/foo.py" = true
  /\ show_text_structure foo_world strip_nothing one_line
       (set_file "/p/foo.py" "File selected: foo.py" (start false))
     = ([Io (EvExists "/p/foo.py"); Io (EvExists "/p/foo.py");
         Io (EvOpenRead "/p/foo.py"); Io (EvParse "x = 1")],
        Ok (update_status "Text structure displayed successfully."
              (log_output ("--- Module: Module ---" +:+ Graph.nl +:+ Graph.nl
                           +:+ "--- Global Variables ---" +:+ Graph.nl
                           +:+ "  - x = <?>")
                 (update_status "Parsing 'foo.py'..."
                    (set_file "/p/foo.py" "File selected: foo.py"
                       (start false))))))
  /\ exists t',
       (exists s,
           parse_python_file foo_world "/p/foo.py"
           = (EvExists "/p/foo.py" :: EvOpenRead "/p/foo.py" :: t',
              Ok (Some s, None)))
       \/ (exists msg,
             parse_python_file foo_world "/p/foo.py"
             = (EvExists "/p/foo.py" :: EvOpenRead "/p/foo.py" :: t',
                Ok (None, Some msg))).
Proof.
  assert (current_filepath
            (set_file "/p/foo.py" "File selected: foo.py" (start false)) <> "")
    as Hne by discriminate.
  assert (os_path_exists foo_world "/p/foo.py" = true) as Hx by reflexivity.
  split; [exact Hne|]. split; [exact Hx|]. split; [reflexivity|].
  destruct (text_button_shows_report_or_error foo_world strip_nothing one_line
              (set_file "/p/foo.py" "File selected: foo.py" (start false))
              Hne Hx) as [t' [(s & Hp & _)|(msg & Hp & _)]];
    exists t'; [left; by exists s|right; by exists msg].
Defined.

End GuiMore.
